(** * Groceries: the structured store (DataStore) and the grocery application

    A shallow embedding of [dataStore.js] (class [DataStore]) and of the
    state-changing methods of [main.js] (class [GroceryApp], with the JSON
    import merger [handleImportFile]), followed by the properties the
    specification states about them, and then by the other methods of the
    store ([add], [update], [appendItem], [editItem], the registry of
    listeners) and of the application (export, the two forms, the loading of
    the catalog and of the sets) with properties of theirs.

    Conventions of the embedding.
    - A JavaScript string is a [string] whose characters are read as UTF-16
      code units below 256; [trim], [toLowerCase] and the regular expression of
      [_validateNamespace] are written out for that range.
    - A JavaScript number is a [number]: a finite rational, [NaN] or an
      infinity.  Rounding to binary64 and the sign of zero are not modelled.
    - A value is a tree ([value]); an object is the list of its own
      properties in insertion order, read through [obj_get] (first entry of a
      key).  The members an object or an array inherits from its prototype
      are not in the tree: the operations that look a name up ([has_in],
      [member], the read of [get] on [chrome.storage]) are the code's for
      the names that are inherited by nothing, and the properties say so
      ([own_lookup], [own_walk], [own_namespace], [merge_keys]).  The engine's
      reordering of integer-like keys is outside the model.
    - What the JavaScript engine and the browser provide (number/string
      conversions, [JSON], [Date.now], the storage back ends and their
      failures) are the classes [Engine] and [Browser]; what is assumed of
      [JSON] and of StringToNumber is the class [EngineLaws], which the
      reference engine is proved to meet.
    - An [async] method is its sequential state transformer: the callers
      await every call. *)

From Stdlib Require Import Ascii String QArith Qround DecimalString DecimalN.
From stdpp Require Import gmap strings list.

Set Warnings "-register-all".
Open Scope string_scope.

(** ** JavaScript strings *)

Module JsString.

Definition code (c : ascii) : nat := nat_of_ascii c.

(** WhiteSpace and LineTerminator code units below 256:
    TAB, LF, VT, FF, CR, SP and NBSP. *)
Definition is_space (c : ascii) : bool :=
  let n := code c in
  (((9 <=? n) && (n <=? 13)) || (n =? 32) || (n =? 160))%nat.

Fixpoint trimStart (s : string) : string :=
  match s with
  | EmptyString => EmptyString
  | String c r => if is_space c then trimStart r else s
  end.

Fixpoint trimEnd (s : string) : string :=
  match s with
  | EmptyString => EmptyString
  | String c r =>
      match trimEnd r with
      | EmptyString => if is_space c then EmptyString else String c EmptyString
      | r' => String c r'
      end
  end.

(** [String.prototype.trim] *)
Definition trim (s : string) : string := trimEnd (trimStart s).

(** [String.prototype.toLowerCase] on one code unit: A-Z, and the Latin-1
    capitals U+00C0..U+00DE without the multiplication sign U+00D7. *)
Definition lower_char (c : ascii) : ascii :=
  let n := code c in
  if (((65 <=? n) && (n <=? 90))
      || ((192 <=? n) && (n <=? 222) && negb (n =? 215)))%nat
  then ascii_of_nat (n + 32) else c.

Fixpoint toLowerCase (s : string) : string :=
  match s with
  | EmptyString => EmptyString
  | String c r => String (lower_char c) (toLowerCase r)
  end.

Definition is_empty (s : string) : bool :=
  match s with EmptyString => true | _ => false end.

(** [s.split('.')]: never the empty list. *)
Fixpoint split_dot (s : string) : list string :=
  match s with
  | EmptyString => [EmptyString]
  | String c r =>
      if Ascii.eqb c "."%char then EmptyString :: split_dot r
      else match split_dot r with
           | [] => [String c EmptyString]
           | hd :: tl => String c hd :: tl
           end
  end.

Definition is_digit (c : ascii) : bool :=
  ((48 <=? code c) && (code c <=? 57))%nat.

(** Decimal digits of a natural number, as a template literal prints an
    integer below 10^21. *)
Definition decimal (n : N) : string := NilEmpty.string_of_uint (N.to_uint n).

(** The canonical array index a property name denotes, if any: the name is
    the decimal form of a natural number. *)
Definition array_index (s : string) : option nat :=
  match NilEmpty.uint_of_string s with
  | Some d =>
      let n := N.of_uint d in
      if String.eqb (decimal n) s then Some (N.to_nat n) else None
  | None => None
  end.

(** The character class [[a-zA-Z0-9._-]] *)
Definition namespace_char (c : ascii) : bool :=
  let n := code c in
  (((97 <=? n) && (n <=? 122)) || ((65 <=? n) && (n <=? 90))
   || ((48 <=? n) && (n <=? 57))
   || (n =? 46) || (n =? 95) || (n =? 45))%nat.

Fixpoint all_chars (p : ascii -> bool) (s : string) : bool :=
  match s with
  | EmptyString => true
  | String c r => p c && all_chars p r
  end.

(** [/^[a-zA-Z0-9._-]+$/.test(s)] *)
Definition namespace_regex (s : string) : bool :=
  negb (is_empty s) && all_chars namespace_char s.

End JsString.

(** ** JavaScript numbers and values *)

Inductive number :=
| NaN
| PosInf
| NegInf
| Fin (q : Q).

Definition isFinite (n : number) : bool :=
  match n with Fin _ => true | _ => false end.

Definition isNaN (n : number) : bool :=
  match n with NaN => true | _ => false end.

Definition num_of_nat (n : nat) : number := Fin (inject_Z (Z.of_nat n)).

(** [a < b] on numbers; false as soon as one side is [NaN]. *)
Definition num_lt (a b : number) : bool :=
  match a, b with
  | NaN, _ | _, NaN => false
  | _, NegInf => false
  | NegInf, _ => true
  | PosInf, _ => false
  | _, PosInf => true
  | Fin x, Fin y => negb (Qle_bool y x)
  end.

(** [a >= b] on numbers; false as soon as one side is [NaN]. *)
Definition num_ge (a b : number) : bool :=
  match a, b with
  | NaN, _ | _, NaN => false
  | _, _ => negb (num_lt a b)
  end.

Inductive value :=
| VUndefined
| VNull
| VBool (b : bool)
| VNum (n : number)
| VStr (s : string)
| VArr (elems : list value)
| VObj (fields : list (string * value)).

Definition nullish (v : value) : bool :=
  match v with VUndefined | VNull => true | _ => false end.

(** ToBoolean *)
Definition truthy (v : value) : bool :=
  match v with
  | VUndefined | VNull => false
  | VBool b => b
  | VNum NaN => false
  | VNum (Fin q) => negb (Qeq_bool q 0)
  | VNum _ => true
  | VStr s => negb (JsString.is_empty s)
  | VArr _ | VObj _ => true
  end.

(** [a ?? b] *)
Definition coalesce (a b : value) : value := if nullish a then b else a.

Infix "??" := coalesce (at level 45, right associativity).

(** ** Objects and arrays *)

(** Own properties of an object: [o[k]], [k in o], [o[k] = v], [delete o[k]]. *)
Fixpoint obj_get (k : string) (fields : list (string * value)) : option value :=
  match fields with
  | [] => None
  | (k', v) :: rest => if String.eqb k' k then Some v else obj_get k rest
  end.

Definition obj_has (k : string) (fields : list (string * value)) : bool :=
  match obj_get k fields with Some _ => true | None => false end.

(** An assignment keeps the place of a key the object already has and puts
    a new key last. *)
Fixpoint obj_set (k : string) (v : value) (fields : list (string * value))
  : list (string * value) :=
  match fields with
  | [] => [(k, v)]
  | (k', v') :: rest =>
      if String.eqb k' k then (k, v) :: rest else (k', v') :: obj_set k v rest
  end.

Fixpoint obj_delete (k : string) (fields : list (string * value))
  : list (string * value) :=
  match fields with
  | [] => []
  | (k', v') :: rest =>
      if String.eqb k' k then obj_delete k rest else (k', v') :: obj_delete k rest
  end.

(** [{...a, ...b}] on the own properties of two objects. *)
Definition obj_spread (a b : list (string * value)) : list (string * value) :=
  fold_left (fun acc kv => obj_set (fst kv) (snd kv) acc) b a.

(** The own enumerable properties a spread copies: those of an object, none
    of [null] or [undefined].  (Arrays and strings never reach the spreads of
    [merge].) *)
Definition own_fields (v : value) : list (string * value) :=
  match v with VObj f => f | _ => [] end.

(** [typeof v === 'object'] *)
Definition typeof_object (v : value) : bool :=
  match v with VNull | VArr _ | VObj _ => true | _ => false end.

Definition isArray (v : value) : bool :=
  match v with VArr _ => true | _ => false end.

(** [v?.name] for a member name that no array or string has of its own
    ([store], [item], [price], [id], ...). *)
Definition opt_member (v : value) (name : string) : value :=
  match v with
  | VObj f => match obj_get name f with Some x => x | None => VUndefined end
  | _ => VUndefined
  end.

(** [parent.splice(index, 1)] *)
Definition splice1 (index : nat) (l : list value) : list value :=
  take index l ++ drop (S index) l.

(** ** The engine and the browser *)

Inductive storage_op := OpGet | OpSet | OpRemove.

(** What the JavaScript engine provides. *)
Class Engine := {
  (** Number::toString *)
  number_to_string : number -> string;
  (** StringToNumber, the conversion behind [Number(s)] *)
  string_to_number : string -> number;
  (** a canonical decimal numeral denotes its number *)
  string_to_number_decimal :
    forall n : N, string_to_number (JsString.decimal n) = Fin (inject_Z (Z.of_N n));
  (** [JSON.stringify] on a value other than [undefined] *)
  JSON_stringify : value -> string;
  (** [JSON.parse]; [None] is a SyntaxError *)
  JSON_parse : string -> option value
}.

(** What the browser provides. *)
Class Browser := {
  (** [Date.now()] at the n-th reading of the clock by one import *)
  Date_now : nat -> N;
  (** [typeof chrome !== 'undefined' && chrome.storage && chrome.storage[type]] *)
  chrome_storage_has : string -> bool;
  (** [chrome.runtime.lastError] after an operation on an area and a key:
      the message, if any *)
  chrome_lastError : storage_op -> string -> string -> option string;
  (** the exception (name, message) [setItem] throws on the given contents
      for a key and a serialized value, if any *)
  setItem_error : gmap string string -> string -> string -> option (string * string)
}.

Section Conversions.
Context `{Engine}.

(** [String(v)] *)
Fixpoint ToString (v : value) : string :=
  match v with
  | VUndefined => "undefined"
  | VNull => "null"
  | VBool true => "true"
  | VBool false => "false"
  | VNum n => number_to_string n
  | VStr s => s
  | VArr elems =>
      (fix join (l : list value) : string :=
         match l with
         | [] => ""
         | [x] => if nullish x then "" else ToString x
         | x :: rest =>
             (if nullish x then "" else ToString x) +:+ "," +:+ join rest
         end) elems
  | VObj _ => "[object Object]"
  end.

(** [Number(v)] *)
Definition ToNumber (v : value) : number :=
  match v with
  | VUndefined => NaN
  | VNull => Fin 0
  | VBool true => Fin 1
  | VBool false => Fin 0
  | VNum n => n
  | VStr s => string_to_number s
  | VArr _ | VObj _ => string_to_number (ToString v)
  end.

End Conversions.

(** ** JSON values, and what the properties assume of the engine *)

(** A denominator that divides a power of ten. *)
Definition decimal_fraction (d : positive) : bool :=
  (10 ^ Z.of_nat (Pos.size_nat d) mod Zpos d =? 0)%Z.

(** A number that has a JSON text which reads back as the number: finite, in
    lowest terms (as the model has each number once), a decimal fraction (as
    every binary64 number is). *)
Definition json_number (n : number) : bool :=
  match n with
  | Fin q =>
      (Qnum (Qred q) =? Qnum q)%Z && (Qden (Qred q) =? Qden q)%positive
      && decimal_fraction (Qden q)
  | _ => false
  end.

(** A name that is a canonical array index. *)
Definition is_index (k : string) : bool :=
  match JsString.array_index k with Some _ => true | None => false end.

(** The order in which an object holds its keys: the array indices first, in
    ascending order, then the other names. *)
Fixpoint keys_in_order (low : nat) (ks : list string) : bool :=
  match ks with
  | [] => true
  | k :: rest =>
      match JsString.array_index k with
      | Some n => (low <=? n)%nat && keys_in_order (S n) rest
      | None => forallb (fun k' => negb (is_index k')) rest
      end
  end.

(** A value [JSON] takes to a text and back: no [undefined], no [NaN] or
    infinity, every object with distinct keys in the order in which the
    engine holds them. *)
Fixpoint json_value (v : value) : bool :=
  match v with
  | VUndefined => false
  | VNull | VBool _ | VStr _ => true
  | VNum n => json_number n
  | VArr l => forallb json_value l
  | VObj f =>
      bool_decide (NoDup f.*1) && keys_in_order 0 f.*1
      && (fix members (f : list (string * value)) : bool :=
            match f with
            | [] => true
            | (_, x) :: rest => json_value x && members rest
            end) f
  end.

(** A-Z and a-z *)
Definition is_letter (c : ascii) : bool :=
  let n := JsString.code c in
  (((97 <=? n) && (n <=? 122)) || ((65 <=? n) && (n <=? 90)))%nat.

(** What the properties below assume of the engine beyond its interface:
    [JSON.parse] reads a JSON value back from the text [JSON.stringify]
    gives it, and StringToNumber makes [NaN] of a text that begins with a
    letter other than the [I] of [Infinity]. *)
Class EngineLaws `{Engine} : Prop := {
  JSON_round_trip :
    forall v : value, json_value v = true -> JSON_parse (JSON_stringify v) = Some v;
  string_to_number_name :
    forall (c : ascii) (s : string),
      is_letter c = true -> c <> "I"%char -> string_to_number (String c s) = NaN
}.

(** ** Exceptions and the state of the browser's storage *)

Inductive exn :=
| TypeError (msg : string)
| Error (msg : string)
| DOMException (name msg : string).

(** [error.message] and [error.name] *)
Definition message (e : exn) : string :=
  match e with TypeError m | Error m | DOMException _ m => m end.

Definition exn_name (e : exn) : string :=
  match e with
  | TypeError _ => "TypeError"
  | Error _ => "Error"
  | DOMException n _ => n
  end.

Inductive outcome (A : Type) :=
| Return (a : A)
| Throw (e : exn).
Arguments Return {A} a.
Arguments Throw {A} e.

(** A change notification: namespace, kind, payload (the time stamp is left
    out). *)
Record change_event := {
  ev_namespace : string;
  ev_type : string;
  ev_data : value
}.

(** The storage areas and the notifications dispatched so far. *)
Record world := {
  (** [chrome.storage[area]], by (area, key) *)
  chrome_items : gmap (string * string) value;
  local_items : gmap string string;
  session_items : gmap string string;
  dispatched : list change_event
}.

(** A method: a transformer of the world that returns or throws. *)
Definition M (A : Type) : Type := world -> outcome A * world.

Definition ret {A} (a : A) : M A := fun w => (Return a, w).
Definition throw {A} (e : exn) : M A := fun w => (Throw e, w).
Definition bind {A B} (m : M A) (k : A -> M B) : M B :=
  fun w => match m w with
           | (Return a, w') => k a w'
           | (Throw e, w') => (Throw e, w')
           end.
(** [try { m } catch (error) { h error }] *)
Definition try_catch {A} (m : M A) (h : exn -> M A) : M A :=
  fun w => match m w with
           | (Return a, w') => (Return a, w')
           | (Throw e, w') => h e w'
           end.

Notation "x <- m ;; k" := (bind m (fun x => k))
  (at level 100, m at next level, right associativity).
Notation "m ;;; k" := (bind m (fun _ => k))
  (at level 100, right associativity).

(** ** dataStore.js: class DataStore *)

Module DataStore.
Import JsString.

(** [this.storage] *)
Inductive storage_ref :=
| ChromeArea (area : string)
| LocalStorage
| SessionStorage.

(** An instance; [storageType] is ['chrome'] exactly for a [ChromeArea]. *)
Record t := {
  namespace : string;
  type : string;
  storage : storage_ref
}.

Definition validTypes : list string := ["local"; "sync"; "managed"; "session"].

Definition _validateNamespace (namespace : value) : outcome unit :=
  match namespace with
  | VStr s =>
      if is_empty (trim s) then Throw (Error "Namespace cannot be empty")
      else if (255 <? String.length s)%nat
           then Throw (Error "Namespace cannot exceed 255 characters")
      else if negb (namespace_regex s)
           then Throw (Error "Namespace contains invalid characters. Only alphanumeric, dots, underscores, and hyphens are allowed")
      else Return tt
  | _ => Throw (TypeError "Namespace must be a string")
  end.

(** The characters of the class [A-Za-z0-9._-], one by one. *)
Definition namespace_alphabet : string :=
  "ABCDEFGHIJKLMNOPQRSTUVWXYZabcdefghijklmnopqrstuvwxyz0123456789._-".

(** A string of 1 to 255 characters, each of the class. *)
Definition valid_namespace (namespace : value) : Prop :=
  exists s, namespace = VStr s
    /\ (1 <= String.length s <= 255)%nat
    /\ forall c, In c (list_ascii_of_string s) ->
                 In c (list_ascii_of_string namespace_alphabet).

(** [this.validTypes.includes(type) ? type : 'local']; an argument left out
    is [undefined] and the default parameter makes it ['local'] as well. *)
Definition select_type (type : value) : string :=
  match type with
  | VStr s => if bool_decide (s ∈ validTypes) then s else "local"
  | _ => "local"
  end.

(** The names under which every object finds a member of
    [Object.prototype]. *)
Definition object_prototype_names : list string :=
  ["constructor"; "hasOwnProperty"; "isPrototypeOf"; "propertyIsEnumerable";
   "toLocaleString"; "toString"; "valueOf"; "__proto__";
   "__defineGetter__"; "__defineSetter__"; "__lookupGetter__"; "__lookupSetter__"].

Definition inherited_name (name : string) : bool :=
  bool_decide (name ∈ object_prototype_names).

Section Methods.
Context `{Engine} `{Browser}.

Definition _initializeStorage (type : string) : storage_ref :=
  if chrome_storage_has type then ChromeArea type
  else if String.eqb type "session" then SessionStorage else LocalStorage.

(** [new DataStore(namespace, type)] *)
Definition constructor (namespace type : value) : outcome t :=
  match _validateNamespace namespace, namespace with
  | Return _, VStr s =>
      let ty := select_type type in
      Return {| namespace := s; type := ty; storage := _initializeStorage ty |}
  | Throw e, _ => Throw e
  | Return _, _ => Throw (TypeError "Namespace must be a string")
  end.

Definition _dispatchChangeEvent (ds : t) (kind : string) (data : value) : M unit :=
  fun w =>
    (Return tt,
     {| chrome_items := chrome_items w;
        local_items := local_items w;
        session_items := session_items w;
        dispatched := dispatched w ++
          [{| ev_namespace := namespace ds; ev_type := kind; ev_data := data |}] |}).

(** The Web storage object of an instance that is not on [chrome.storage]. *)
Definition web_items (ds : t) (w : world) : gmap string string :=
  match storage ds with
  | SessionStorage => session_items w
  | _ => local_items w
  end.

Definition web_setItem (ds : t) (key data : string) : M unit :=
  fun w =>
    match setItem_error (web_items ds w) key data with
    | Some (name, msg) => (Throw (DOMException name msg), w)
    | None =>
        (Return tt,
         match storage ds with
         | SessionStorage =>
             {| chrome_items := chrome_items w;
                local_items := local_items w;
                session_items := <[key := data]> (session_items w);
                dispatched := dispatched w |}
         | _ =>
             {| chrome_items := chrome_items w;
                local_items := <[key := data]> (local_items w);
                session_items := session_items w;
                dispatched := dispatched w |}
         end)
    end.

Definition chrome_set (area key : string) (v : value) : M unit :=
  fun w =>
    match chrome_lastError OpSet area key with
    | Some msg => (Throw (Error ("Chrome storage error: " +:+ msg)), w)
    | None =>
        (Return tt,
         {| chrome_items := <[(area, key) := v]> (chrome_items w);
            local_items := local_items w;
            session_items := session_items w;
            dispatched := dispatched w |})
    end.

(** [get(defaultValue)].  On [chrome.storage] the code reads
    [result[this.namespace]] on the object of the stored items: when the
    namespace is not stored the read reaches [Object.prototype].  Under
    ['__proto__'] it finds the prototype itself, an object without a property
    of its own to enumerate, and resolves with it.  Under the other
    [object_prototype_names] it finds a function, which is no [value]: the
    definition gives the default there, and the properties of the store are
    stated for the other namespaces ([own_namespace]). *)
Definition get (ds : t) (defaultValue : value) : M value :=
  fun w =>
    match storage ds with
    | ChromeArea area =>
        match chrome_lastError OpGet area (namespace ds) with
        | Some msg => (Throw (Error ("Chrome storage error: " +:+ msg)), w)
        | None =>
            match chrome_items w !! (area, namespace ds) with
            | Some VUndefined | None =>
                if String.eqb (namespace ds) "__proto__"
                then (Return (VObj []), w)
                else (Return defaultValue, w)
            | Some v => (Return v, w)
            end
        end
    | _ =>
        match web_items ds w !! namespace ds with
        | None => (Return defaultValue, w)
        | Some item =>
            match JSON_parse item with
            | Some v => (Return v, w)
            | None => (Return defaultValue, w)
            end
        end
    end.

(** A tree of values has no cycle, so only [undefined] is refused. *)
Definition _validateValue (v : value) : outcome unit :=
  match v with
  | VUndefined => Throw (Error "Cannot store undefined value")
  | _ => Return tt
  end.

(** [set(value)].  A rejection of the promise the chrome branch returns
    is not caught by the method's own [catch]. *)
Definition set (ds : t) (v : value) : M unit :=
  match _validateValue v with
  | Throw e => throw (Error ("Failed to set data: " +:+ message e))
  | Return _ =>
      match storage ds with
      | ChromeArea area =>
          chrome_set area (namespace ds) v ;;;
          _dispatchChangeEvent ds "set" v
      | _ =>
          try_catch
            (try_catch
               (web_setItem ds (namespace ds) (JSON_stringify v) ;;;
                _dispatchChangeEvent ds "set" v)
               (fun storageError =>
                  if String.eqb (exn_name storageError) "QuotaExceededError"
                  then throw (Error "Storage quota exceeded")
                  else throw storageError))
            (fun error => throw (Error ("Failed to set data: " +:+ message error)))
      end
  end.

(** [clear()] *)
Definition clear (ds : t) : M unit :=
  match storage ds with
  | ChromeArea area =>
      fun w =>
        match chrome_lastError OpRemove area (namespace ds) with
        | Some msg => (Throw (Error ("Chrome storage error: " +:+ msg)), w)
        | None =>
            _dispatchChangeEvent ds "clear" VNull
              {| chrome_items := delete (area, namespace ds) (chrome_items w);
                 local_items := local_items w;
                 session_items := session_items w;
                 dispatched := dispatched w |}
        end
  | SessionStorage =>
      fun w =>
        _dispatchChangeEvent ds "clear" VNull
          {| chrome_items := chrome_items w;
             local_items := local_items w;
             session_items := delete (namespace ds) (session_items w);
             dispatched := dispatched w |}
  | LocalStorage =>
      fun w =>
        _dispatchChangeEvent ds "clear" VNull
          {| chrome_items := chrome_items w;
             local_items := delete (namespace ds) (local_items w);
             session_items := session_items w;
             dispatched := dispatched w |}
  end.

Definition is_plain_object (v : value) : bool :=
  match v with VObj _ => true | _ => false end.

(** [_deepMerge(target, source)], for a source none of whose objects has a
    key [hasOwnProperty] (the code calls [source.hasOwnProperty(key)], which
    such a key replaces) or [__proto__] (the assignment [result[key] = ...]
    sets the prototype under this key); see [merge_keys]. *)
Fixpoint _deepMerge (target source : value) {struct source} : value :=
  match source with
  | VObj sfields =>
      VObj ((fix loop (src result : list (string * value))
               : list (string * value) :=
               match src with
               | [] => result
               | (key, sv) :: rest =>
                   loop rest
                     (obj_set key
                        match sv, obj_get key result with
                        | VObj _, Some (VObj _ as tv) => _deepMerge tv sv
                        | _, _ => sv
                        end result)
               end) sfields (own_fields target))
  | _ => VObj (own_fields target)
  end.

(** [merge(newData, deep)] *)
Definition merge (ds : t) (newData : value) (deep : bool) : M value :=
  if negb (typeof_object newData)
     || match newData with VNull => true | _ => false end
     || isArray newData
  then throw (TypeError "Data to merge must be a plain object")
  else
    currentData <- get ds (VObj []) ;;
    if negb (typeof_object currentData) || isArray currentData
    then throw (Error "Cannot merge with non-object data")
    else
      let merged :=
        if deep then _deepMerge currentData newData
        else VObj (obj_spread (own_fields currentData) (own_fields newData)) in
      set ds merged ;;;
      ret merged.

Definition _validatePath (path : string) : outcome unit :=
  if is_empty (trim path) then Throw (Error "Path must be a non-empty string")
  else Return tt.

(** [key in parent] on the members of its own that the parent has.  The
    operator also finds the members a parent inherits, from
    [Object.prototype] and, for an array, from [Array.prototype]; the
    definition is the operator for the keys of [own_lookup]. *)
Definition has_in (key : string) (parent : value) : outcome bool :=
  match parent with
  | VObj f => Return (obj_has key f)
  | VArr l =>
      Return (match array_index key with
              | Some i => (i <? length l)%nat
              | None => String.eqb key "length"
              end)
  | _ => Throw (TypeError "Cannot use 'in' operator to search for a key in a primitive")
  end.

(** [parent[key]], for the keys of [own_lookup] as well. *)
Definition member (parent : value) (key : string) : value :=
  match parent with
  | VObj f => match obj_get key f with Some v => v | None => VUndefined end
  | VArr l =>
      match array_index key with
      | Some i => match l !! i with Some v => v | None => VUndefined end
      | None => if String.eqb key "length" then VNum (num_of_nat (length l))
                else VUndefined
      end
  | _ => VUndefined
  end.

(** A text between double quotes. *)
Definition quoted (s : string) : string :=
  let q := String (ascii_of_nat 34) EmptyString in q +:+ s +:+ q.

(** The parent does not inherit a member under the key: an object is asked
    for no name of [Object.prototype], an array for an index or its
    [length]. *)
Definition own_lookup (key : string) (parent : value) : bool :=
  match parent with
  | VObj _ => negb (inherited_name key)
  | VArr _ => is_index key || String.eqb key "length"
  | _ => true
  end.

(** Every segment of a path is looked up among the own members of the value
    the path has reached. *)
Fixpoint own_walk (parent : value) (pathParts : list string) : bool :=
  match pathParts with
  | [] => true
  | part :: rest => own_lookup part parent && own_walk (member parent part) rest
  end.

(** The loop of [_navigateToPath] with [create = false]. *)
Fixpoint walk (path : string) (parent : value) (pathParts : list string)
  : outcome value :=
  match pathParts with
  | [] => Return parent
  | part :: rest =>
      if nullish parent
      then Throw (Error ("Cannot navigate through null/undefined at path " +:+ quoted path))
      else match has_in part parent with
           | Throw e => Throw e
           | Return false => Throw (Error ("Path " +:+ quoted path +:+ " not found"))
           | Return true => walk path (member parent part) rest
           end
  end.

(** [_navigateToPath(data, path)]: the parent and the last segment.  (The
    [create] branch serves [editItem] only and is not embedded.) *)
Definition _navigateToPath (data : value) (path : string)
  : outcome (value * string) :=
  let pathParts := split_dot path in
  let key := List.last pathParts "" in
  match walk path data (removelast pathParts) with
  | Return parent => Return (parent, key)
  | Throw e => Throw e
  end.

(** The data after the node reached through [pathParts] has been
    changed in place to [node]. *)
Fixpoint write_back (pathParts : list string) (node data : value) : value :=
  match pathParts with
  | [] => node
  | part :: rest =>
      match data with
      | VObj f =>
          match obj_get part f with
          | Some child => VObj (obj_set part (write_back rest node child) f)
          | None => data
          end
      | VArr l =>
          match array_index part with
          | Some i =>
              match l !! i with
              | Some child => VArr (<[i := write_back rest node child]> l)
              | None => data
              end
          | None => data
          end
      | _ => data
      end
  end.

(** ToIntegerOrInfinity of an index that passed the bounds check. *)
Definition to_index (n : number) : nat :=
  match n with Fin q => Z.to_nat (Qfloor q) | _ => 0%nat end.

(** [deleteItem(itemPath)] *)
Definition deleteItem (ds : t) (itemPath : string) : M bool :=
  match _validatePath itemPath with
  | Throw e => throw e
  | Return _ =>
      data <- get ds VUndefined ;;
      if negb (truthy data) then ret false
      else
        match _navigateToPath data itemPath with
        | Throw e => throw e
        | Return (parent, key) =>
            match has_in key parent with
            | Throw e => throw e
            | Return false => ret false
            | Return true =>
                let deletedValue := member parent key in
                let removed : outcome value :=
                  match parent with
                  | VArr l =>
                      let index := ToNumber (VStr key) in
                      if isNaN index || num_lt index (Fin 0)
                         || num_ge index (num_of_nat (length l))
                      then Throw (Error ("Invalid array index: " +:+ key))
                      else Return (VArr (splice1 (to_index index) l))
                  | VObj f => Return (VObj (obj_delete key f))
                  | _ => Return parent
                  end in
                match removed with
                | Throw e => throw e
                | Return parent' =>
                    set ds (write_back (removelast (split_dot itemPath)) parent' data) ;;;
                    _dispatchChangeEvent ds "deleteItem"
                      (VObj [("path", VStr itemPath); ("deletedValue", deletedValue)]) ;;;
                    ret true
                end
            end
        end
  end.

(** *** The terms of the properties of the store *)

(** The back end answers a read of the instance's key. *)
Definition reads_ok (ds : t) : Prop :=
  match storage ds with
  | ChromeArea area => chrome_lastError OpGet area (namespace ds) = None
  | _ => True
  end.

(** A read of the instance's key finds what is stored or nothing: on
    [chrome.storage], the namespace is no name of [Object.prototype]. *)
Definition own_namespace (ds : t) : Prop :=
  match storage ds with
  | ChromeArea _ => inherited_name (namespace ds) = false
  | _ => True
  end.

(** Nothing is stored under the instance's key. *)
Definition never_written (ds : t) (w : world) : Prop :=
  match storage ds with
  | ChromeArea area => chrome_items w !! (area, namespace ds) = None
  | _ => web_items ds w !! namespace ds = None
  end.

(** The value the back end holds for the instance: as it is on
    [chrome.storage], serialized on Web storage. *)
Definition persisted (ds : t) (w : world) (v : value) : Prop :=
  match storage ds with
  | ChromeArea area => chrome_items w !! (area, namespace ds) = Some v
  | _ => web_items ds w !! namespace ds = Some (JSON_stringify v)
  end.

(** The back end takes a write of [v] under the instance's key. *)
Definition write_accepted (ds : t) (w : world) (v : value) : Prop :=
  match storage ds with
  | ChromeArea area => chrome_lastError OpSet area (namespace ds) = None
  | _ => setItem_error (web_items ds w) (namespace ds) (JSON_stringify v) = None
  end.

(** The object [merge] makes of the stored data and its argument. *)
Definition merged_data (currentData : value) (fields : list (string * value)) (deep : bool)
  : value :=
  if deep then _deepMerge currentData (VObj fields)
  else VObj (obj_spread (own_fields currentData) fields).

(** No object of a value, outside its arrays, has a key [hasOwnProperty] or
    [__proto__]. *)
Fixpoint merge_keys (v : value) : bool :=
  match v with
  | VObj f =>
      (fix members (f : list (string * value)) : bool :=
         match f with
         | [] => true
         | (key, x) :: rest =>
             negb (String.eqb key "hasOwnProperty") && negb (String.eqb key "__proto__")
             && merge_keys x && members rest
         end) f
  | _ => true
  end.

(** The loop of [_deepMerge] over the properties of the source. *)
Fixpoint deepMerge_loop (src result : list (string * value)) : list (string * value) :=
  match src with
  | [] => result
  | (key, sv) :: rest =>
      deepMerge_loop rest
        (obj_set key
           match sv, obj_get key result with
           | VObj _, Some (VObj _ as tv) => _deepMerge tv sv
           | _, _ => sv
           end result)
  end.

(** An object or an array: what a path can lead through. *)
Definition container (v : value) : bool :=
  match v with VObj _ | VArr _ => true | _ => false end.

End Methods.
End DataStore.

(** ** main.js: class GroceryApp *)

Module GroceryApp.
Import JsString.

(** An item of the catalog, with the types of the data model: on such
    fields [String(it.id)], [String(it.store)] and [String(it.item)] change
    nothing. *)
Record Item := {
  id : string;
  store : string;
  item : string;
  price : number
}.

(** The fields of the application that the methods below change.  The calls
    that persist them ([...Store.set(...).catch(...)]), the toasts and the
    rendering do not write to these fields. *)
Record t := {
  groceryItems : list Item;
  shoppingSet : gset string;
  uncheckedSet : gset string
}.

Definition addToShopping (itemId : string) (app : t) : t :=
  if bool_decide (itemId ∈ shoppingSet app) then app
  else {| groceryItems := groceryItems app;
          shoppingSet := shoppingSet app ∪ {[itemId]};
          uncheckedSet := uncheckedSet app ∖ {[itemId]} |}.

Definition removeFromShopping (itemId : string) (app : t) : t :=
  if negb (bool_decide (itemId ∈ shoppingSet app)) then app
  else {| groceryItems := groceryItems app;
          shoppingSet := shoppingSet app ∖ {[itemId]};
          uncheckedSet := uncheckedSet app ∖ {[itemId]} |}.

(** [isChecked] is the state of the item's checkbox, [!!checkbox?.checked]. *)
Definition toggleItem (itemId : string) (isChecked : bool) (app : t) : t :=
  {| groceryItems := groceryItems app;
     shoppingSet := shoppingSet app;
     uncheckedSet := if isChecked then uncheckedSet app ∖ {[itemId]}
                     else uncheckedSet app ∪ {[itemId]} |}.

Definition removeItem (itemId : string) (app : t) : t :=
  {| groceryItems :=
       List.filter (fun it => negb (String.eqb (id it) itemId)) (groceryItems app);
     shoppingSet := shoppingSet app ∖ {[itemId]};
     uncheckedSet := uncheckedSet app ∖ {[itemId]} |}.

Definition clearShoppingList (app : t) : t :=
  if (size (shoppingSet app) =? 0)%nat then app
  else {| groceryItems := groceryItems app;
          shoppingSet := ∅;
          uncheckedSet := ∅ |}.

(** Status Set ⊆ Selection Set *)
Definition status_within_selection (app : t) : Prop :=
  uncheckedSet app ⊆ shoppingSet app.

(** *** The import merger: the loop of [handleImportFile] *)

(** The key of an item already in the catalog:
    [`${String(it.store).trim().toLowerCase()}|${String(it.item).trim().toLowerCase()}`] *)
Definition item_key (it : Item) : string :=
  toLowerCase (trim (store it)) +:+ "|" +:+ toLowerCase (trim (item it)).

(** The key of an item of the batch, as [toAdd.some] computes it:
    [`${x.store.toLowerCase()}|${x.item.toLowerCase()}`] *)
Definition batch_key (x : Item) : string :=
  toLowerCase (store x) +:+ "|" +:+ toLowerCase (item x).

(** The variables of the loop. *)
Record import_state := {
  existingIdSet : gset string;
  existingKeySet : gset string;
  toAdd : list Item;
  skippedInvalid : nat;
  skippedDuplicates : nat;
  counter : nat
}.

Definition initial_state (items : list Item) : import_state :=
  {| existingIdSet := list_to_set (id <$> items);
     existingKeySet := list_to_set (item_key <$> items);
     toAdd := [];
     skippedInvalid := 0;
     skippedDuplicates := 0;
     counter := 0 |}.

Section Merger.
Context `{Engine} `{Browser}.

(** [`item-${Date.now()}-${counter}`] *)
Definition candidate_id (counter : nat) : string :=
  "item-" +:+ decimal (Date_now counter) +:+ "-" +:+ decimal (N.of_nat counter).

(** The do-while loop of [makeUniqueId], at most [fuel] rounds. *)
Fixpoint makeUniqueId_loop (fuel : nat) (ids : gset string) (counter : nat)
  : option (string * nat) :=
  match fuel with
  | O => None
  | S fuel' =>
      let id := candidate_id counter in
      if bool_decide (id ∈ ids) then makeUniqueId_loop fuel' ids (S counter)
      else Some (id, S counter)
  end.

(** [makeUniqueId()]; one round more than the set has elements is always
    enough ([makeUniqueId_loop_returns]). *)
Definition makeUniqueId (st : import_state) : option (string * import_state) :=
  match makeUniqueId_loop (S (size (existingIdSet st))) (existingIdSet st) (counter st) with
  | Some (id, counter') =>
      Some (id, {| existingIdSet := existingIdSet st ∪ {[id]};
                   existingKeySet := existingKeySet st;
                   toAdd := toAdd st;
                   skippedInvalid := skippedInvalid st;
                   skippedDuplicates := skippedDuplicates st;
                   counter := counter' |})
  | None => None
  end.

Definition raw_store (raw : value) : value :=
  opt_member raw "store" ?? opt_member raw "Store" ?? opt_member raw "STORE".

Definition raw_name (raw : value) : value :=
  opt_member raw "item" ?? opt_member raw "name" ?? opt_member raw "Item"
    ?? opt_member raw "ITEM".

Definition raw_price (raw : value) : value :=
  opt_member raw "price" ?? opt_member raw "Price" ?? opt_member raw "PRICE".

(** [raw?.id != null ? String(raw.id) : ''] *)
Definition raw_id (raw : value) : string :=
  if nullish (opt_member raw "id") then "" else ToString (opt_member raw "id").

(** [let price = Number(priceRaw); if (!isFinite(price)) price = 0;] *)
Definition parse_price (priceRaw : value) : number :=
  let price := ToNumber priceRaw in
  if isFinite price then price else Fin 0.

Definition skip_invalid (st : import_state) : import_state :=
  {| existingIdSet := existingIdSet st;
     existingKeySet := existingKeySet st;
     toAdd := toAdd st;
     skippedInvalid := S (skippedInvalid st);
     skippedDuplicates := skippedDuplicates st;
     counter := counter st |}.

Definition skip_duplicate (st : import_state) : import_state :=
  {| existingIdSet := existingIdSet st;
     existingKeySet := existingKeySet st;
     toAdd := toAdd st;
     skippedInvalid := skippedInvalid st;
     skippedDuplicates := S (skippedDuplicates st);
     counter := counter st |}.

(** One round of [for (const raw of data)]; [None] only if
    [makeUniqueId] ran out of rounds. *)
Definition import_record (st : import_state) (raw : value) : option import_state :=
  let store := raw_store raw in
  let name := raw_name raw in
  let priceRaw := raw_price raw in
  if negb (truthy store) || negb (truthy name) then Some (skip_invalid st)
  else
    let item := trim (ToString name) in
    let storeStr := trim (ToString store) in
    let price := parse_price priceRaw in
    let key := toLowerCase storeStr +:+ "|" +:+ toLowerCase item in
    if bool_decide (key ∈ existingKeySet st) then Some (skip_duplicate st)
    else if existsb (fun x => String.eqb (batch_key x) key) (toAdd st)
         then Some (skip_duplicate st)
    else
      let id := raw_id raw in
      match (if is_empty id || bool_decide (id ∈ existingIdSet st)
             then makeUniqueId st
             else Some (id, {| existingIdSet := existingIdSet st ∪ {[id]};
                               existingKeySet := existingKeySet st;
                               toAdd := toAdd st;
                               skippedInvalid := skippedInvalid st;
                               skippedDuplicates := skippedDuplicates st;
                               counter := counter st |})) with
      | Some (id, st') =>
          Some {| existingIdSet := existingIdSet st';
                  existingKeySet := existingKeySet st' ∪ {[key]};
                  toAdd := toAdd st' ++
                    [{| id := id; store := storeStr; item := item; price := price |}];
                  skippedInvalid := skippedInvalid st';
                  skippedDuplicates := skippedDuplicates st';
                  counter := counter st' |}
      | None => None
      end.

Fixpoint import_loop (st : import_state) (data : list value) : option import_state :=
  match data with
  | [] => Some st
  | raw :: rest =>
      match import_record st raw with
      | Some st' => import_loop st' rest
      | None => None
      end
  end.

(** What [handleImportFile] makes of the application once the file is read
    and parsed to [data]: the outcome of the loop, with its counts, and the
    catalog in memory.  The write of the catalog to the store
    ([itemsStore.set]), the rendering and the messages that follow the loop
    are not part of it. *)
Inductive import_result :=
| NotAnArray
| NothingImported (skippedInvalid skippedDuplicates : nat)
| Imported (added skippedDuplicates skippedInvalid : nat).

Definition handleImportFile (data : value) (app : t) : option (import_result * t) :=
  match data with
  | VArr records =>
      match import_loop (initial_state (groceryItems app)) records with
      | Some st =>
          if (length (toAdd st) =? 0)%nat
          then Some (NothingImported (skippedInvalid st) (skippedDuplicates st), app)
          else Some (Imported (length (toAdd st)) (skippedDuplicates st) (skippedInvalid st),
                     {| groceryItems := groceryItems app ++ toAdd st;
                        shoppingSet := shoppingSet app;
                        uncheckedSet := uncheckedSet app |})
      | None => None
      end
  | _ => Some (NotAnArray, app)
  end.

(** *** The loop, record by record: the terms of its properties *)

Definition record_valid (raw : value) : bool :=
  truthy (raw_store raw) && truthy (raw_name raw).

Definition record_store (raw : value) : string := trim (ToString (raw_store raw)).

Definition record_item (raw : value) : string := trim (ToString (raw_name raw)).

(** The deduplication key of a record: lowercase(trim(store)) + "|" +
    lowercase(trim(item)). *)
Definition record_key (raw : value) : string :=
  toLowerCase (record_store raw) +:+ "|" +:+ toLowerCase (record_item raw).

(** The item a record is stored as, under the id it is given. *)
Definition accepted_item (raw : value) (i : string) : Item :=
  {| id := i; store := record_store raw; item := record_item raw;
     price := parse_price (raw_price raw) |}.

(** The loop variables after a record was accepted under id [i]. *)
Definition accept (st : import_state) (raw : value) (i : string) (counter' : nat)
  : import_state :=
  {| existingIdSet := existingIdSet st ∪ {[i]};
     existingKeySet := existingKeySet st ∪ {[record_key raw]};
     toAdd := toAdd st ++ [accepted_item raw i];
     skippedInvalid := skippedInvalid st;
     skippedDuplicates := skippedDuplicates st;
     counter := counter' |}.

(** The two sets hold the keys and the ids of the catalog and of the
    batch so far; the batch holds trimmed fields, and its keys and ids are
    new and pairwise different. *)
Record import_inv (existing : list Item) (st : import_state) : Prop := {
  inv_keys : forall k,
    k ∈ existingKeySet st <-> k ∈ item_key <$> existing \/ k ∈ item_key <$> toAdd st;
  inv_ids : forall i,
    i ∈ existingIdSet st <-> i ∈ id <$> existing \/ i ∈ id <$> toAdd st;
  inv_trimmed : forall x, x ∈ toAdd st -> batch_key x = item_key x;
  inv_new_keys : NoDup (item_key <$> toAdd st);
  inv_new_keys_apart : forall k, k ∈ item_key <$> toAdd st -> k ∉ item_key <$> existing;
  inv_new_ids : NoDup (id <$> toAdd st);
  inv_new_ids_apart : forall i, i ∈ id <$> toAdd st -> i ∉ id <$> existing
}.

End Merger.
End GroceryApp.

(** ** A reference engine and two reference browsers

    They run the examples and show that the assumptions of the theorems can
    be met.  The engine reads natural numbers and prints numbers in decimal
    notation; its [JSON] writes the texts of [JSON.stringify] (numbers in decimal
    notation, without an exponent, to sixteen places at most) and reads JSON
    texts whose numbers have no exponent and whose escapes stay below
    U+0100. *)

Module Reference.
Import JsString.

Definition to_number (s : string) : number :=
  match NilEmpty.uint_of_string s with
  | Some d => Fin (inject_Z (Z.of_N (N.of_uint d)))
  | None => NaN
  end.

(** *** JSON texts *)

(** The digit of a number below ten, and back. *)
Definition digit_char (d : Z) : ascii := ascii_of_nat (48 + Z.to_nat d).
Definition digit_value (c : ascii) : Z := Z.of_nat (nat_of_ascii c - 48).

(** The [k] digits of [m], which is below 10^k. *)
Fixpoint fraction_text (k : nat) (m : Z) : string :=
  match k with
  | O => ""
  | S k' => String (digit_char (m / 10 ^ Z.of_nat k'))
                   (fraction_text k' (m mod 10 ^ Z.of_nat k'))
  end.

(** The digits at the head of a text: their number, how many they are, and
    the rest. *)
Fixpoint read_digits (s : string) (acc : Z) (count : nat) : Z * nat * string :=
  match s with
  | String c r =>
      if is_digit c then read_digits r (acc * 10 + digit_value c) (S count)
      else (acc, count, s)
  | EmptyString => (acc, count, s)
  end.

(** The least number of decimal places, from [k] on. *)
Fixpoint places_from (fuel k : nat) (d : Z) : nat :=
  match fuel with
  | O => k
  | S fuel' =>
      if (10 ^ Z.of_nat k mod d =? 0)%Z then k else places_from fuel' (S k) d
  end.

Definition places (d : positive) : nat := places_from (Pos.size_nat d) 0 (Zpos d).

(** The text of [m / 10^k]. *)
Definition unsigned_text (m : Z) (k : nat) : string :=
  decimal (Z.to_N (m / 10 ^ Z.of_nat k))
  +:+ match k with
      | O => ""
      | S _ => "." +:+ fraction_text k (m mod 10 ^ Z.of_nat k)
      end.

(** The text of a decimal fraction in lowest terms: its sign, its integer
    part and the digits after the point, as many as it takes. *)
Definition number_text (q : Q) : string :=
  let k := places (Qden q) in
  let m := (Z.abs (Qnum q) * (10 ^ Z.of_nat k / Zpos (Qden q)))%Z in
  if (Qnum q <? 0)%Z then "-" +:+ unsigned_text m k else unsigned_text m k.

(** The digits at the head of a text, and the rest. *)
Fixpoint span_digits (s : string) : string * string :=
  match s with
  | String c r =>
      if is_digit c then let (d, rest) := span_digits r in (String c d, rest)
      else ("", s)
  | EmptyString => ("", "")
  end.

(** A natural number in decimal digits, without a leading zero. *)
Definition read_natural (s : string) : option (Z * string) :=
  let (d, rest) := span_digits s in
  match NilEmpty.uint_of_string d with
  | Some u =>
      let n := N.of_uint u in
      if String.eqb (decimal n) d then Some (Z.of_N n, rest) else None
  | None => None
  end.

(** The fraction after a natural number, if any: its digits as a number,
    and how many they are. *)
Definition read_fraction (s : string) : option (Z * nat * string) :=
  match s with
  | String c r =>
      if Ascii.eqb c "."
      then let '(fp, k, rest) := read_digits r 0 0 in
           match k with O => None | S _ => Some (fp, k, rest) end
      else Some (0%Z, 0%nat, s)
  | EmptyString => Some (0%Z, 0%nat, s)
  end.

(** [m] and [k] of a text of [m / 10^k]. *)
Definition read_unsigned (s : string) : option (Z * nat * string) :=
  match read_natural s with
  | Some (ip, s2) =>
      match read_fraction s2 with
      | Some (fp, k, rest) => Some ((ip * 10 ^ Z.of_nat k + fp)%Z, k, rest)
      | None => None
      end
  | None => None
  end.

(** A JSON number without an exponent. *)
Definition read_number (s : string) : option (Q * string) :=
  match s with
  | String c r =>
      if Ascii.eqb c "-"
      then match read_unsigned r with
           | Some (m, k, rest) => Some (Qred (- m # Z.to_pos (10 ^ Z.of_nat k)), rest)
           | None => None
           end
      else match read_unsigned s with
           | Some (m, k, rest) => Some (Qred (m # Z.to_pos (10 ^ Z.of_nat k)), rest)
           | None => None
           end
  | EmptyString => None
  end.

(** What may follow a value in a JSON text. *)
Definition delimited (rest : string) : bool :=
  match rest with
  | String c _ => Ascii.eqb c "," || Ascii.eqb c "]" || Ascii.eqb c "}"
  | EmptyString => true
  end.

(** The double quote and the reverse solidus. *)
Definition quote : ascii := ascii_of_nat 34.
Definition backslash : ascii := ascii_of_nat 92.

(** A hexadecimal digit, and its value. *)
Definition hex_char (n : nat) : ascii :=
  if (n <? 10)%nat then ascii_of_nat (48 + n) else ascii_of_nat (87 + n).

Definition hex_value (c : ascii) : option nat :=
  let n := nat_of_ascii c in
  if ((48 <=? n) && (n <=? 57))%nat then Some (n - 48)%nat
  else if ((97 <=? n) && (n <=? 102))%nat then Some (n - 87)%nat
  else if ((65 <=? n) && (n <=? 70))%nat then Some (n - 55)%nat
  else None.

(** [JSON.stringify] on a code unit of a string. *)
Definition escape_char (c : ascii) : string :=
  let n := nat_of_ascii c in
  if (n =? 34)%nat then String backslash (String quote "")
  else if (n =? 92)%nat then String backslash (String backslash "")
  else if (n =? 8)%nat then String backslash "b"
  else if (n =? 12)%nat then String backslash "f"
  else if (n =? 10)%nat then String backslash "n"
  else if (n =? 13)%nat then String backslash "r"
  else if (n =? 9)%nat then String backslash "t"
  else if (n <? 32)%nat
       then String backslash
              (String "u" (String "0" (String "0"
                 (String (hex_char (n / 16)) (String (hex_char (n mod 16)) "")))))
  else String c "".

Fixpoint escape (s : string) : string :=
  match s with
  | EmptyString => ""
  | String c r => escape_char c +:+ escape r
  end.

(** [JSON.stringify] on a string. *)
Definition quoted_text (s : string) : string :=
  String quote (escape s +:+ String quote "").

(** The character an escape of one letter stands for. *)
Definition unescape (e : ascii) : option ascii :=
  let n := nat_of_ascii e in
  if (n =? 34)%nat then Some quote
  else if (n =? 92)%nat then Some backslash
  else if (n =? 47)%nat then Some "/"%char
  else if (n =? 98)%nat then Some (ascii_of_nat 8)
  else if (n =? 102)%nat then Some (ascii_of_nat 12)
  else if (n =? 110)%nat then Some (ascii_of_nat 10)
  else if (n =? 114)%nat then Some (ascii_of_nat 13)
  else if (n =? 116)%nat then Some (ascii_of_nat 9)
  else None.

(** The code unit of four hexadecimal digits, when it is below 256. *)
Definition hex4 (a b c d : ascii) : option ascii :=
  match hex_value a, hex_value b, hex_value c, hex_value d with
  | Some x, Some y, Some z, Some t =>
      let n := (((x * 16 + y) * 16 + z) * 16 + t)%nat in
      if (n <? 256)%nat then Some (ascii_of_nat n) else None
  | _, _, _, _ => None
  end.

(** The characters of a string, after its opening quote, up to its closing
    quote. *)
Fixpoint parse_chars (s : string) : option (string * string) :=
  match s with
  | EmptyString => None
  | String c r =>
      if Ascii.eqb c quote then Some ("", r)
      else if Ascii.eqb c backslash then
        match r with
        | String e r1 =>
            if Ascii.eqb e "u" then
              match r1 with
              | String a (String b (String c2 (String d r2))) =>
                  match hex4 a b c2 d, parse_chars r2 with
                  | Some ch, Some (str, rest) => Some (String ch str, rest)
                  | _, _ => None
                  end
              | _ => None
              end
            else
              match unescape e, parse_chars r1 with
              | Some ch, Some (str, rest) => Some (String ch str, rest)
              | _, _ => None
              end
        | EmptyString => None
        end
      else if (nat_of_ascii c <? 32)%nat then None
      else match parse_chars r with
           | Some (str, rest) => Some (String c str, rest)
           | None => None
           end
  end.

(** The white space of JSON: space, tab, line feed, carriage return. *)
Definition is_ws (c : ascii) : bool :=
  let n := nat_of_ascii c in
  ((n =? 32) || (n =? 9) || (n =? 10) || (n =? 13))%nat.

Fixpoint skip_ws (s : string) : string :=
  match s with
  | String c r => if is_ws c then skip_ws r else s
  | EmptyString => s
  end.

(** The rest of a text that begins with a word. *)
Fixpoint strip (word s : string) : option string :=
  match word with
  | EmptyString => Some s
  | String c w =>
      match s with
      | String c' r => if Ascii.eqb c c' then strip w r else None
      | EmptyString => None
      end
  end.

(** The elements of an array and the members of an object, separated by
    commas; a member that is [undefined] is left out. *)
Section Texts.
Variable text : value -> string.

Fixpoint elements_text (l : list value) (first : bool) : string :=
  match l with
  | [] => ""
  | x :: rest =>
      (if first then "" else ",") +:+ text x +:+ elements_text rest false
  end.

Fixpoint members_text (f : list (string * value)) (first : bool) : string :=
  match f with
  | [] => ""
  | (k, x) :: rest =>
      match x with
      | VUndefined => members_text rest first
      | _ => (if first then "" else ",") +:+ quoted_text k +:+ ":" +:+ text x
             +:+ members_text rest false
      end
  end.

End Texts.

(** A number with at most sixteen decimal places. *)
Definition rounded (q : Q) : Q :=
  Qred (Qfloor (q * inject_Z (10 ^ 16)) # Z.to_pos (10 ^ 16)).

(** The decimal text of a finite number: exact for a decimal fraction, to
    sixteen places for another number. *)
Definition finite_text (q : Q) : string :=
  let r := Qred q in
  if decimal_fraction (Qden r) then number_text r else number_text (rounded r).

(** Number::toString, without the exponents of the large and the small
    numbers. *)
Definition to_string (n : number) : string :=
  match n with
  | NaN => "NaN"
  | PosInf => "Infinity"
  | NegInf => "-Infinity"
  | Fin q => finite_text q
  end.

(** [JSON.stringify]; [undefined], as an element of an array, and the
    numbers that are not finite are written [null]. *)
Fixpoint stringify (v : value) : string :=
  match v with
  | VUndefined | VNull => "null"
  | VBool true => "true"
  | VBool false => "false"
  | VNum (Fin q) => finite_text q
  | VNum _ => "null"
  | VStr s => quoted_text s
  | VArr l => "[" +:+ elements_text stringify l true +:+ "]"
  | VObj f => "{" +:+ members_text stringify f true +:+ "}"
  end.

(** A value at the head of a text, and the rest of the text; the fuel
    bounds the depth of the recursion, and the length of the text is enough
    ([parse]).  A key that comes twice keeps its first place and its last
    value. *)
Fixpoint parse_value (fuel : nat) (s : string) {struct fuel} : option (value * string) :=
  match fuel with
  | O => None
  | S fuel' =>
      match skip_ws s with
      | EmptyString => None
      | String c r =>
          if Ascii.eqb c quote then
            match parse_chars r with
            | Some (str, rest) => Some (VStr str, rest)
            | None => None
            end
          else if Ascii.eqb c "[" then
            match skip_ws r with
            | String c1 r1 =>
                if Ascii.eqb c1 "]" then Some (VArr [], r1)
                else match parse_elements fuel' (String c1 r1) with
                     | Some (l, rest) => Some (VArr l, rest)
                     | None => None
                     end
            | EmptyString => None
            end
          else if Ascii.eqb c "{" then
            match skip_ws r with
            | String c1 r1 =>
                if Ascii.eqb c1 "}" then Some (VObj [], r1)
                else match parse_members fuel' (String c1 r1) with
                     | Some (f, rest) => Some (VObj (obj_spread [] f), rest)
                     | None => None
                     end
            | EmptyString => None
            end
          else if Ascii.eqb c "n" then
            match strip "ull" r with Some rest => Some (VNull, rest) | None => None end
          else if Ascii.eqb c "t" then
            match strip "rue" r with Some rest => Some (VBool true, rest) | None => None end
          else if Ascii.eqb c "f" then
            match strip "alse" r with Some rest => Some (VBool false, rest) | None => None end
          else
            match read_number (String c r) with
            | Some (q, rest) => Some (VNum (Fin q), rest)
            | None => None
            end
      end
  end
with parse_elements (fuel : nat) (s : string) {struct fuel}
  : option (list value * string) :=
  match fuel with
  | O => None
  | S fuel' =>
      match parse_value fuel' s with
      | Some (x, s1) =>
          match skip_ws s1 with
          | String c r =>
              if Ascii.eqb c "]" then Some ([x], r)
              else if Ascii.eqb c "," then
                match parse_elements fuel' r with
                | Some (l, rest) => Some (x :: l, rest)
                | None => None
                end
              else None
          | EmptyString => None
          end
      | None => None
      end
  end
with parse_members (fuel : nat) (s : string) {struct fuel}
  : option (list (string * value) * string) :=
  match fuel with
  | O => None
  | S fuel' =>
      match skip_ws s with
      | String c r =>
          if Ascii.eqb c quote then
            match parse_chars r with
            | Some (k, s1) =>
                match skip_ws s1 with
                | String c1 r1 =>
                    if Ascii.eqb c1 ":" then
                      match parse_value fuel' r1 with
                      | Some (x, s2) =>
                          match skip_ws s2 with
                          | String c2 r2 =>
                              if Ascii.eqb c2 "}" then Some ([(k, x)], r2)
                              else if Ascii.eqb c2 "," then
                                match parse_members fuel' r2 with
                                | Some (f, rest) => Some ((k, x) :: f, rest)
                                | None => None
                                end
                              else None
                          | EmptyString => None
                          end
                      | None => None
                      end
                    else None
                | EmptyString => None
                end
            | None => None
            end
          else None
      | EmptyString => None
      end
  end.

(** [JSON.parse]: one value, and white space around it. *)
Definition parse (s : string) : option value :=
  match parse_value (S (String.length s)) s with
  | Some (v, rest) => if is_empty (skip_ws rest) then Some v else None
  | None => None
  end.

Lemma to_number_decimal (n : N) : to_number (decimal n) = Fin (inject_Z (Z.of_N n)).
Proof.
  unfold to_number, decimal. rewrite NilEmpty.usu.
  now rewrite DecimalN.Unsigned.of_to.
Qed.

#[export] Instance engine : Engine := {|
  number_to_string := to_string;
  string_to_number := to_number;
  string_to_number_decimal := to_number_decimal;
  JSON_stringify := stringify;
  JSON_parse := parse
|}.

(** A page: no [chrome.storage], a clock that stands still, no failure. *)
Definition page : Browser := {|
  Date_now := fun _ => 1700000000000%N;
  chrome_storage_has := fun _ => false;
  chrome_lastError := fun _ _ _ => None;
  setItem_error := fun _ _ _ => None
|}.

(** An extension: every area of [chrome.storage] is there. *)
Definition extension : Browser := {|
  Date_now := fun _ => 1700000000000%N;
  chrome_storage_has := fun _ => true;
  chrome_lastError := fun _ _ _ => None;
  setItem_error := fun _ _ _ => None
|}.

Definition empty_world : world := {|
  chrome_items := ∅;
  local_items := ∅;
  session_items := ∅;
  dispatched := []
|}.

End Reference.

(** * Properties *)

(** ** Strings *)

Module JsStringFacts.
Import JsString.

Lemma is_empty_true (s : string) : is_empty s = true <-> s = "".
Proof. destruct s; simpl; split; congruence. Qed.

Lemma is_empty_false (s : string) : is_empty s = false <-> s <> "".
Proof. destruct s; simpl; split; congruence. Qed.

Lemma trimEnd_cons_solid (c : ascii) (r : string) :
  is_space c = false -> trimEnd (String c r) = String c (trimEnd r).
Proof. intros Hc. simpl. rewrite Hc. destruct (trimEnd r); reflexivity. Qed.

Lemma trimEnd_idempotent (s : string) : trimEnd (trimEnd s) = trimEnd s.
Proof.
  induction s as [|c r IH]; [reflexivity|].
  simpl. destruct (trimEnd r) as [|c' r'] eqn:Er.
  - destruct (is_space c) eqn:Ec; simpl; [reflexivity|]. now rewrite Ec.
  - change (trimEnd (String c (String c' r')) = String c (String c' r')).
    simpl in IH. simpl. destruct (trimEnd r') as [|c'' r''] eqn:Er'.
    + destruct (is_space c') eqn:Ec'; [discriminate|]. now inversion IH.
    + now inversion IH.
Qed.

(** Nothing is left to trim at the start of [trimStart s]. *)
Lemma trimStart_head (s : string) :
  trimStart s = "" \/ exists c r, trimStart s = String c r /\ is_space c = false.
Proof.
  induction s as [|c r IH]; [now left|].
  simpl. destruct (is_space c) eqn:Ec; [exact IH|]. right. eauto.
Qed.

Lemma trimStart_solid (c : ascii) (r : string) :
  is_space c = false -> trimStart (String c r) = String c r.
Proof. intros Hc. simpl. now rewrite Hc. Qed.

Lemma trimStart_trim (s : string) : trimStart (trim s) = trim s.
Proof.
  unfold trim. destruct (trimStart_head s) as [->|(c & r & -> & Hc)]; [reflexivity|].
  rewrite (trimEnd_cons_solid c r Hc). now apply trimStart_solid.
Qed.

Lemma trim_idempotent (s : string) : trim (trim s) = trim s.
Proof.
  unfold trim at 1. rewrite trimStart_trim. unfold trim. apply trimEnd_idempotent.
Qed.

(** A string that starts with a character that is no space does not trim
    to the empty string. *)
Lemma trim_solid_head (c : ascii) (r : string) :
  is_space c = false -> trim (String c r) <> "".
Proof.
  intros Hc. unfold trim. rewrite (trimStart_solid c r Hc).
  now rewrite (trimEnd_cons_solid c r Hc).
Qed.

Lemma namespace_char_solid (c : ascii) : namespace_char c = true -> is_space c = false.
Proof. destruct c as [[] [] [] [] [] [] [] []]; vm_compute; congruence. Qed.

Example trim_both_ends : trim "  Auchan  " = "Auchan" /\ trim "   " = "" /\ trim "a b" = "a b".
Proof. repeat split; reflexivity. Qed.

Example toLowerCase_mixed : toLowerCase "AuChaN 24|x" = "auchan 24|x".
Proof. reflexivity. Qed.

Example split_dot_paths :
  split_dot "user.preferences.items" = ["user"; "preferences"; "items"]
  /\ split_dot "a" = ["a"] /\ split_dot "a..b" = ["a"; ""; "b"] /\ split_dot "" = [""].
Proof. repeat split; reflexivity. Qed.

Example array_index_names :
  array_index "0" = Some 0 /\ array_index "12" = Some 12
  /\ array_index "01" = None /\ array_index "" = None /\ array_index "length" = None.
Proof. repeat split; reflexivity. Qed.

(** *** Decimal numerals *)

Lemma string_of_uint_digits (d : Decimal.uint) :
  all_chars is_digit (NilEmpty.string_of_uint d) = true.
Proof. induction d; simpl; auto. Qed.

Lemma decimal_digits (n : N) : all_chars is_digit (decimal n) = true.
Proof. apply string_of_uint_digits. Qed.

Lemma decimal_inj (n m : N) : decimal n = decimal m -> n = m.
Proof.
  unfold decimal. intros E. apply DecimalN.Unsigned.to_uint_inj.
  pose proof (NilEmpty.usu (N.to_uint n)) as Hn.
  pose proof (NilEmpty.usu (N.to_uint m)) as Hm.
  rewrite E in Hn. congruence.
Qed.

Lemma array_index_decimal (n : N) : array_index (decimal n) = Some (N.to_nat n).
Proof.
  unfold array_index. unfold decimal at 1. rewrite NilEmpty.usu.
  rewrite DecimalN.Unsigned.of_to. now rewrite String.eqb_refl.
Qed.

Lemma array_index_canonical (s : string) (i : nat) :
  array_index s = Some i -> s = decimal (N.of_nat i).
Proof.
  unfold array_index. destruct (NilEmpty.uint_of_string s) as [d|]; [|discriminate].
  destruct (String.eqb_spec (decimal (N.of_uint d)) s) as [E|]; [|discriminate].
  intros [= <-]. now rewrite N2Nat.id.
Qed.

(** Two texts cut at their first hyphen agree part by part. *)
Lemma app_hyphen_inj (a a' b b' : string) :
  all_chars is_digit a = true -> all_chars is_digit a' = true ->
  a +:+ String "-" b = a' +:+ String "-" b' -> a = a' /\ b = b'.
Proof.
  revert a'. induction a as [|c a IH]; intros [|c' a'] Ha Ha' E; simpl in *.
  - now inversion E.
  - inversion E; subst c'. now apply andb_prop in Ha' as [? _].
  - inversion E; subst c. now apply andb_prop in Ha as [? _].
  - injection E as Ec Erest. subst c'.
    apply andb_prop in Ha as [_ Ha]. apply andb_prop in Ha' as [_ Ha'].
    destruct (IH a' Ha Ha' Erest) as [-> ->]. now split.
Qed.

End JsStringFacts.

(** ** The reference engine meets the assumptions on the engine *)

Module ReferenceFacts.
Import JsString JsStringFacts Reference.

Lemma append_cons (c : ascii) (a b : string) : String c a +:+ b = String c (a +:+ b).
Proof. reflexivity. Qed.

Lemma append_nil (b : string) : "" +:+ b = b.
Proof. reflexivity. Qed.

Lemma append_assoc (a b c : string) : (a +:+ b) +:+ c = a +:+ (b +:+ c).
Proof.
  induction a as [|x a IH]; [reflexivity|]. rewrite !append_cons. now rewrite IH.
Qed.

Lemma digit_char_value (d : Z) :
  (0 <= d < 10)%Z -> is_digit (digit_char d) = true /\ digit_value (digit_char d) = d.
Proof.
  intros Hd. assert (exists n, d = Z.of_nat n /\ n < 10) as (n & -> & Hn).
  { exists (Z.to_nat d). lia. }
  do 10 (destruct n as [|n]; [split; reflexivity|]). lia.
Qed.

(** The rest does not begin with a digit. *)
Definition no_digit_ahead (rest : string) : bool :=
  match rest with
  | String c _ => negb (is_digit c)
  | EmptyString => true
  end.

Lemma read_fraction_text (k : nat) :
  forall (m acc : Z) (count : nat) (rest : string),
    (0 <= m < 10 ^ Z.of_nat k)%Z -> no_digit_ahead rest = true ->
    read_digits (fraction_text k m +:+ rest) acc count
    = ((acc * 10 ^ Z.of_nat k + m)%Z, (count + k)%nat, rest).
Proof.
  induction k as [|k IH]; intros m acc count rest Hm Hrest.
  - rewrite append_nil. change (10 ^ Z.of_nat 0)%Z with 1%Z in *.
    replace m with 0%Z by lia.
    rewrite Z.mul_1_r, Z.add_0_r, Nat.add_0_r.
    destruct rest as [|c r]; [reflexivity|]. simpl in *.
    now destruct (is_digit c).
  - assert (0 < 10 ^ Z.of_nat k)%Z as Hpow by (apply Z.pow_pos_nonneg; lia).
    assert (10 ^ Z.of_nat (S k) = 10 * 10 ^ Z.of_nat k)%Z as Hs.
    { rewrite Nat2Z.inj_succ, Z.pow_succ_r by lia. reflexivity. }
    assert (0 <= m / 10 ^ Z.of_nat k < 10)%Z as Hd.
    { split; [apply Z.div_pos; lia|]. apply Z.div_lt_upper_bound; lia. }
    destruct (digit_char_value _ Hd) as [Hdig Hval].
    cbn [fraction_text]. rewrite append_cons. cbn [read_digits]. rewrite Hdig, Hval.
    rewrite IH; [|apply Z.mod_pos_bound; lia|assumption].
    f_equal. f_equal; [|lia].
    rewrite Hs. pose proof (Z.div_mod m (10 ^ Z.of_nat k)). lia.
Qed.

Lemma delimited_no_digit (rest : string) : delimited rest = true -> no_digit_ahead rest = true.
Proof.
  destruct rest as [|c r]; [reflexivity|]. simpl.
  destruct (Ascii.eqb_spec c ","); [now subst|].
  destruct (Ascii.eqb_spec c "]"); [now subst|].
  destruct (Ascii.eqb_spec c "}"); [now subst|discriminate].
Qed.

Lemma span_digits_app (d rest : string) :
  all_chars is_digit d = true -> no_digit_ahead rest = true ->
  span_digits (d +:+ rest) = (d, rest).
Proof.
  induction d as [|c d IH]; intros Hd Hrest.
  - rewrite append_nil. destruct rest as [|c r]; [reflexivity|]. simpl in *.
    now destruct (is_digit c).
  - simpl in Hd. apply andb_prop in Hd as [Hc Hd].
    rewrite append_cons. simpl. now rewrite Hc, IH.
Qed.

Lemma decimal_head (n : N) :
  exists c r, decimal n = String c r /\ is_digit c = true.
Proof.
  pose proof (decimal_digits n) as Hd.
  destruct (decimal n) as [|c r] eqn:E.
  - exfalso. pose proof (array_index_decimal n) as Hi. unfold array_index in Hi.
    rewrite E in Hi. simpl in Hi. discriminate.
  - simpl in Hd. apply andb_prop in Hd as [Hc _]. now exists c, r.
Qed.

Lemma read_natural_decimal (n : N) (rest : string) :
  no_digit_ahead rest = true ->
  read_natural (decimal n +:+ rest) = Some (Z.of_N n, rest).
Proof.
  intros Hrest. unfold read_natural.
  rewrite span_digits_app by (auto using decimal_digits).
  unfold decimal at 1. rewrite NilEmpty.usu, DecimalN.Unsigned.of_to.
  now rewrite String.eqb_refl.
Qed.

Lemma places_from_divides (d : Z) (fuel : nat) :
  forall k, (10 ^ Z.of_nat (k + fuel) mod d = 0)%Z ->
            (10 ^ Z.of_nat (places_from fuel k d) mod d = 0)%Z.
Proof.
  induction fuel as [|fuel IH]; intros k Hk; simpl.
  - now rewrite Nat.add_0_r in Hk.
  - destruct (Z.eqb_spec (10 ^ Z.of_nat k mod d) 0) as [E|_]; [exact E|].
    apply IH. now replace (S k + fuel)%nat with (k + S fuel)%nat by lia.
Qed.

Lemma places_divides (d : positive) :
  decimal_fraction d = true -> (10 ^ Z.of_nat (places d) mod Zpos d = 0)%Z.
Proof.
  unfold decimal_fraction, places. intros Hd. apply Z.eqb_eq in Hd.
  now apply places_from_divides.
Qed.

Lemma json_number_canonical (q : Q) :
  json_number (Fin q) = true -> Qred q = q /\ decimal_fraction (Qden q) = true.
Proof.
  simpl. intros H. apply andb_prop in H as [H Hd]. apply andb_prop in H as [Hn Hp].
  apply Z.eqb_eq in Hn. apply Pos.eqb_eq in Hp. split; [|assumption].
  destruct q as [n d], (Qred (n # d)) as [n' d']. simpl in *. now subst.
Qed.

Lemma delimited_no_dot (rest : string) :
  delimited rest = true -> read_fraction rest = Some (0%Z, 0%nat, rest).
Proof.
  destruct rest as [|c r]; [reflexivity|]. simpl.
  destruct (Ascii.eqb_spec c "."); [now subst|reflexivity].
Qed.

Lemma read_unsigned_text (m : Z) (k : nat) (rest : string) :
  (0 <= m)%Z -> delimited rest = true ->
  read_unsigned (unsigned_text m k +:+ rest) = Some (m, k, rest).
Proof.
  intros Hm Hrest. unfold read_unsigned, unsigned_text.
  assert (0 < 10 ^ Z.of_nat k)%Z as Hp by (apply Z.pow_pos_nonneg; lia).
  assert (0 <= m / 10 ^ Z.of_nat k)%Z as Hip by (apply Z.div_pos; lia).
  pose proof (Z.mod_pos_bound m _ Hp) as Hfp.
  pose proof (Z.div_mod m (10 ^ Z.of_nat k) ltac:(lia)) as Hsplit.
  rewrite append_assoc, read_natural_decimal.
  2:{ destruct k; [now apply delimited_no_digit|reflexivity]. }
  rewrite Z2N.id by assumption.
  destruct k as [|k'].
  - rewrite append_nil, delimited_no_dot by assumption.
    do 3 f_equal. change (10 ^ Z.of_nat 0)%Z with 1%Z. rewrite Z.div_1_r. lia.
  - rewrite !append_cons, append_nil. unfold read_fraction. rewrite Ascii.eqb_refl.
    rewrite read_fraction_text by (try assumption; now apply delimited_no_digit).
    do 3 f_equal. rewrite Z.mul_0_l, Z.add_0_l, (Z.mul_comm (m / _)). now symmetry.
Qed.

Lemma read_number_text (q : Q) (rest : string) :
  json_number (Fin q) = true -> delimited rest = true ->
  read_number (number_text q +:+ rest) = Some (q, rest).
Proof.
  intros Hq Hrest. destruct (json_number_canonical q Hq) as [Hred Hdec].
  pose proof (places_divides _ Hdec) as Hdiv.
  unfold number_text.
  set (k := places (Qden q)) in *.
  set (p := (10 ^ Z.of_nat k)%Z) in *.
  set (m := (Z.abs (Qnum q) * (p / Zpos (Qden q)))%Z).
  assert (0 < p)%Z as Hp by (apply Z.pow_pos_nonneg; lia).
  assert (p = Zpos (Qden q) * (p / Zpos (Qden q)))%Z as Hexact.
  { pose proof (Z.div_mod p (Zpos (Qden q))). lia. }
  assert (0 <= p / Zpos (Qden q))%Z as Hquot by (apply Z.div_pos; lia).
  assert (0 <= m)%Z as Hm by (unfold m; apply Z.mul_nonneg_nonneg; lia).
  destruct (Z.ltb_spec (Qnum q) 0) as [Hneg|Hpos].
  - rewrite append_assoc, append_cons, append_nil. cbn [read_number].
    rewrite Ascii.eqb_refl, read_unsigned_text by assumption.
    f_equal. f_equal. transitivity (Qred q); [|exact Hred]. apply Qred_complete.
    unfold Qeq. simpl. fold p. rewrite Z2Pos.id by assumption. unfold m. nia.
  - destruct (decimal_head (Z.to_N (m / p))) as (c & r & Ehead & Hc).
    assert (Ascii.eqb c "-" = false) as Hminus.
    { destruct (Ascii.eqb_spec c "-"); [subst; discriminate|reflexivity]. }
    pose proof (read_unsigned_text m k rest Hm Hrest) as Hread.
    unfold unsigned_text in *. fold p in Hread |- *. rewrite Ehead in Hread |- *.
    rewrite !append_cons in Hread |- *. cbn [read_number]. rewrite Hminus, Hread.
    f_equal. f_equal. transitivity (Qred q); [|exact Hred]. apply Qred_complete.
    unfold Qeq. simpl. fold p. rewrite Z2Pos.id by assumption. unfold m. nia.
Qed.

Lemma parse_chars_escape_char (c : ascii) (r : string) :
  parse_chars (escape_char c +:+ r)
  = match parse_chars r with
    | Some (str, rest) => Some (String c str, rest)
    | None => None
    end.
Proof.
  destruct c as [[] [] [] [] [] [] [] []]; reflexivity.
Qed.

Lemma parse_chars_escape (s rest : string) :
  parse_chars (escape s +:+ String quote rest) = Some (s, rest).
Proof.
  induction s as [|c s IH]; [reflexivity|].
  cbn [escape]. now rewrite append_assoc, parse_chars_escape_char, IH.
Qed.

Lemma parse_chars_quoted (s rest : string) :
  parse_chars (escape s +:+ String quote "" +:+ rest) = Some (s, rest).
Proof. rewrite append_cons, append_nil. apply parse_chars_escape. Qed.

(** The fuel that reading a value back takes. *)
Fixpoint weight (v : value) : nat :=
  match v with
  | VArr l => S (list_sum (map (fun x => S (weight x)) l))
  | VObj f => S (list_sum (map (fun kv => let '(_, x) := kv in S (weight x)) f))
  | _ => 1
  end.

(** Induction on a value through the elements of its arrays and the
    members of its objects. *)
Lemma value_nested_ind (P : value -> Prop) :
  P VUndefined -> P VNull -> (forall b, P (VBool b)) -> (forall n, P (VNum n)) ->
  (forall s, P (VStr s)) ->
  (forall l, Forall P l -> P (VArr l)) ->
  (forall f, Forall (fun kv => P (snd kv)) f -> P (VObj f)) ->
  forall v, P v.
Proof.
  intros Hu Hn Hb Hnum Hs Ha Ho. fix IH 1.
  intros [| |b|n|s|l|f]; [exact Hu|exact Hn|apply Hb|apply Hnum|apply Hs| |].
  - apply Ha. revert l. fix IHl 1. intros [|x l]; constructor; [apply IH|apply IHl].
  - apply Ho. revert f. fix IHf 1. intros [|[k x] f]; constructor; [apply IH|apply IHf].
Qed.

(** A text that begins with a character that is no white space and closes
    no container. *)
Definition solid (s : string) : Prop :=
  exists c r, s = String c r /\ is_ws c = false
              /\ Ascii.eqb c "]" = false /\ Ascii.eqb c "}" = false.

Lemma solid_app (s rest : string) : solid s -> solid (s +:+ rest).
Proof. intros (c & r & -> & H). exists c, (r +:+ rest). now rewrite append_cons. Qed.

Lemma solid_skip (s : string) : solid s -> skip_ws s = s.
Proof. intros (c & r & -> & Hw & _). simpl. now rewrite Hw. Qed.

Lemma digit_solid (c : ascii) (r : string) : is_digit c = true -> solid (String c r).
Proof.
  intros Hc. exists c, r. split; [reflexivity|]. repeat split.
  - unfold is_digit, code in Hc. apply andb_prop in Hc as [H1 H2].
    apply Nat.leb_le in H1, H2.
    unfold is_ws. repeat (apply orb_false_intro); apply Nat.eqb_neq; lia.
  - destruct (Ascii.eqb_spec c "]"); [subst; discriminate Hc|reflexivity].
  - destruct (Ascii.eqb_spec c "}"); [subst; discriminate Hc|reflexivity].
Qed.

Lemma unsigned_text_solid (m : Z) (k : nat) : solid (unsigned_text m k).
Proof.
  unfold unsigned_text. destruct (decimal_head (Z.to_N (m / 10 ^ Z.of_nat k))) as (c & r & -> & Hc).
  apply solid_app. now apply digit_solid.
Qed.

Lemma number_text_solid (q : Q) : solid (number_text q).
Proof.
  unfold number_text. destruct (Qnum q <? 0)%Z; [|apply unsigned_text_solid].
  eexists _, _. rewrite append_cons, append_nil. split; [reflexivity|]. now repeat split.
Qed.

Lemma stringify_solid (v : value) : solid (stringify v).
Proof.
  destruct v as [| |[]|[| | |q]|s|l|f]; simpl;
    try (eexists _, _; split; [reflexivity|]; now repeat split).
  unfold finite_text. destruct (decimal_fraction _); apply number_text_solid.
Qed.

Lemma append_nil_r (a : string) : a +:+ "" = a.
Proof. induction a as [|c a IH]; [reflexivity|]. now rewrite append_cons, IH. Qed.

Lemma length_append (a b : string) :
  String.length (a +:+ b) = (String.length a + String.length b)%nat.
Proof. induction a as [|c a IH]; [reflexivity|]. rewrite append_cons. simpl. now rewrite IH. Qed.

Lemma obj_set_fresh (k : string) (v : value) (f : list (string * value)) :
  k ∉ f.*1 -> obj_set k v f = (f ++ [(k, v)])%list.
Proof.
  induction f as [|[k' v'] f IH]; intros Hk; [reflexivity|].
  simpl in *. apply not_elem_of_cons in Hk as [Hne Hk].
  rewrite (proj2 (String.eqb_neq k' k)) by congruence. now rewrite IH.
Qed.

Lemma obj_spread_fresh (f : list (string * value)) :
  forall acc, NoDup (acc ++ f)%list.*1 -> obj_spread acc f = (acc ++ f)%list.
Proof.
  unfold obj_spread. induction f as [|[k v] f IH]; intros acc Hnd; simpl.
  - now rewrite app_nil_r.
  - rewrite obj_set_fresh.
    + rewrite IH; rewrite <- app_assoc; [reflexivity|exact Hnd].
    + rewrite fmap_app in Hnd. apply NoDup_app in Hnd as (_ & Hdis & _).
      intros Hin. apply (Hdis k Hin). simpl. apply list_elem_of_here.
Qed.

Lemma parse_value_S (fuel : nat) (s : string) (c : ascii) (r : string) :
  skip_ws s = String c r ->
  parse_value (S fuel) s
  = if Ascii.eqb c quote then
      match parse_chars r with
      | Some (str, rest) => Some (VStr str, rest)
      | None => None
      end
    else if Ascii.eqb c "[" then
      match skip_ws r with
      | String c1 r1 =>
          if Ascii.eqb c1 "]" then Some (VArr [], r1)
          else match parse_elements fuel (String c1 r1) with
               | Some (l, rest) => Some (VArr l, rest)
               | None => None
               end
      | EmptyString => None
      end
    else if Ascii.eqb c "{" then
      match skip_ws r with
      | String c1 r1 =>
          if Ascii.eqb c1 "}" then Some (VObj [], r1)
          else match parse_members fuel (String c1 r1) with
               | Some (f, rest) => Some (VObj (obj_spread [] f), rest)
               | None => None
               end
      | EmptyString => None
      end
    else if Ascii.eqb c "n" then
      match strip "ull" r with Some rest => Some (VNull, rest) | None => None end
    else if Ascii.eqb c "t" then
      match strip "rue" r with Some rest => Some (VBool true, rest) | None => None end
    else if Ascii.eqb c "f" then
      match strip "alse" r with Some rest => Some (VBool false, rest) | None => None end
    else
      match read_number (String c r) with
      | Some (q, rest) => Some (VNum (Fin q), rest)
      | None => None
      end.
Proof. intros E. cbn [parse_value]. now rewrite E. Qed.

Lemma parse_elements_S (fuel : nat) (s : string) :
  parse_elements (S fuel) s
  = match parse_value fuel s with
    | Some (x, s1) =>
        match skip_ws s1 with
        | String c r =>
            if Ascii.eqb c "]" then Some ([x], r)
            else if Ascii.eqb c "," then
              match parse_elements fuel r with
              | Some (l, rest) => Some (x :: l, rest)
              | None => None
              end
            else None
        | EmptyString => None
        end
    | None => None
    end.
Proof. reflexivity. Qed.

Lemma parse_members_S (fuel : nat) (k : string) (s : string) :
  parse_members (S fuel) (quoted_text k +:+ s)
  = match skip_ws s with
    | String c1 r1 =>
        if Ascii.eqb c1 ":" then
          match parse_value fuel r1 with
          | Some (x, s2) =>
              match skip_ws s2 with
              | String c2 r2 =>
                  if Ascii.eqb c2 "}" then Some ([(k, x)], r2)
                  else if Ascii.eqb c2 "," then
                    match parse_members fuel r2 with
                    | Some (f, rest) => Some ((k, x) :: f, rest)
                    | None => None
                    end
                  else None
              | EmptyString => None
              end
          | None => None
          end
        else None
    | EmptyString => None
    end.
Proof.
  unfold quoted_text. rewrite append_cons, append_assoc, append_cons, append_nil.
  cbn [parse_members skip_ws]. change (is_ws quote) with false. cbv iota.
  change (Ascii.eqb quote quote) with true. cbv iota.
  now rewrite parse_chars_escape.
Qed.

Lemma number_text_head (q : Q) :
  exists c r, number_text q = String c r /\ (c = "-"%char \/ is_digit c = true).
Proof.
  unfold number_text. destruct (Qnum q <? 0)%Z.
  - eexists _, _. rewrite append_cons. split; [reflexivity|now left].
  - unfold unsigned_text.
    destruct (decimal_head (Z.to_N (Z.abs (Qnum q) * (10 ^ Z.of_nat (places (Qden q)) / Z.pos (Qden q))
                                   / 10 ^ Z.of_nat (places (Qden q))))) as (c & r & -> & Hc).
    eexists _, _. rewrite append_cons. split; [reflexivity|now right].
Qed.

Lemma parse_number_text (q : Q) (fuel : nat) (rest : string) :
  json_number (Fin q) = true -> delimited rest = true ->
  parse_value (S fuel) (number_text q +:+ rest) = Some (VNum (Fin q), rest).
Proof.
  intros Hq Hrest. pose proof (read_number_text q rest Hq Hrest) as Hread.
  destruct (number_text_head q) as (c & r & E & Hc). rewrite E in *.
  rewrite append_cons in *.
  assert (is_ws c = false /\ Ascii.eqb c quote = false /\ Ascii.eqb c "[" = false
          /\ Ascii.eqb c "{" = false /\ Ascii.eqb c "n" = false
          /\ Ascii.eqb c "t" = false /\ Ascii.eqb c "f" = false)
    as (Hw & H1 & H2 & H3 & H4 & H5 & H6).
  { destruct Hc as [->|Hc]; [now repeat split|].
    repeat split;
      try (match goal with
           | |- Ascii.eqb c ?x = false =>
               destruct (Ascii.eqb_spec c x); [subst; discriminate Hc|reflexivity]
           end).
    unfold is_digit, code in Hc. apply andb_prop in Hc as [Ha Hb].
    apply Nat.leb_le in Ha, Hb.
    unfold is_ws. repeat (apply orb_false_intro); apply Nat.eqb_neq; lia. }
  rewrite (parse_value_S fuel _ c (r +:+ rest)) by (simpl; now rewrite Hw).
  now rewrite H1, H2, H3, H4, H5, H6, Hread.
Qed.

(** What the round trip says of one value. *)
Definition reads_back (v : value) : Prop :=
  json_value v = true ->
  forall (fuel : nat) (rest : string),
    weight v <= fuel -> delimited rest = true ->
    parse_value fuel (stringify v +:+ rest) = Some (v, rest).

Lemma elements_delimited (l : list value) (rest : string) :
  delimited (elements_text stringify l false +:+ "]" +:+ rest) = true.
Proof. destruct l; reflexivity. Qed.

Lemma parse_elements_text (l : list value) :
  Forall reads_back l -> forallb json_value l = true -> l <> [] ->
  forall (fuel : nat) (rest : string),
    list_sum (map (fun x => S (weight x)) l) <= fuel ->
    parse_elements fuel (elements_text stringify l true +:+ "]" +:+ rest)
    = Some (l, rest).
Proof.
  induction l as [|x l IH]; intros Hall Hjson Hne fuel rest Hfuel; [congruence|].
  apply Forall_cons in Hall as [Hx Hall]. simpl in Hjson.
  apply andb_prop in Hjson as [Hjx Hjson]. simpl in Hfuel.
  destruct fuel as [|fuel]; [lia|].
  rewrite parse_elements_S. cbn [elements_text].
  rewrite append_nil, append_assoc.
  rewrite (Hx Hjx) by (try apply elements_delimited; lia).
  set (tail := "]" +:+ rest) in *.
  destruct l as [|y l].
  - cbn [elements_text]. rewrite append_nil. reflexivity.
  - cbn [elements_text] in *. rewrite !append_cons, append_nil.
    cbn [skip_ws]. change (is_ws ",") with false. cbv iota.
    change (Ascii.eqb "," "]") with false. change (Ascii.eqb "," ",") with true.
    cbv iota.
    specialize (IH Hall Hjson ltac:(discriminate) fuel rest ltac:(simpl in *; lia)).
    rewrite append_nil in IH. subst tail. now rewrite IH.
Qed.

Lemma members_text_cons (k : string) (x : value) (f : list (string * value)) (first : bool) :
  x <> VUndefined ->
  members_text stringify ((k, x) :: f) first
  = (if first then "" else ",") +:+ quoted_text k +:+ ":" +:+ stringify x
    +:+ members_text stringify f false.
Proof. intros Hx. now destruct x. Qed.

(** The values of the members of an object are JSON values. *)
Fixpoint json_members (f : list (string * value)) : bool :=
  match f with
  | [] => true
  | (_, x) :: rest => json_value x && json_members rest
  end.

Lemma json_value_object (f : list (string * value)) :
  json_value (VObj f) = true ->
  NoDup f.*1 /\ keys_in_order 0 f.*1 = true /\ json_members f = true.
Proof.
  cbn [json_value]. fold json_members. intros H.
  apply andb_prop in H as [H Hm]. apply andb_prop in H as [Hnd Hord].
  apply bool_decide_eq_true in Hnd. auto.
Qed.

Lemma members_delimited (f : list (string * value)) (rest : string) :
  json_members f = true ->
  delimited (members_text stringify f false +:+ "}" +:+ rest) = true.
Proof.
  destruct f as [|[k x] f]; [reflexivity|]. simpl. intros H.
  apply andb_prop in H as [Hx _]. now destruct x.
Qed.

Lemma parse_members_text (f : list (string * value)) :
  Forall (fun kv => reads_back (snd kv)) f -> json_members f = true -> f <> [] ->
  forall (fuel : nat) (rest : string),
    list_sum (map (fun kv => let '(_, x) := kv in S (weight x)) f) <= fuel ->
    parse_members fuel (members_text stringify f true +:+ "}" +:+ rest)
    = Some (f, rest).
Proof.
  induction f as [|[k x] f IH]; intros Hall Hjson Hne fuel rest Hfuel; [congruence|].
  apply Forall_cons in Hall as [Hx Hall]. simpl in Hx, Hjson.
  apply andb_prop in Hjson as [Hjx Hjson]. simpl in Hfuel.
  assert (x <> VUndefined) as Hdef by (intros ->; discriminate).
  destruct fuel as [|fuel]; [lia|].
  rewrite members_text_cons by assumption.
  rewrite append_nil, !append_assoc, parse_members_S.
  rewrite append_cons, append_nil. cbn [skip_ws]. change (is_ws ":") with false.
  cbv iota. change (Ascii.eqb ":" ":") with true. cbv iota.
  rewrite (Hx Hjx) by (try (now apply members_delimited); lia).
  set (tail := "}" +:+ rest) in *.
  destruct f as [|[k' y] f].
  - cbn [members_text]. rewrite append_nil. reflexivity.
  - assert (y <> VUndefined) as Hy.
    { simpl in Hjson. apply andb_prop in Hjson as [Hy _]. intros ->. discriminate. }
    specialize (IH Hall Hjson ltac:(discriminate) fuel rest ltac:(simpl in *; lia)).
    rewrite members_text_cons in IH |- * by assumption. cbv iota in IH |- *.
    rewrite append_nil in IH. fold tail in IH.
    set (body := quoted_text k' +:+ ":" +:+ stringify y +:+ members_text stringify f false)
      in *.
    rewrite append_assoc, append_cons, append_nil.
    cbn [skip_ws]. change (is_ws ",") with false. cbv iota.
    change (Ascii.eqb "," "}") with false. change (Ascii.eqb "," ",") with true.
    cbv iota. now rewrite IH.
Qed.

Lemma json_members_forall (f : list (string * value)) :
  json_members f = true -> forallb (fun kv => json_value (snd kv)) f = true.
Proof.
  induction f as [|[k x] f IH]; [reflexivity|]. simpl. intros H.
  apply andb_prop in H as [-> H]. now apply IH.
Qed.

Lemma stringify_string (s rest : string) :
  stringify (VStr s) +:+ rest = String quote (escape s +:+ String quote rest).
Proof. cbn [stringify]. unfold quoted_text. now rewrite append_cons, append_assoc. Qed.

Lemma stringify_array (l : list value) (rest : string) :
  stringify (VArr l) +:+ rest
  = String "[" (elements_text stringify l true +:+ "]" +:+ rest).
Proof. cbn [stringify]. now rewrite !append_assoc. Qed.

Lemma stringify_object (f : list (string * value)) (rest : string) :
  stringify (VObj f) +:+ rest
  = String "{" (members_text stringify f true +:+ "}" +:+ rest).
Proof. cbn [stringify]. now rewrite !append_assoc. Qed.

(** Every JSON value is read back from its text, whatever follows it. *)
Theorem parse_stringify (v : value) : reads_back v.
Proof.
  induction v as [| |b|n|s|l IH|f IH] using value_nested_ind;
    intros Hjson fuel rest Hfuel Hrest; simpl in Hfuel.
  - discriminate.
  - destruct fuel as [|fuel]; [lia|]. reflexivity.
  - destruct fuel as [|fuel]; [lia|]. now destruct b.
  - destruct fuel as [|fuel]; [lia|]. destruct n as [| | |q]; try discriminate.
    destruct (json_number_canonical q Hjson) as [Hred Hdec].
    cbn [stringify]. unfold finite_text. rewrite Hred, Hdec.
    now apply parse_number_text.
  - destruct fuel as [|fuel]; [lia|]. rewrite stringify_string.
    rewrite (parse_value_S fuel _ quote (escape s +:+ String quote rest)) by reflexivity.
    change (Ascii.eqb quote quote) with true. cbv iota.
    now rewrite parse_chars_escape.
  - destruct fuel as [|fuel]; [lia|]. rewrite stringify_array.
    rewrite (parse_value_S fuel _ "[" (elements_text stringify l true +:+ "]" +:+ rest))
      by reflexivity.
    change (Ascii.eqb "[" quote) with false. change (Ascii.eqb "[" "[") with true.
    cbv iota.
    destruct l as [|x l]; [reflexivity|].
    pose proof (parse_elements_text (x :: l) IH Hjson ltac:(discriminate) fuel rest
                  ltac:(simpl in *; lia)) as Hparse.
    cbn [elements_text] in *. rewrite append_nil in *.
    destruct (stringify_solid x) as (c & r & E & Hws & Hclose & _).
    rewrite E in *. rewrite !append_cons in *.
    cbn [skip_ws]. rewrite Hws, Hclose. now rewrite Hparse.
  - destruct fuel as [|fuel]; [lia|]. rewrite stringify_object.
    apply json_value_object in Hjson as (Hnd & _ & Hjson).
    rewrite (parse_value_S fuel _ "{" (members_text stringify f true +:+ "}" +:+ rest))
      by reflexivity.
    change (Ascii.eqb "{" quote) with false. change (Ascii.eqb "{" "[") with false.
    change (Ascii.eqb "{" "{") with true. cbv iota.
    destruct f as [|[k x] f]; [reflexivity|].
    pose proof (parse_members_text ((k, x) :: f) IH Hjson ltac:(discriminate) fuel rest
                  ltac:(simpl in *; lia)) as Hparse.
    assert (x <> VUndefined) as Hx.
    { simpl in Hjson. apply andb_prop in Hjson as [Hx _]. intros ->. discriminate. }
    rewrite members_text_cons in * by assumption. rewrite append_nil in *.
    unfold quoted_text in *. rewrite !append_cons in *.
    cbn [skip_ws]. change (is_ws quote) with false. cbv iota.
    change (Ascii.eqb quote "}") with false. cbv iota.
    rewrite Hparse. now rewrite obj_spread_fresh.
Qed.

Lemma solid_length (s : string) : solid s -> 1 <= String.length s.
Proof. intros (c & r & -> & _). simpl. lia. Qed.

Lemma elements_length (l : list value) :
  Forall (fun x => weight x <= String.length (stringify x)) l ->
  forall first : bool,
    list_sum (map (fun x => S (weight x)) l)
    <= String.length (elements_text stringify l first) + (if first then 1 else 0).
Proof.
  induction l as [|x l IH]; intros Hall first; [simpl; lia|].
  apply Forall_cons in Hall as [Hx Hall]. specialize (IH Hall false).
  cbv iota in IH. cbn [elements_text map list_sum]. rewrite !length_append.
  destruct first; simpl; lia.
Qed.

Lemma members_length (f : list (string * value)) :
  Forall (fun kv => json_value (snd kv) = true ->
                    weight (snd kv) <= String.length (stringify (snd kv))) f ->
  json_members f = true ->
  forall first : bool,
    list_sum (map (fun kv => let '(_, x) := kv in S (weight x)) f)
    <= String.length (members_text stringify f first) + (if first then 1 else 0).
Proof.
  induction f as [|[k x] f IH]; intros Hall Hjson first; [simpl; lia|].
  apply Forall_cons in Hall as [Hx Hall]. simpl in Hx, Hjson.
  apply andb_prop in Hjson as [Hjx Hjson]. specialize (IH Hall Hjson false).
  specialize (Hx Hjx). cbv iota in IH.
  rewrite members_text_cons by (intros ->; discriminate).
  cbn [map list_sum]. rewrite !length_append.
  destruct first; simpl; lia.
Qed.

Lemma weight_length (v : value) :
  json_value v = true -> weight v <= String.length (stringify v).
Proof.
  induction v as [| |b|n|s|l IH|f IH] using value_nested_ind; intros Hjson;
    try (apply solid_length, stringify_solid).
  - cbn [stringify weight]. rewrite !length_append.
    assert (Forall (fun x => weight x <= String.length (stringify x)) l) as Hall.
    { simpl in Hjson. rewrite Forall_forall in IH |- *. intros x Hin.
      apply IH; [assumption|]. rewrite forallb_forall in Hjson.
      apply Hjson. now apply list_elem_of_In. }
    pose proof (elements_length l Hall true). simpl in *. lia.
  - cbn [stringify weight]. rewrite !length_append.
    apply json_value_object in Hjson as (_ & _ & Hjson).
    pose proof (members_length f IH Hjson true). simpl in *. lia.
Qed.

(** The reference [JSON.parse] reads every JSON value back from its text. *)
Theorem parse_stringify_value (v : value) :
  json_value v = true -> parse (stringify v) = Some v.
Proof.
  intros Hjson. unfold parse.
  pose proof (parse_stringify v Hjson (S (String.length (stringify v))) ""
                ltac:(pose proof (weight_length v Hjson); lia) eq_refl) as Hparse.
  rewrite append_nil_r in Hparse. now rewrite Hparse.
Qed.

Lemma uint_of_char_letter (c : ascii) (d : option Decimal.uint) :
  is_letter c = true -> uint_of_char c d = None.
Proof.
  intros Hc. destruct d as [d|]; [|reflexivity].
  destruct c as [[] [] [] [] [] [] [] []]; try reflexivity; discriminate Hc.
Qed.

Lemma to_number_letter (c : ascii) (s : string) :
  is_letter c = true -> Reference.to_number (String c s) = NaN.
Proof.
  intros Hc. unfold Reference.to_number. cbn [NilEmpty.uint_of_string].
  now rewrite uint_of_char_letter.
Qed.

Example round_trip_example :
  stringify (VObj [("1", VArr [VNum (Fin (-5 # 2)); VStr "a"]); ("b", VNull)])
  = "{" +:+ quoted_text "1" +:+ ":[-2.5," +:+ quoted_text "a" +:+ "]," +:+ quoted_text "b" +:+ ":null}"
  /\ parse (" [ 1 , 2.50, { }, [ ] ] ") = Some (VArr [VNum (Fin 1); VNum (Fin (5 # 2)); VObj []; VArr []]).
Proof. split; vm_compute; reflexivity. Qed.

#[export] Instance engine_laws : EngineLaws := {|
  JSON_round_trip := parse_stringify_value;
  string_to_number_name := fun c s Hc _ => to_number_letter c s Hc
|}.

End ReferenceFacts.

(** ** The import merger *)

Module ImportFacts.
Import JsString JsStringFacts GroceryApp.

Section MergerFacts.
Context `{Engine} `{Browser}.

(** Candidates of different rounds differ, whatever the clock reads. *)
Lemma candidate_id_inj (c c' : nat) : candidate_id c = candidate_id c' -> c = c'.
Proof.
  unfold candidate_id. intros E.
  pose proof (decimal_digits (Date_now c)) as Hd.
  pose proof (decimal_digits (Date_now c')) as Hd'.
  remember (decimal (Date_now c)) as a. remember (decimal (Date_now c')) as a'.
  remember (decimal (N.of_nat c)) as b. remember (decimal (N.of_nat c')) as b'.
  simpl in E. injection E as E.
  destruct (app_hyphen_inj a a' b b' Hd Hd' E) as [_ Eb]. subst b b'.
  apply decimal_inj in Eb. lia.
Qed.

(** The do-while loop returns as soon as the ids still in its way are
    fewer than the rounds it may take. *)
Lemma makeUniqueId_loop_fresh (fuel : nat) (ids blocking : gset string) (c : nat) :
  size blocking < fuel ->
  (forall c', c <= c' -> candidate_id c' ∈ ids -> candidate_id c' ∈ blocking) ->
  exists c0, c <= c0
    /\ makeUniqueId_loop fuel ids c = Some (candidate_id c0, S c0)
    /\ candidate_id c0 ∉ ids.
Proof.
  revert blocking c. induction fuel as [|fuel IH]; intros blocking c Hsize Hblock; [lia|].
  simpl. destruct (bool_decide_reflect (candidate_id c ∈ ids)) as [Hin|Hout].
  - assert (Hb : candidate_id c ∈ blocking) by (apply Hblock; [lia|assumption]).
    destruct (IH (blocking ∖ {[candidate_id c]}) (S c)) as (c0 & Hle & Hrun & Hfresh).
    + assert (size (blocking ∖ {[candidate_id c]}) = size blocking - 1) as Es.
      { rewrite size_difference by set_solver. now rewrite size_singleton. }
      assert (size blocking <> 0) as Hne.
      { intros E0. apply size_empty_inv in E0. set_solver. }
      lia.
    + intros c' Hc' Hin'. apply elem_of_difference. split.
      * apply Hblock; [lia|assumption].
      * rewrite elem_of_singleton. intros E. apply candidate_id_inj in E. lia.
    + exists c0. split; [lia|]. now split.
  - exists c. split; [lia|]. now split.
Qed.

(** [makeUniqueId()] always returns, with an id that is not in the set. *)
Lemma makeUniqueId_loop_returns (ids : gset string) (c : nat) :
  exists c0, c <= c0
    /\ makeUniqueId_loop (S (size ids)) ids c = Some (candidate_id c0, S c0)
    /\ candidate_id c0 ∉ ids.
Proof. apply (makeUniqueId_loop_fresh _ ids ids c); [lia|auto]. Qed.

Lemma makeUniqueId_returns (st : import_state) :
  exists c0, counter st <= c0
    /\ (candidate_id c0 ∉ existingIdSet st)
    /\ makeUniqueId st =
         Some (candidate_id c0,
               {| existingIdSet := existingIdSet st ∪ {[candidate_id c0]};
                  existingKeySet := existingKeySet st;
                  toAdd := toAdd st;
                  skippedInvalid := skippedInvalid st;
                  skippedDuplicates := skippedDuplicates st;
                  counter := S c0 |}).
Proof.
  destruct (makeUniqueId_loop_returns (existingIdSet st) (counter st))
    as (c0 & Hle & Hrun & Hfresh).
  exists c0. unfold makeUniqueId. rewrite Hrun. auto.
Qed.

(** *** The records of a batch, one by one *)

Lemma import_record_invalid (st : import_state) (raw : value) :
  record_valid raw = false -> import_record st raw = Some (skip_invalid st).
Proof.
  unfold record_valid, import_record. intros Hv.
  apply andb_false_iff in Hv as [-> | ->]; simpl; [reflexivity|].
  now rewrite orb_true_r.
Qed.

Lemma valid_guard (raw : value) :
  record_valid raw = true ->
  negb (truthy (raw_store raw)) || negb (truthy (raw_name raw)) = false.
Proof.
  unfold record_valid. intros Hv. apply andb_prop in Hv as [Hs Hn].
  now rewrite Hs, Hn.
Qed.

Lemma import_record_duplicate (st : import_state) (raw : value) :
  record_valid raw = true ->
  record_key raw ∈ existingKeySet st
  \/ existsb (fun x => String.eqb (batch_key x) (record_key raw)) (toAdd st) = true ->
  import_record st raw = Some (skip_duplicate st).
Proof.
  intros Hv Hdup. unfold import_record. rewrite (valid_guard raw Hv).
  fold (record_store raw) (record_item raw) (record_key raw).
  destruct (bool_decide_reflect (record_key raw ∈ existingKeySet st)) as [|Hout];
    [reflexivity|].
  destruct Hdup as [Hin|Hb]; [contradiction|]. now rewrite Hb.
Qed.

Lemma import_record_keeps_id (st : import_state) (raw : value) :
  record_valid raw = true ->
  record_key raw ∉ existingKeySet st ->
  existsb (fun x => String.eqb (batch_key x) (record_key raw)) (toAdd st) = false ->
  raw_id raw <> "" -> raw_id raw ∉ existingIdSet st ->
  import_record st raw = Some (accept st raw (raw_id raw) (counter st)).
Proof.
  intros Hv Hkey Hbatch Hne Hid. unfold import_record. rewrite (valid_guard raw Hv).
  fold (record_store raw) (record_item raw) (record_key raw).
  rewrite (bool_decide_eq_false_2 _ Hkey), Hbatch.
  apply is_empty_false in Hne. rewrite Hne.
  rewrite (bool_decide_eq_false_2 _ Hid). reflexivity.
Qed.

Lemma import_record_makes_id (st : import_state) (raw : value) :
  record_valid raw = true ->
  record_key raw ∉ existingKeySet st ->
  existsb (fun x => String.eqb (batch_key x) (record_key raw)) (toAdd st) = false ->
  raw_id raw = "" \/ raw_id raw ∈ existingIdSet st ->
  exists c0, counter st <= c0
    /\ (candidate_id c0 ∉ existingIdSet st)
    /\ import_record st raw = Some (accept st raw (candidate_id c0) (S c0)).
Proof.
  intros Hv Hkey Hbatch Hid. unfold import_record. rewrite (valid_guard raw Hv).
  fold (record_store raw) (record_item raw) (record_key raw).
  rewrite (bool_decide_eq_false_2 _ Hkey), Hbatch.
  assert (is_empty (raw_id raw) || bool_decide (raw_id raw ∈ existingIdSet st) = true)
    as ->.
  { destruct Hid as [He|Hin]; [now rewrite He|].
    rewrite (bool_decide_eq_true_2 _ Hin). apply orb_true_r. }
  destruct (makeUniqueId_returns st) as (c0 & Hle & Hfresh & ->).
  exists c0. split; [assumption|]. split; [assumption|]. reflexivity.
Qed.

(** *** The invariant of the loop *)

Lemma import_inv_initial (existing : list Item) :
  import_inv existing (initial_state existing).
Proof.
  split; simpl.
  - intros k. rewrite elem_of_list_to_set, elem_of_nil. tauto.
  - intros i. rewrite elem_of_list_to_set, elem_of_nil. tauto.
  - intros x Hx. now apply elem_of_nil in Hx.
  - constructor.
  - intros k Hk. now apply elem_of_nil in Hk.
  - constructor.
  - intros i Hi. now apply elem_of_nil in Hi.
Qed.

Lemma accepted_item_key (raw : value) (i : string) :
  item_key (accepted_item raw i) = record_key raw.
Proof.
  unfold item_key, accepted_item, record_key, record_store, record_item. simpl.
  now rewrite !trim_idempotent.
Qed.

Lemma accepted_batch_key (raw : value) (i : string) :
  batch_key (accepted_item raw i) = record_key raw.
Proof. reflexivity. Qed.

(** The search through [toAdd] finds nothing that the key set has not. *)
Lemma batch_search (existing : list Item) (st : import_state) (k : string) :
  import_inv existing st ->
  existsb (fun x => String.eqb (batch_key x) k) (toAdd st) = true ->
  k ∈ existingKeySet st.
Proof.
  intros Hinv Hex. apply existsb_exists in Hex as (x & Hx & Ek).
  apply String.eqb_eq in Ek. apply list_elem_of_In in Hx.
  apply (inv_keys _ _ Hinv). right. rewrite <- Ek, (inv_trimmed _ _ Hinv x Hx).
  now apply list_elem_of_fmap_2.
Qed.

Lemma import_inv_skip_invalid (existing : list Item) (st : import_state) :
  import_inv existing st -> import_inv existing (skip_invalid st).
Proof. intros []. now split. Qed.

Lemma import_inv_skip_duplicate (existing : list Item) (st : import_state) :
  import_inv existing st -> import_inv existing (skip_duplicate st).
Proof. intros []. now split. Qed.

Lemma import_inv_accept (existing : list Item) (st : import_state) (raw : value)
    (i : string) (c : nat) :
  import_inv existing st ->
  record_key raw ∉ existingKeySet st -> i ∉ existingIdSet st ->
  import_inv existing (accept st raw i c).
Proof.
  intros Hinv Hkey Hid.
  pose proof (inv_keys _ _ Hinv) as Hk. pose proof (inv_ids _ _ Hinv) as Hi.
  split; simpl.
  - intros k. rewrite fmap_app, elem_of_app, elem_of_union, Hk. simpl.
    rewrite accepted_item_key, elem_of_singleton, list_elem_of_singleton. tauto.
  - intros j. rewrite fmap_app, elem_of_app, elem_of_union, Hi. simpl.
    rewrite elem_of_singleton, list_elem_of_singleton. tauto.
  - intros x [Hx|Hx]%elem_of_app.
    + now apply (inv_trimmed _ _ Hinv).
    + apply list_elem_of_singleton in Hx. subst x.
      now rewrite accepted_item_key, accepted_batch_key.
  - rewrite fmap_app. apply NoDup_app. split; [apply (inv_new_keys _ _ Hinv)|].
    split; [|apply NoDup_singleton].
    intros k Hin Hk'. simpl in Hk'. apply list_elem_of_singleton in Hk'.
    rewrite accepted_item_key in Hk'. subst k. apply Hkey, Hk. now right.
  - intros k. rewrite fmap_app, elem_of_app. simpl.
    rewrite list_elem_of_singleton, accepted_item_key. intros [Hin|E].
    + now apply (inv_new_keys_apart _ _ Hinv).
    + subst k. intros Hin. apply Hkey, Hk. now left.
  - rewrite fmap_app. apply NoDup_app. split; [apply (inv_new_ids _ _ Hinv)|].
    split; [|apply NoDup_singleton].
    intros j Hin Hj. simpl in Hj. apply list_elem_of_singleton in Hj.
    subst j. apply Hid, Hi. now right.
  - intros j. rewrite fmap_app, elem_of_app. simpl.
    rewrite list_elem_of_singleton. intros [Hin|E].
    + now apply (inv_new_ids_apart _ _ Hinv).
    + subst j. intros Hin. apply Hid, Hi. now left.
Qed.

(** A round of the loop always completes and keeps the invariant. *)
Lemma import_record_inv (existing : list Item) (st : import_state) (raw : value) :
  import_inv existing st ->
  exists st', import_record st raw = Some st' /\ import_inv existing st'.
Proof.
  intros Hinv. destruct (record_valid raw) eqn:Hv.
  2:{ exists (skip_invalid st). split; [now apply import_record_invalid|].
      now apply import_inv_skip_invalid. }
  destruct (decide (record_key raw ∈ existingKeySet st)) as [Hin|Hout].
  { exists (skip_duplicate st). split; [apply import_record_duplicate; auto|].
    now apply import_inv_skip_duplicate. }
  assert (existsb (fun x => String.eqb (batch_key x) (record_key raw)) (toAdd st) = false)
    as Hbatch.
  { apply not_true_is_false. intros Hex. apply Hout. eapply batch_search; eauto. }
  destruct (decide (raw_id raw = "")) as [He|Hne].
  { destruct (import_record_makes_id st raw Hv Hout Hbatch (or_introl He))
      as (c0 & _ & Hfresh & ->).
    eexists. split; [reflexivity|]. now apply import_inv_accept. }
  destruct (decide (raw_id raw ∈ existingIdSet st)) as [Hid|Hid].
  { destruct (import_record_makes_id st raw Hv Hout Hbatch (or_intror Hid))
      as (c0 & _ & Hfresh & ->).
    eexists. split; [reflexivity|]. now apply import_inv_accept. }
  rewrite (import_record_keeps_id st raw Hv Hout Hbatch Hne Hid).
  eexists. split; [reflexivity|]. now apply import_inv_accept.
Qed.

Lemma import_loop_inv (existing : list Item) (data : list value) (st : import_state) :
  import_inv existing st ->
  exists st', import_loop st data = Some st' /\ import_inv existing st'.
Proof.
  revert st. induction data as [|raw data IH]; intros st Hinv; simpl.
  - eauto.
  - destruct (import_record_inv existing st raw Hinv) as (st1 & -> & Hinv1).
    now apply IH.
Qed.

(** The loop over a whole batch returns, in a state that satisfies the
    invariant. *)
Lemma import_loop_returns (existing : list Item) (data : list value) :
  exists st, import_loop (initial_state existing) data = Some st
             /\ import_inv existing st.
Proof. apply import_loop_inv, import_inv_initial. Qed.

Lemma import_loop_app (st : import_state) (pre suf : list value) :
  import_loop st (pre ++ suf) =
    match import_loop st pre with
    | Some st' => import_loop st' suf
    | None => None
    end.
Proof.
  revert st. induction pre as [|raw pre IH]; intros st; simpl; [reflexivity|].
  destruct (import_record st raw); [apply IH|reflexivity].
Qed.

End MergerFacts.
End ImportFacts.

(** ** The import merger: what the specification states *)

Module ImportClaims.
Import JsString JsStringFacts GroceryApp ImportFacts.

Section Claims.
Context `{Engine} `{Browser}.

(** A round of the loop skips the record as invalid when the test on the
    raw fields fails, and else skips it as a duplicate or accepts it under some
    id. *)
Lemma import_record_outcome (st : import_state) (raw : value) :
  (record_valid raw = false /\ import_record st raw = Some (skip_invalid st))
  \/ (record_valid raw = true
      /\ (import_record st raw = Some (skip_duplicate st)
          \/ exists i c, import_record st raw = Some (accept st raw i c))).
Proof.
  destruct (record_valid raw) eqn:Hv.
  2:{ left. split; [reflexivity|]. now apply import_record_invalid. }
  right. split; [reflexivity|].
  destruct (decide (record_key raw ∈ existingKeySet st)) as [Hin|Hout].
  { left. apply import_record_duplicate; auto. }
  destruct (existsb (fun x => String.eqb (batch_key x) (record_key raw)) (toAdd st))
    eqn:Hbatch.
  { left. apply import_record_duplicate; auto. }
  right.
  destruct (decide (raw_id raw = "")) as [He|Hne].
  { destruct (import_record_makes_id st raw Hv Hout Hbatch (or_introl He))
      as (c0 & _ & _ & ->). eauto. }
  destruct (decide (raw_id raw ∈ existingIdSet st)) as [Hid|Hid].
  { destruct (import_record_makes_id st raw Hv Hout Hbatch (or_intror Hid))
      as (c0 & _ & _ & ->). eauto. }
  rewrite (import_record_keeps_id st raw Hv Hout Hbatch Hne Hid). eauto.
Qed.

(** What the code counts as invalid: the records whose store or name is
    falsy as it stands in the record, before any trimming. *)
Lemma import_counts_invalid (st : import_state) (raw : value) :
  (exists st', import_record st raw = Some st'
               /\ skippedInvalid st' = S (skippedInvalid st))
  <-> truthy (raw_store raw) = false \/ truthy (raw_name raw) = false.
Proof.
  rewrite <- andb_false_iff. fold (record_valid raw). split.
  - intros (st' & Hstep & Hcount).
    destruct (import_record_outcome st raw) as [[Hv _]|[_ [Hs|(i & c & Hs)]]];
      [assumption| |]; rewrite Hs in Hstep; injection Hstep as <-;
      simpl in Hcount; lia.
  - intros Hv. exists (skip_invalid st). split; [now apply import_record_invalid|].
    reflexivity.
Qed.




(** C9, as the code has it. The price of the item made from an accepted
    record is a finite number: the number of the price field when that is a
    finite number, the number a numeric string denotes, and 0 when the field
    is absent or [null] or converts to no finite number.  (It may be
    negative.) *)
Theorem import_price (st st' : import_state) (raw : value) (x : Item) :
  import_record st raw = Some st' ->
  toAdd st' = (toAdd st ++ [x])%list ->
  isFinite (price x) = true
  /\ (forall q, raw_price raw = VNum (Fin q) -> price x = Fin q)
  /\ (forall s q, raw_price raw = VStr s -> string_to_number s = Fin q -> price x = Fin q)
  /\ (nullish (raw_price raw) = true -> price x = Fin 0)
  /\ (isFinite (ToNumber (raw_price raw)) = false -> price x = Fin 0).
Proof.
  intros Hstep Hadd.
  assert (price x = parse_price (raw_price raw)) as ->.
  { destruct (import_record_outcome st raw) as [[_ Hs]|[_ [Hs|(i & c & Hs)]]];
      rewrite Hs in Hstep; injection Hstep as <-; simpl in Hadd.
    - apply (f_equal length) in Hadd. rewrite length_app in Hadd. simpl in Hadd. lia.
    - apply (f_equal length) in Hadd. rewrite length_app in Hadd. simpl in Hadd. lia.
    - apply app_inv_head in Hadd. injection Hadd as <-. reflexivity. }
  unfold parse_price. repeat split.
  - destruct (ToNumber (raw_price raw)); reflexivity.
  - intros q ->. reflexivity.
  - intros s q -> Hs. simpl. now rewrite Hs.
  - destruct (raw_price raw); simpl; congruence.
  - intros ->. reflexivity.
Qed.

End Claims.
End ImportClaims.

(** ** The import merger on the inputs of the specification *)

Module ImportExamples.
Import JsString GroceryApp ImportFacts ImportClaims Reference.

#[local] Existing Instance page.

Definition milk : value :=
  VObj [("store", VStr "Auchan"); ("item", VStr "Milk"); ("price", VNum (Fin 2.5))].

Definition milk_item : Item :=
  {| id := "item-1700000000000-0"; store := "Auchan"; item := "Milk"; price := Fin 2.5 |}.

(** What a run of the loop leaves: the batch and the two counts. *)
Definition summary (run : option import_state) : option (list Item * nat * nat) :=
  match run with
  | Some st => Some (toAdd st, skippedDuplicates st, skippedInvalid st)
  | None => None
  end.

Example import_into_empty_catalog :
  summary (import_loop (initial_state []) [milk]) = Some ([milk_item], 0, 0).
Proof. vm_compute. reflexivity. Qed.

Example import_same_record_twice :
  summary (import_loop (initial_state []) [milk; milk]) = Some ([milk_item], 1, 0).
Proof. vm_compute. reflexivity. Qed.

Example import_existing_key :
  summary (import_loop
             (initial_state [{| id := "1"; store := " AUCHAN"; item := "milk "; price := Fin 1 |}])
             [milk]) = Some ([], 1, 0).
Proof. vm_compute. reflexivity. Qed.

Example import_empty_store :
  summary (import_loop (initial_state []) [VObj [("store", VStr ""); ("item", VStr "Milk")]])
  = Some ([], 0, 1).
Proof. vm_compute. reflexivity. Qed.

Example import_keeps_supplied_id :
  summary (import_loop (initial_state [])
             [VObj [("id", VStr "x"); ("store", VStr "Auchan"); ("item", VStr "Milk")]])
  = Some ([{| id := "x"; store := "Auchan"; item := "Milk"; price := Fin 0 |}], 0, 0).
Proof. vm_compute. reflexivity. Qed.




Definition blank_store : value := VObj [("store", VStr "   "); ("item", VStr "Milk")].

(** C3 fails on the code: a record whose store is three spaces passes the
    validity test, which looks at the field before it is trimmed; the record
    is accepted with an empty store and the invalid count stays 0. *)
Lemma import_blank_store_accepted :
  trim "   " = ""
  /\ summary (import_loop (initial_state []) [blank_store])
     = Some ([{| id := "item-1700000000000-0"; store := ""; item := "Milk";
                 price := Fin 0 |}], 0, 0).
Proof. vm_compute. auto. Qed.

Definition refund : value :=
  VObj [("store", VStr "Auchan"); ("item", VStr "Refund"); ("price", VNum (Fin (-5)))].

(** C9 fails as stated: a record with the price -5 is accepted with the
    price -5, which is below 0. *)
Lemma import_negative_price :
  summary (import_loop (initial_state []) [refund])
  = Some ([{| id := "item-1700000000000-0"; store := "Auchan"; item := "Refund";
              price := Fin (-5) |}], 0, 0)
  /\ num_lt (Fin (-5)) (Fin 0) = true.
Proof. vm_compute. auto. Qed.

(** [import_price] at the record of the specification. *)
Lemma import_price_witness :
  isFinite (price milk_item) = true
  /\ (forall q, raw_price milk = VNum (Fin q) -> price milk_item = Fin q)
  /\ (forall s q, raw_price milk = VStr s -> string_to_number s = Fin q ->
      price milk_item = Fin q)
  /\ (nullish (raw_price milk) = true -> price milk_item = Fin 0)
  /\ (isFinite (ToNumber (raw_price milk)) = false -> price milk_item = Fin 0).
Proof.
  apply (import_price (initial_state [])
           (accept (initial_state []) milk "item-1700000000000-0" 1) milk milk_item).
  - vm_compute. reflexivity.
  - reflexivity.
Defined.

Definition empty_app : t :=
  {| groceryItems := []; shoppingSet := ∅; uncheckedSet := ∅ |}.





End ImportExamples.

(** ** The shopping selection and the status set *)

Module AppClaims.
Import GroceryApp.

(** C8. From a state in which the status set (unchecked ids) is within the
    selection set (shopping ids), each of the operations leads to such a
    state: adding an item to the selection, removing one from it, toggling
    the status of a selected item, deleting a catalog item, clearing the
    shopping list.  After an id is removed from the selection, and after an
    item is deleted, its id is in neither set. *)
Theorem status_within_selection_preserved (app : t) :
  status_within_selection app ->
  (forall itemId, status_within_selection (addToShopping itemId app))
  /\ (forall itemId,
        status_within_selection (removeFromShopping itemId app)
        /\ (itemId ∉ shoppingSet (removeFromShopping itemId app))
        /\ (itemId ∉ uncheckedSet (removeFromShopping itemId app)))
  /\ (forall itemId isChecked,
        itemId ∈ shoppingSet app ->
        status_within_selection (toggleItem itemId isChecked app))
  /\ (forall itemId,
        status_within_selection (removeItem itemId app)
        /\ (itemId ∉ shoppingSet (removeItem itemId app))
        /\ (itemId ∉ uncheckedSet (removeItem itemId app))
        /\ (itemId ∉ id <$> groceryItems (removeItem itemId app)))
  /\ status_within_selection (clearShoppingList app).
Proof.
  unfold status_within_selection. intros Hinv.
  split; [|split; [|split; [|split]]].
  - intros itemId. unfold addToShopping.
    destruct (bool_decide_reflect (itemId ∈ shoppingSet app)); simpl.
    + assumption.
    + intros x Hx. apply elem_of_difference in Hx as [Hx _].
      apply elem_of_union. left. now apply Hinv.
  - intros itemId. unfold removeFromShopping.
    destruct (bool_decide_reflect (itemId ∈ shoppingSet app)) as [Hin|Hout]; simpl.
    + split; [|split].
      * intros x Hx. apply elem_of_difference in Hx as [Hx Hne].
        apply elem_of_difference. split; [now apply Hinv|assumption].
      * intros Hx. apply elem_of_difference in Hx as [_ Hne].
        apply Hne. now apply elem_of_singleton.
      * intros Hx. apply elem_of_difference in Hx as [_ Hne].
        apply Hne. now apply elem_of_singleton.
    + split; [assumption|]. split; [assumption|].
      intros Hx. now apply Hout, Hinv.
  - intros itemId isChecked Hsel. unfold toggleItem. destruct isChecked; simpl.
    + intros x Hx. apply elem_of_difference in Hx as [Hx _]. now apply Hinv.
    + intros x Hx. apply elem_of_union in Hx as [Hx|Hx]; [now apply Hinv|].
      apply elem_of_singleton in Hx. now subst x.
  - intros itemId. unfold removeItem; simpl. split; [|split; [|split]].
    + intros x Hx. apply elem_of_difference in Hx as [Hx Hne].
      apply elem_of_difference. split; [now apply Hinv|assumption].
    + intros Hx. apply elem_of_difference in Hx as [_ Hne].
      apply Hne. now apply elem_of_singleton.
    + intros Hx. apply elem_of_difference in Hx as [_ Hne].
      apply Hne. now apply elem_of_singleton.
    + intros Hx. apply list_elem_of_fmap in Hx as (it & Eid & Hit).
      apply list_elem_of_In, filter_In in Hit as [_ Hne].
      apply negb_true_iff, String.eqb_neq in Hne. congruence.
  - unfold clearShoppingList. destruct (size (shoppingSet app) =? 0)%nat; simpl.
    + assumption.
    + intros x Hx. now apply elem_of_empty in Hx.
Qed.

Definition shopping_for_milk : t :=
  {| groceryItems :=
       [{| id := "a"; store := "Auchan"; item := "Milk"; price := Fin 2.5 |};
        {| id := "b"; store := "Inter"; item := "Bread"; price := Fin 1 |}];
     shoppingSet := {["a"; "b"]};
     uncheckedSet := {["a"]} |}.

(** [status_within_selection_preserved] at a list of two selected items, one
    of them unchecked. *)
Lemma status_within_selection_witness :
  (forall itemId, status_within_selection (addToShopping itemId shopping_for_milk))
  /\ (forall itemId,
        status_within_selection (removeFromShopping itemId shopping_for_milk)
        /\ (itemId ∉ shoppingSet (removeFromShopping itemId shopping_for_milk))
        /\ (itemId ∉ uncheckedSet (removeFromShopping itemId shopping_for_milk)))
  /\ (forall itemId isChecked,
        itemId ∈ shoppingSet shopping_for_milk ->
        status_within_selection (toggleItem itemId isChecked shopping_for_milk))
  /\ (forall itemId,
        status_within_selection (removeItem itemId shopping_for_milk)
        /\ (itemId ∉ shoppingSet (removeItem itemId shopping_for_milk))
        /\ (itemId ∉ uncheckedSet (removeItem itemId shopping_for_milk))
        /\ (itemId ∉ id <$> groceryItems (removeItem itemId shopping_for_milk)))
  /\ status_within_selection (clearShoppingList shopping_for_milk).
Proof.
  apply (status_within_selection_preserved shopping_for_milk).
  unfold status_within_selection, shopping_for_milk. simpl.
  intros x Hx. apply elem_of_singleton in Hx. subst x.
  apply elem_of_union. left. now apply elem_of_singleton.
Defined.

(** Deleting the item [a], which is selected and unchecked, takes it out of
    the catalog and of both sets. *)
Example delete_selected_unchecked_item :
  let app := removeItem "a" shopping_for_milk in
  (id <$> groceryItems app) = ["b"]
  /\ shoppingSet app = {["b"]} /\ uncheckedSet app = ∅.
Proof.
  simpl. split; [reflexivity|]. split; apply set_eq; intros x; set_solver.
Qed.

End AppClaims.

(** ** The structured store: construction, [set] and [get] *)

Module DataStoreFacts.
Import JsString JsStringFacts DataStore.

Lemma namespace_char_alphabet (c : ascii) :
  namespace_char c = true <-> In c (list_ascii_of_string namespace_alphabet).
Proof.
  assert (namespace_char c
          = existsb (Ascii.eqb c) (list_ascii_of_string namespace_alphabet)) as ->.
  { destruct c as [[] [] [] [] [] [] [] []]; vm_compute; reflexivity. }
  rewrite existsb_exists. split.
  - intros (x & Hx & E). apply Ascii.eqb_eq in E. now subst x.
  - intros Hc. exists c. split; [assumption|apply Ascii.eqb_refl].
Qed.

Lemma all_chars_spec (p : ascii -> bool) (s : string) :
  all_chars p s = true <-> forall c, In c (list_ascii_of_string s) -> p c = true.
Proof.
  induction s as [|a r IH]; simpl.
  - split; [intros _ c []|reflexivity].
  - rewrite andb_true_iff, IH. split.
    + intros [Ha Hr] c [<-|Hc]; auto.
    + intros Hall. split; [apply Hall; now left|]. intros c Hc. apply Hall. now right.
Qed.

(** The test of [_validateNamespace] passes exactly on the valid
    namespaces; the test on the trimmed string adds nothing to the regular
    expression. *)
Lemma validateNamespace_spec (namespace : value) :
  _validateNamespace namespace = Return tt <-> valid_namespace namespace.
Proof.
  unfold valid_namespace. destruct namespace as [| |b|n|s|l|f]; simpl;
    try (split; [discriminate|intros (s' & E & _); discriminate]).
  destruct (is_empty (trim s)) eqn:Et.
  { split; [discriminate|]. intros (s' & E & [Hlen _] & Hchars). injection E as <-.
    apply is_empty_true in Et. destruct s as [|c r]; [simpl in Hlen; lia|].
    exfalso. apply (trim_solid_head c r); [|assumption].
    apply namespace_char_solid, namespace_char_alphabet, Hchars. now left. }
  destruct (Nat.ltb_spec 255 (String.length s)) as [Hlong|Hshort].
  { split; [discriminate|]. intros (s' & E & [_ Hlen] & _). injection E as <-. lia. }
  unfold namespace_regex. destruct (is_empty s) eqn:Es; simpl.
  { split; [discriminate|]. intros (s' & E & [Hlen _] & _). injection E as <-.
    apply is_empty_true in Es. subst s. simpl in Hlen. lia. }
  destruct (all_chars namespace_char s) eqn:Ea; simpl.
  - split; [intros _|reflexivity]. exists s. split; [reflexivity|]. split.
    + split; [|assumption]. destruct s; [discriminate|simpl; lia].
    + intros c Hc. apply namespace_char_alphabet.
      now apply (proj1 (all_chars_spec namespace_char s) Ea).
  - split; [discriminate|]. intros (s' & E & _ & Hchars). injection E as <-.
    assert (all_chars namespace_char s = true) as Ea'; [|congruence].
    apply all_chars_spec. intros c Hc. now apply namespace_char_alphabet, Hchars.
Qed.

Section Construction.
Context `{Engine} `{Browser}.

(** The constructor returns exactly when the test of the namespace passes,
    whatever the storage type asked for. *)
Lemma constructor_returns (namespace type : value) :
  (exists ds, constructor namespace type = Return ds)
  <-> _validateNamespace namespace = Return tt.
Proof.
  unfold constructor. destruct (_validateNamespace namespace) as [[]|e] eqn:Ev.
  - destruct namespace; simpl in Ev; try discriminate. split; eauto.
  - split; [intros (ds & E); discriminate|discriminate].
Qed.

Lemma constructor_throws (namespace type : value) :
  (exists e, constructor namespace type = Throw e)
  <-> _validateNamespace namespace <> Return tt.
Proof.
  unfold constructor. destruct (_validateNamespace namespace) as [[]|e] eqn:Ev.
  - destruct namespace; simpl in Ev; try discriminate.
    split; [intros (e & E); discriminate|congruence].
  - split; [discriminate|eauto].
Qed.

(** C5. The construction of a DataStore succeeds exactly when the namespace
    is a string of 1 to 255 characters of the class [A-Za-z0-9._-], and fails
    with an exception for every other namespace (not a string, empty or blank,
    longer than 255 characters, or with another character). *)
Theorem constructor_accepts_valid_namespaces (namespace type : value) :
  ((exists ds, constructor namespace type = Return ds) <-> valid_namespace namespace)
  /\ ((exists e, constructor namespace type = Throw e) <-> ~ valid_namespace namespace).
Proof.
  rewrite constructor_returns, constructor_throws, validateNamespace_spec.
  split; reflexivity.
Qed.

(** C10. The storage type never makes the construction fail: the
    constructor returns exactly when the namespace is valid, whatever the
    type; and for a type that is none of local, sync, managed and session
    (a string or not) the instance it returns has the type local. *)
Theorem constructor_type_fallback (namespace type : value) :
  ((exists ds, constructor namespace type = Return ds) <-> valid_namespace namespace)
  /\ ((forall s, type = VStr s -> s ∉ validTypes) ->
      forall ds, constructor namespace type = Return ds -> DataStore.type ds = "local").
Proof.
  split.
  - now rewrite constructor_returns, validateNamespace_spec.
  - intros Hother ds. unfold constructor.
    destruct (_validateNamespace namespace) as [[]|e]; [|discriminate].
    destruct namespace; try discriminate. intros [= <-]. simpl.
    unfold select_type. destruct type as [| |b|n|ty|l|f]; try reflexivity.
    destruct (bool_decide_reflect (ty ∈ validTypes)) as [Hin|]; [|reflexivity].
    now destruct (Hother ty eq_refl).
Qed.

End Construction.
End DataStoreFacts.

(** ** The structured store: round trip, [merge], [deleteItem] *)

Module StoreFacts.
Import JsString JsStringFacts DataStore.

Section Store.
Context `{Engine} `{Browser}.

(** [set] returns when the value is not [undefined] and the back end takes
    the write. *)
Lemma set_accepted (ds : t) (v : value) (w : world) :
  v <> VUndefined -> write_accepted ds w v ->
  exists w', set ds v w = (Return tt, w').
Proof.
  intros Hv Hw. unfold set.
  assert (_validateValue v = Return tt) as -> by (now destruct v).
  unfold write_accepted, web_items in Hw.
  destruct (storage ds) as [area| |] eqn:Es.
  - unfold bind, chrome_set, _dispatchChangeEvent. rewrite Hw. eauto.
  - unfold try_catch, bind, web_setItem, _dispatchChangeEvent, web_items.
    rewrite Es, Hw. eauto.
  - unfold try_catch, bind, web_setItem, _dispatchChangeEvent, web_items.
    rewrite Es, Hw. eauto.
Qed.

Lemma set_returns (ds : t) (v : value) (w w' : world) :
  set ds v w = (Return tt, w') ->
  v <> VUndefined /\ persisted ds w' v.
Proof.
  intros Hset. assert (v <> VUndefined) as Hv.
  { intros ->. discriminate Hset. }
  split; [exact Hv|]. unfold set in Hset.
  assert (_validateValue v = Return tt) as Ev by (now destruct v).
  rewrite Ev in Hset. unfold persisted, web_items.
  destruct (storage ds) as [area| |] eqn:Es.
  - unfold bind, chrome_set, _dispatchChangeEvent in Hset.
    destruct (chrome_lastError OpSet area (namespace ds)); [discriminate|].
    injection Hset as <-. simpl. apply lookup_insert_eq.
  - unfold try_catch, bind, web_setItem, _dispatchChangeEvent, throw, web_items in Hset.
    rewrite Es in Hset.
    destruct (setItem_error (local_items w) (namespace ds) (JSON_stringify v))
      as [[name msg]|];
      [simpl in Hset; destruct (String.eqb name "QuotaExceededError"); discriminate|].
    injection Hset as <-. simpl. apply lookup_insert_eq.
  - unfold try_catch, bind, web_setItem, _dispatchChangeEvent, throw, web_items in Hset.
    rewrite Es in Hset.
    destruct (setItem_error (session_items w) (namespace ds) (JSON_stringify v))
      as [[name msg]|];
      [simpl in Hset; destruct (String.eqb name "QuotaExceededError"); discriminate|].
    injection Hset as <-. simpl. apply lookup_insert_eq.
Qed.

Lemma get_persisted (ds : t) (w : world) (v d : value) :
  reads_ok ds -> persisted ds w v -> v <> VUndefined ->
  JSON_parse (JSON_stringify v) = Some v ->
  get ds d w = (Return v, w).
Proof.
  unfold reads_ok, persisted, get. intros Hread Hp Hv Hjson.
  destruct (storage ds) as [area| |].
  - rewrite Hread, Hp. now destruct v.
  - now rewrite Hp, Hjson.
  - now rewrite Hp, Hjson.
Qed.

Lemma own_name_not_proto (name : string) :
  inherited_name name = false -> String.eqb name "__proto__" = false.
Proof.
  intros Hown. destruct (String.eqb_spec name "__proto__") as [->|]; [|reflexivity].
  discriminate Hown.
Qed.

Lemma get_never_written (ds : t) (w : world) (d : value) :
  reads_ok ds -> own_namespace ds -> never_written ds w ->
  get ds d w = (Return d, w).
Proof.
  unfold reads_ok, own_namespace, never_written, get. intros Hread Hown Hnone.
  destruct (storage ds) as [area| |].
  - now rewrite Hread, Hnone, own_name_not_proto.
  - now rewrite Hnone.
  - now rewrite Hnone.
Qed.

(** After a [clear()] that returns, nothing is stored under the namespace. *)
Lemma clear_never_written (ds : t) (w w' : world) :
  clear ds w = (Return tt, w') -> never_written ds w'.
Proof.
  unfold clear, never_written, web_items, _dispatchChangeEvent.
  destruct (storage ds) as [area| |].
  - destruct (chrome_lastError OpRemove area (namespace ds)); [discriminate|].
    intros [= <-]. simpl. apply lookup_delete_eq.
  - intros [= <-]. simpl. apply lookup_delete_eq.
  - intros [= <-]. simpl. apply lookup_delete_eq.
Qed.

Lemma json_value_defined (v : value) : json_value v = true -> v <> VUndefined.
Proof. intros Hjson ->. discriminate Hjson. Qed.

Context `{!EngineLaws}.

(** X25. On an instance whose reads the back end answers and whose
    namespace, on [chrome.storage], is no name of [Object.prototype],
    with an engine whose [JSON.parse] reads a JSON value back from its text:
    for every JSON value [v] (nested objects and arrays and empty containers
    among them), [set(v)], when the back end takes the write, returns and is
    followed by a [get(d)] that returns [v]; and for every default [d],
    [undefined] too, [get(d)] returns [d] when nothing is stored under the
    namespace. *)
Theorem set_then_get (ds : t) :
  reads_ok ds -> own_namespace ds ->
  (forall (v d : value) (w : world),
     json_value v = true ->
     write_accepted ds w v ->
     exists w', set ds v w = (Return tt, w') /\ get ds d w' = (Return v, w'))
  /\ (forall (d : value) (w : world),
        never_written ds w -> get ds d w = (Return d, w)).
Proof.
  intros Hread Hown. split.
  - intros v d w Hjson Hw. pose proof (json_value_defined v Hjson) as Hv.
    destruct (set_accepted ds v w Hv Hw) as (w' & Hset).
    exists w'. split; [assumption|].
    destruct (set_returns ds v w w' Hset) as [_ Hp].
    apply get_persisted; try assumption. now apply JSON_round_trip.
  - intros d w Hnone. now apply get_never_written.
Qed.

(** *** Objects *)

Lemma obj_get_set (k k' : string) (v : value) (f : list (string * value)) :
  obj_get k (obj_set k' v f) = if String.eqb k' k then Some v else obj_get k f.
Proof.
  induction f as [|[k0 v0] f IH]; simpl.
  - reflexivity.
  - destruct (String.eqb_spec k0 k') as [->|Hne]; simpl.
    + now destruct (String.eqb k' k).
    + rewrite IH. destruct (String.eqb_spec k0 k) as [->|]; [|reflexivity].
      now rewrite (proj2 (String.eqb_neq k' k)) by congruence.
Qed.

Lemma obj_get_delete (k : string) (f : list (string * value)) :
  obj_get k (obj_delete k f) = None.
Proof.
  induction f as [|[k0 v0] f IH]; simpl; [reflexivity|].
  destruct (String.eqb k0 k) eqn:E; simpl; [assumption|]. now rewrite E.
Qed.

Lemma obj_get_delete_other (k k' : string) (f : list (string * value)) :
  k <> k' -> obj_get k' (obj_delete k f) = obj_get k' f.
Proof.
  intros Hne. induction f as [|[k0 v0] f IH]; simpl; [reflexivity|].
  destruct (String.eqb_spec k0 k) as [->|]; simpl.
  - now rewrite (proj2 (String.eqb_neq k k')).
  - now rewrite IH.
Qed.

Lemma obj_get_none (k : string) (f : list (string * value)) :
  k ∉ f.*1 -> obj_get k f = None.
Proof.
  induction f as [|[k0 v0] f IH]; simpl; [reflexivity|].
  intros Hk. apply not_elem_of_cons in Hk as [Hne Hk].
  rewrite (proj2 (String.eqb_neq k0 k)) by congruence. auto.
Qed.

(** A shallow merge: the keys of the second object win, the other keys of
    the first stay. *)
Lemma obj_spread_get (a b : list (string * value)) (k : string) :
  NoDup b.*1 ->
  obj_get k (obj_spread a b) =
    match obj_get k b with Some v => Some v | None => obj_get k a end.
Proof.
  unfold obj_spread. revert a. induction b as [|[k0 v0] b IH]; intros a Hnd; simpl.
  - reflexivity.
  - apply NoDup_cons in Hnd as [Hk0 Hnd]. rewrite (IH _ Hnd), obj_get_set.
    destruct (String.eqb_spec k0 k) as [->|]; [|reflexivity].
    now rewrite (obj_get_none k b Hk0).
Qed.

Lemma deepMerge_object (target : value) (sfields : list (string * value)) :
  _deepMerge target (VObj sfields) = VObj (deepMerge_loop sfields (own_fields target)).
Proof.
  reflexivity.
Qed.

(** A deep merge, key by key: two plain objects under one key are merged,
    any other value of the source replaces what the target has, and the other
    keys of the target stay. *)
Lemma deepMerge_get (target : value) (sfields : list (string * value)) (k : string) :
  NoDup sfields.*1 ->
  obj_get k (own_fields (_deepMerge target (VObj sfields))) =
    match obj_get k sfields with
    | Some sv =>
        match sv, obj_get k (own_fields target) with
        | VObj _, Some (VObj _ as tv) => Some (_deepMerge tv sv)
        | _, _ => Some sv
        end
    | None => obj_get k (own_fields target)
    end.
Proof.
  rewrite deepMerge_object. simpl. generalize (own_fields target).
  induction sfields as [|[k0 v0] rest IH]; intros result Hnd; simpl.
  - reflexivity.
  - apply NoDup_cons in Hnd as [Hk0 Hnd]. rewrite (IH _ Hnd), obj_get_set.
    destruct (String.eqb_spec k0 k) as [->|]; [|reflexivity].
    rewrite (obj_get_none k rest Hk0).
    destruct v0; try reflexivity.
    destruct (obj_get k result) as [[]|]; reflexivity.
Qed.

(** *** [merge] *)

Lemma merge_plain_object (ds : t) (fields : list (string * value)) (deep : bool) :
  merge ds (VObj fields) deep =
    (currentData <- get ds (VObj []) ;;
     if negb (typeof_object currentData) || isArray currentData
     then throw (Error "Cannot merge with non-object data")
     else (set ds (merged_data currentData fields deep) ;;;
           ret (merged_data currentData fields deep))).
Proof. reflexivity. Qed.

Lemma merge_rejects_argument (ds : t) (newData : value) (deep : bool) (w : world) :
  is_plain_object newData = false ->
  merge ds newData deep w = (Throw (TypeError "Data to merge must be a plain object"), w).
Proof. intros Hn. unfold merge. now destruct newData. Qed.

Lemma merge_rejects_stored (ds : t) (fields : list (string * value)) (deep : bool)
    (w : world) (currentData : value) :
  get ds (VObj []) w = (Return currentData, w) ->
  typeof_object currentData = false \/ isArray currentData = true ->
  merge ds (VObj fields) deep w = (Throw (Error "Cannot merge with non-object data"), w).
Proof.
  intros Hget Hcur. rewrite merge_plain_object. unfold bind. rewrite Hget.
  destruct Hcur as [Ht|Ha]; [now rewrite Ht|]. rewrite Ha. now rewrite orb_true_r.
Qed.

(** On a stored object, and on a stored [null], [merge] persists and returns
    the merged object. *)
Lemma merge_returns (ds : t) (fields : list (string * value)) (deep : bool)
    (w w' : world) (currentData : value) :
  get ds (VObj []) w = (Return currentData, w) ->
  is_plain_object currentData = true \/ currentData = VNull ->
  set ds (merged_data currentData fields deep) w = (Return tt, w') ->
  merge ds (VObj fields) deep w = (Return (merged_data currentData fields deep), w')
  /\ persisted ds w' (merged_data currentData fields deep).
Proof.
  intros Hget Hcur Hset. split; [|now apply (set_returns ds _ w w')].
  rewrite merge_plain_object. unfold bind at 1. rewrite Hget.
  assert (negb (typeof_object currentData) || isArray currentData = false) as ->.
  { destruct Hcur as [Ho| ->]; [now destruct currentData|reflexivity]. }
  unfold bind. now rewrite Hset.
Qed.

(** *** Paths *)

(** After the node a path leads to has been changed in place, the path
    leads to the changed node. *)
Lemma walk_write_back (path : string) (pathParts : list string) :
  forall data parent node : value,
    walk path data pathParts = Return parent -> container parent = true ->
    walk path (write_back pathParts node data) pathParts = Return node.
Proof.
  induction pathParts as [|part rest IH]; intros data parent node Hwalk Hc.
  - reflexivity.
  - simpl in Hwalk. destruct (nullish data) eqn:Hnull; [discriminate|].
    destruct data as [| |b|n|s|l|f]; simpl in Hwalk; try discriminate.
    + (* an array *)
      destruct (array_index part) as [i|] eqn:Ei.
      * destruct (Nat.ltb_spec i (length l)) as [Hlt|]; [|discriminate].
        destruct (lookup_lt_is_Some_2 l i Hlt) as [child Hchild].
        rewrite Hchild in Hwalk. simpl. rewrite Ei, Hchild. simpl. rewrite Ei.
        rewrite length_insert, (proj2 (Nat.ltb_lt _ _) Hlt).
        rewrite list_lookup_insert_eq by assumption. now apply (IH child parent).
      * destruct (String.eqb part "length"); [|discriminate].
        destruct rest as [|part' rest']; simpl in Hwalk.
        -- injection Hwalk as <-. discriminate.
        -- discriminate.
    + (* an object *)
      unfold obj_has in Hwalk. destruct (obj_get part f) as [child|] eqn:Hchild;
        [|discriminate].
      simpl. rewrite Hchild. simpl. unfold obj_has.
      rewrite obj_get_set, String.eqb_refl. now apply (IH child parent).
Qed.

Lemma navigate_write_back (data parent node : value) (path key : string) :
  _navigateToPath data path = Return (parent, key) -> container parent = true ->
  _navigateToPath (write_back (removelast (split_dot path)) node data) path
  = Return (node, key).
Proof.
  unfold _navigateToPath. intros Hnav Hc.
  destruct (walk path data (removelast (split_dot path))) as [p|e] eqn:Hwalk;
    [|discriminate].
  injection Hnav as -> <-. now rewrite (walk_write_back _ _ _ _ node Hwalk Hc).
Qed.

(** The data stays an object or an array when a node reached through it
    becomes another object or array. *)
Lemma write_back_container (path : string) (pathParts : list string)
    (data parent node : value) :
  walk path data pathParts = Return parent -> container node = true ->
  container (write_back pathParts node data) = true.
Proof.
  intros Hwalk Hnode. destruct pathParts as [|part rest]; [assumption|].
  simpl in Hwalk. destruct (nullish data); [discriminate|].
  destruct data as [| |b|n|s|l|f]; simpl in Hwalk; try discriminate; simpl.
  - destruct (array_index part) as [i|]; [|reflexivity].
    now destruct (l !! i).
  - now destruct (obj_get part f).
Qed.

Lemma container_defined (v : value) : container v = true -> v <> VUndefined.
Proof. now destruct v. Qed.

Lemma splice1_length (i : nat) (l : list value) :
  i < length l -> length (splice1 i l) = length l - 1.
Proof.
  intros Hlt. unfold splice1. rewrite length_app, length_take, length_drop. lia.
Qed.

(** The bounds check of [deleteItem] lets an index of the array through. *)
Lemma index_in_bounds (key : string) (i : nat) (l : list value) :
  array_index key = Some i -> i < length l ->
  isNaN (ToNumber (VStr key)) || num_lt (ToNumber (VStr key)) (Fin 0)
    || num_ge (ToNumber (VStr key)) (num_of_nat (length l)) = false
  /\ to_index (ToNumber (VStr key)) = i.
Proof.
  intros Ei Hlt. apply array_index_canonical in Ei. subst key.
  unfold ToNumber. rewrite string_to_number_decimal, nat_N_Z.
  unfold to_index, num_of_nat. rewrite Qfloor_Z, Nat2Z.id. split; [|reflexivity].
  cbn [isNaN num_lt num_ge orb].
  assert (Qle_bool 0 (inject_Z (Z.of_nat i)) = true) as ->.
  { apply Qle_bool_iff. change 0%Q with (inject_Z 0). rewrite <- Zle_Qle. lia. }
  cbn [negb orb]. apply negb_false_iff, negb_true_iff, not_true_is_false.
  intros Hle. apply Qle_bool_iff in Hle. rewrite <- Zle_Qle in Hle. lia.
Qed.

Lemma persisted_dispatch (ds : t) (w : world) (v : value) (kind : string) (data : value) :
  persisted ds w v ->
  persisted ds (snd (_dispatchChangeEvent ds kind data w)) v.
Proof. unfold persisted, web_items. simpl. now destruct (storage ds). Qed.

(** [deleteItem] once the path is validated and the data is read. *)
Lemma deleteItem_read (ds : t) (itemPath : string) (w : world) (data : value) :
  _validatePath itemPath = Return tt ->
  get ds VUndefined w = (Return data, w) ->
  truthy data = true ->
  deleteItem ds itemPath w =
    match _navigateToPath data itemPath with
    | Throw e => (Throw e, w)
    | Return (parent, key) =>
        match has_in key parent with
        | Throw e => (Throw e, w)
        | Return false => (Return false, w)
        | Return true =>
            match
              match parent with
              | VArr l =>
                  let index := ToNumber (VStr key) in
                  if isNaN index || num_lt index (Fin 0)
                     || num_ge index (num_of_nat (length l))
                  then Throw (Error ("Invalid array index: " +:+ key))
                  else Return (VArr (splice1 (to_index index) l))
              | VObj f => Return (VObj (obj_delete key f))
              | _ => Return parent
              end
            with
            | Throw e => (Throw e, w)
            | Return parent' =>
                (set ds (write_back (removelast (split_dot itemPath)) parent' data) ;;;
                 _dispatchChangeEvent ds "deleteItem"
                   (VObj [("path", VStr itemPath); ("deletedValue", member parent key)]) ;;;
                 ret true) w
            end
        end
    end.
Proof.
  intros Hpath Hget Htruthy. unfold deleteItem. rewrite Hpath.
  unfold bind at 1. rewrite Hget, Htruthy. simpl.
  destruct (_navigateToPath data itemPath) as [[parent key]|e]; [|reflexivity].
  destruct (has_in key parent) as [[]|e]; try reflexivity.
  destruct parent; try reflexivity.
  simpl. destruct (_ || _ || _); reflexivity.
Qed.

(** The write, the notification and the result that end a successful
    [deleteItem]. *)
Lemma deleteItem_finish (ds : t) (itemPath : string) (w : world)
    (data' deletedValue : value) :
  data' <> VUndefined -> write_accepted ds w data' ->
  exists w'',
    (set ds data' ;;;
     _dispatchChangeEvent ds "deleteItem"
       (VObj [("path", VStr itemPath); ("deletedValue", deletedValue)]) ;;;
     ret true) w = (Return true, w'')
    /\ persisted ds w'' data'.
Proof.
  intros Hdef Hw. destruct (set_accepted ds data' w Hdef Hw) as (w' & Hset).
  destruct (set_returns ds data' w w' Hset) as [_ Hp].
  eexists. unfold bind at 1. rewrite Hset. unfold bind, ret. simpl.
  split; [reflexivity|]. unfold persisted, web_items in *. simpl.
  now destruct (storage ds).
Qed.

Lemma navigate_walk (data parent : value) (path key : string) :
  _navigateToPath data path = Return (parent, key) ->
  walk path data (removelast (split_dot path)) = Return parent.
Proof.
  unfold _navigateToPath.
  destruct (walk path data (removelast (split_dot path))); [|discriminate].
  now intros [= -> _].
Qed.

(** C7, as the code has it. With the path validated, [data] the value read
    from the store, and no segment of the path the name of a member that the
    value it is looked up in inherits (an object is asked for no name of
    [Object.prototype], an array for an index or its [length]; on
    [chrome.storage] the namespace is no name of [Object.prototype] either):
    [deleteItem(path)] returns false and leaves the store
    as it is when the data is absent or falsy, and when the path resolves up to
    its last segment and this segment is no key of the parent; it throws, the
    store left as it is, when the path does not resolve up to its last segment
    (a segment on the way is missing) or the parent is no object or array;
    when the last segment is a key of a parent object and the back end takes
    the write, the key is deleted, the data is persisted, true is returned and
    the key is absent from that parent afterward; when it is an index of a
    parent array, the element is spliced out (the array is one shorter and the
    later elements move down, so the path may still resolve), the data is
    persisted and true is returned; when it is the [length] of a parent array,
    the call throws and the store is left as it is. *)
Theorem deleteItem_outcomes (ds : t) (itemPath : string) (w : world) (data : value) :
  _validatePath itemPath = Return tt ->
  own_namespace ds ->
  get ds VUndefined w = (Return data, w) ->
  own_walk data (split_dot itemPath) = true ->
  (truthy data = false -> deleteItem ds itemPath w = (Return false, w))
  /\ (truthy data = true ->
      (forall e, _navigateToPath data itemPath = Throw e ->
                 deleteItem ds itemPath w = (Throw e, w))
      /\ (forall parent key,
            _navigateToPath data itemPath = Return (parent, key) ->
            (forall e, has_in key parent = Throw e ->
                       deleteItem ds itemPath w = (Throw e, w))
            /\ (has_in key parent = Return false ->
                deleteItem ds itemPath w = (Return false, w))
            /\ (forall f,
                  parent = VObj f -> obj_has key f = true ->
                  write_accepted ds w
                    (write_back (removelast (split_dot itemPath))
                       (VObj (obj_delete key f)) data) ->
                  exists w'',
                    deleteItem ds itemPath w = (Return true, w'')
                    /\ persisted ds w''
                         (write_back (removelast (split_dot itemPath))
                            (VObj (obj_delete key f)) data)
                    /\ _navigateToPath
                         (write_back (removelast (split_dot itemPath))
                            (VObj (obj_delete key f)) data) itemPath
                       = Return (VObj (obj_delete key f), key)
                    /\ has_in key (VObj (obj_delete key f)) = Return false)
            /\ (forall l i,
                  parent = VArr l -> array_index key = Some i -> i < length l ->
                  write_accepted ds w
                    (write_back (removelast (split_dot itemPath))
                       (VArr (splice1 i l)) data) ->
                  exists w'',
                    deleteItem ds itemPath w = (Return true, w'')
                    /\ persisted ds w''
                         (write_back (removelast (split_dot itemPath))
                            (VArr (splice1 i l)) data)
                    /\ _navigateToPath
                         (write_back (removelast (split_dot itemPath))
                            (VArr (splice1 i l)) data) itemPath
                       = Return (VArr (splice1 i l), key)
                    /\ length (splice1 i l) = length l - 1)
            /\ (forall l,
                  parent = VArr l -> key = "length" ->
                  deleteItem ds itemPath w
                  = (Throw (Error "Invalid array index: length"), w)))).
Proof.
  intros Hpath _ Hget _. split.
  - intros Hfalsy. unfold deleteItem. rewrite Hpath.
    unfold bind. now rewrite Hget, Hfalsy.
  - intros Htruthy. pose proof (deleteItem_read ds itemPath w data Hpath Hget Htruthy) as Hrun.
    split.
    + intros e Hnav. now rewrite Hrun, Hnav.
    + intros parent key Hnav. pose proof (navigate_walk _ _ _ _ Hnav) as Hwalk.
      rewrite Hnav in Hrun. split; [|split; [|split; [|split]]].
      * intros e Hin. now rewrite Hrun, Hin.
      * intros Hin. now rewrite Hrun, Hin.
      * intros f -> Hhas Hw. simpl in Hrun. rewrite Hhas in Hrun.
        destruct (deleteItem_finish ds itemPath w _ (member (VObj f) key)
                    (container_defined _ (write_back_container _ _ _ _
                       (VObj (obj_delete key f)) Hwalk eq_refl)) Hw)
          as (w'' & Hfin & Hp).
        exists w''. rewrite Hrun. split; [exact Hfin|]. split; [exact Hp|]. split.
        -- now apply (navigate_write_back data (VObj f)).
        -- simpl. unfold obj_has. now rewrite obj_get_delete.
      * intros l i -> Hi Hlt Hw.
        destruct (index_in_bounds key i l Hi Hlt) as [Hguard Hindex].
        cbn [has_in] in Hrun. rewrite Hi, (proj2 (Nat.ltb_lt _ _) Hlt) in Hrun.
        cbv zeta in Hrun. rewrite Hguard, Hindex in Hrun.
        destruct (deleteItem_finish ds itemPath w _ (member (VArr l) key)
                    (container_defined _ (write_back_container _ _ _ _
                       (VArr (splice1 i l)) Hwalk eq_refl)) Hw)
          as (w'' & Hfin & Hp).
        exists w''. rewrite Hrun. split; [exact Hfin|]. split; [exact Hp|]. split.
        -- now apply (navigate_write_back data (VArr l)).
        -- now apply splice1_length.
      * intros l -> ->. rewrite Hrun. cbn [has_in].
        change (array_index "length") with (@None nat). cbv iota.
        change (String.eqb "length" "length") with true. cbv iota zeta.
        unfold ToNumber. rewrite (string_to_number_name "l" "ength" eq_refl) by discriminate.
        reflexivity.
Qed.

End Store.
End StoreFacts.

(** ** The structured store on the inputs of the specification *)

Module StoreExamples.
Import JsString DataStore DataStoreFacts StoreFacts Reference ReferenceFacts.

Definition one : value := VNum (Fin 1).
Definition two : value := VNum (Fin 2).

Definition pantry : value :=
  VObj [("shelves", VArr [VObj [("name", VStr "top"); ("price", VNum (Fin (5 # 2)))];
                          VArr []; VObj []]);
        ("open", VBool true); ("note", VNull)].

(** *** In an extension, on [chrome.storage.local] *)

Section Extension.
#[local] Existing Instance extension.

Definition settings : t :=
  {| namespace := "settings"; type := "local"; storage := ChromeArea "local" |}.

(** The world in which [v] is stored under the namespace [settings]. *)
Definition holding (v : value) : world :=
  {| chrome_items := {[ ("local", "settings") := v ]};
     local_items := ∅;
     session_items := ∅;
     dispatched := [] |}.

Example constructor_in_extension :
  constructor (VStr "settings") (VStr "local") = Return settings.
Proof. reflexivity. Qed.

Example constructor_unknown_type :
  constructor (VStr "settings") (VNum (Fin 7)) = Return settings
  /\ constructor (VStr "settings") (VStr "cloud") = Return settings.
Proof. split; reflexivity. Qed.

(** [constructor_type_fallback] at the type [cloud]. *)
Lemma constructor_type_fallback_witness :
  exists ds, constructor (VStr "settings") (VStr "cloud") = Return ds
             /\ DataStore.type ds = "local".
Proof.
  exists settings. split; [reflexivity|].
  refine (proj2 (constructor_type_fallback (VStr "settings") (VStr "cloud")) _
            settings eq_refl).
  intros s [= <-] Hin. vm_compute in Hin.
  repeat (apply elem_of_cons in Hin as [Hin|Hin]; [discriminate|]).
  now apply elem_of_nil in Hin.
Defined.

Example constructor_rejects :
  constructor (VStr "") VUndefined = Throw (Error "Namespace cannot be empty")
  /\ constructor (VStr "   ") VUndefined = Throw (Error "Namespace cannot be empty")
  /\ constructor (VNum (Fin 1)) VUndefined = Throw (TypeError "Namespace must be a string")
  /\ constructor (VStr "a b") VUndefined
     = Throw (Error "Namespace contains invalid characters. Only alphanumeric, dots, underscores, and hyphens are allowed").
Proof. repeat split; reflexivity. Qed.

Example merge_shallow :
  fst (merge settings (VObj [("a", one)]) false
         (holding (VObj [("a", VNum (Fin 0)); ("b", two)])))
  = Return (VObj [("a", one); ("b", two)]).
Proof. vm_compute. reflexivity. Qed.

Example merge_deep :
  fst (merge settings (VObj [("a", VObj [("x", one)])]) true
         (holding (VObj [("a", VObj [("y", two)])])))
  = Return (VObj [("a", VObj [("y", two); ("x", one)])]).
Proof. vm_compute. reflexivity. Qed.

Example merge_deep_replaces_arrays :
  fst (merge settings (VObj [("a", VArr [one]); ("b", one)]) true
         (holding (VObj [("a", VArr [two; two]); ("b", VObj [("y", two)])])))
  = Return (VObj [("a", VArr [one]); ("b", one)]).
Proof. vm_compute. reflexivity. Qed.

Example merge_rejects_array_argument :
  fst (merge settings (VArr []) false (holding (VObj [])))
  = Throw (TypeError "Data to merge must be a plain object")
  /\ fst (merge settings VNull false (holding (VObj [])))
     = Throw (TypeError "Data to merge must be a plain object").
Proof. split; reflexivity. Qed.

Example merge_rejects_stored_array :
  fst (merge settings (VObj [("a", one)]) false (holding (VArr [])))
  = Throw (Error "Cannot merge with non-object data")
  /\ fst (merge settings (VObj [("a", one)]) false (holding (VStr "text")))
     = Throw (Error "Cannot merge with non-object data").
Proof. split; vm_compute; reflexivity. Qed.

(** C6 fails on the code: with [null] as the stored data, which is not an
    object, [merge({a:1})] does not fail; it returns [{a:1}] and stores it. *)
Lemma merge_on_stored_null :
  get settings (VObj []) (holding VNull) = (Return VNull, holding VNull)
  /\ fst (merge settings (VObj [("a", one)]) false (holding VNull))
     = Return (VObj [("a", one)])
  /\ chrome_items (snd (merge settings (VObj [("a", one)]) false (holding VNull)))
       !! ("local", "settings") = Some (VObj [("a", one)]).
Proof. vm_compute. auto. Qed.

(** C4 fails on the code. In an extension the valid namespace [__proto__]
    gives an instance under which nothing is stored, and [get(d)] does not
    resolve with the default [d]: the read [result[this.namespace]] finds
    [Object.prototype], an object, and [get] resolves with it. *)
Theorem get_finds_inherited_member :
  exists ds,
    constructor (VStr "__proto__") VUndefined = Return ds
    /\ storage ds = ChromeArea "local"
    /\ never_written ds empty_world
    /\ get ds (VStr "none") empty_world = (Return (VObj []), empty_world).
Proof. eexists. repeat split; vm_compute; reflexivity. Qed.

Definition nested : value := VObj [("a", VObj [("b", one); ("c", two)])].

(** C7 fails as stated. On the stored object [{}] the path [a.b] does not
    exist, and [deleteItem] throws instead of returning false; on the stored
    array [[1, 2]] the path [0] exists and is deleted, and it still exists
    afterward (it leads to the former second element). *)
Lemma deleteItem_missing_segment_throws :
  deleteItem settings "a.b" (holding (VObj []))
  = (Throw (Error ("Path " +:+ quoted "a.b" +:+ " not found")), holding (VObj []))
  /\ fst (deleteItem settings "0" (holding (VArr [one; two]))) = Return true
  /\ chrome_items (snd (deleteItem settings "0" (holding (VArr [one; two]))))
       !! ("local", "settings") = Some (VArr [two])
  /\ has_in "0" (VArr [two]) = Return true.
Proof. vm_compute. auto. Qed.

(** [deleteItem_outcomes] at the path [a.b] of [{a: {b: 1, c: 2}}]. *)
Lemma deleteItem_outcomes_witness :
  exists w'',
    deleteItem settings "a.b" (holding nested) = (Return true, w'')
    /\ persisted settings w'' (VObj [("a", VObj [("c", two)])])
    /\ _navigateToPath (VObj [("a", VObj [("c", two)])]) "a.b"
       = Return (VObj [("c", two)], "b")
    /\ has_in "b" (VObj [("c", two)]) = Return false.
Proof.
  assert (_validatePath "a.b" = Return tt) as Hpath by reflexivity.
  assert (own_namespace settings) as Hown by reflexivity.
  assert (get settings VUndefined (holding nested) = (Return nested, holding nested))
    as Hget by (vm_compute; reflexivity).
  assert (own_walk nested (split_dot "a.b") = true) as Hsegments by reflexivity.
  destruct (deleteItem_outcomes settings "a.b" (holding nested) nested
              Hpath Hown Hget Hsegments)
    as [_ Htruthy].
  destruct (Htruthy eq_refl) as [_ Hnav].
  assert (_navigateToPath nested "a.b" = Return (VObj [("b", one); ("c", two)], "b"))
    as Hparent by reflexivity.
  destruct (Hnav (VObj [("b", one); ("c", two)]) "b" Hparent) as (_ & _ & Hobj & _).
  apply (Hobj [("b", one); ("c", two)] eq_refl eq_refl).
  reflexivity.
Defined.

Example deleteItem_length_of_array :
  deleteItem settings "length" (holding (VArr [one; two]))
  = (Throw (Error "Invalid array index: length"), holding (VArr [one; two])).
Proof. vm_compute. reflexivity. Qed.

Example set_then_get_in_extension :
  exists w', set settings pantry (holding one) = (Return tt, w')
             /\ get settings VNull w' = (Return pantry, w').
Proof. eexists. split; vm_compute; reflexivity. Qed.

End Extension.

(** *** On a page, on [localStorage] *)

Section Page.
#[local] Existing Instance page.

Definition items : t :=
  {| namespace := "groceries.items"; type := "local"; storage := LocalStorage |}.

Example constructor_on_page :
  constructor (VStr "groceries.items") VUndefined = Return items.
Proof. reflexivity. Qed.

(** [constructor_accepts_valid_namespaces] at the namespace of the catalog. *)
Lemma constructor_accepts_witness :
  exists ds, constructor (VStr "groceries.items") VUndefined = Return ds.
Proof.
  apply (proj1 (constructor_accepts_valid_namespaces (VStr "groceries.items") VUndefined)).
  exists "groceries.items". split; [reflexivity|]. split; [simpl; lia|].
  intros c Hc. apply namespace_char_alphabet. revert c Hc.
  apply all_chars_spec. reflexivity.
Defined.

(** [set_then_get] with a nested object, on [localStorage], and with the
    default [undefined]. *)
Lemma set_then_get_witness :
  (exists w', set items pantry empty_world = (Return tt, w')
              /\ get items VUndefined w' = (Return pantry, w'))
  /\ get items VUndefined empty_world = (Return VUndefined, empty_world).
Proof.
  destruct (set_then_get items I I) as [Hround Hdefault]. split.
  - apply (Hround pantry VUndefined empty_world); reflexivity.
  - apply Hdefault. vm_compute. reflexivity.
Defined.

End Page.
End StoreExamples.

(** * The other methods of the store *)

(** ** dataStore.js: [add], [update], [appendItem], [editItem] *)

Module DataStoreOps.
Import JsString DataStore.

Section Ops.
Context `{Engine} `{Browser}.

(** [JSON.stringify(v)], which is [undefined] for [undefined]. *)
Definition stringify_opt (v : value) : option string :=
  match v with VUndefined => None | _ => Some (JSON_stringify v) end.

(** [data.some(item => JSON.stringify(item) === JSON.stringify(value))] *)
Definition same_text (v : value) (l : list value) : bool :=
  existsb (fun item => bool_decide (stringify_opt item = stringify_opt v)) l.

(** [add(value, allowDuplicates)] *)
Definition add (ds : t) (v : value) (allowDuplicates : bool) : M nat :=
  if nullish v
  then throw (Error ("Cannot add undefined or null value to " +:+ quoted (namespace ds)))
  else
    data <- get ds (VArr []) ;;
    match data with
    | VArr l =>
        if negb allowDuplicates && same_text v l
        then throw (Error "Duplicate value not allowed")
        else set ds (VArr (l ++ [v])) ;;; ret (length (l ++ [v]))
    | _ => throw (Error (quoted (namespace ds) +:+ " does not contain an array"))
    end.

(** [update(updater, defaultValue)]; the updater is a function of the
    language, which returns or throws. *)
Definition update (ds : t) (updater : value -> outcome value) (defaultValue : value)
  : M value :=
  currentData <- get ds defaultValue ;;
  match updater currentData with
  | Throw e => throw e
  | Return newData => set ds newData ;;; ret newData
  end.

(** The character of a string at an index, as a string. *)
Definition char_at (s : string) (i : nat) : value :=
  match String.get i s with
  | Some c => VStr (String c EmptyString)
  | None => VUndefined
  end.

(** [parent[key]] on any value: a read through [null] or [undefined]
    throws. *)
Definition read_member (parent : value) (key : string) : outcome value :=
  match parent with
  | VUndefined | VNull =>
      Throw (TypeError "Cannot read properties of null or undefined")
  | VStr s =>
      Return match array_index key with
             | Some i => char_at s i
             | None => if String.eqb key "length"
                       then VNum (num_of_nat (String.length s)) else VUndefined
             end
  | _ => Return (member parent key)
  end.

(** [appendItem(itemPath, value)] *)
Definition appendItem (ds : t) (itemPath : string) (v : value) : M nat :=
  if nullish v
  then throw (Error ("Cannot add undefined or null value to " +:+ quoted itemPath))
  else
    match _validatePath itemPath with
    | Throw e => throw e
    | Return _ =>
        data <- get ds VUndefined ;;
        if negb (truthy data)
        then throw (Error ("No data found in namespace " +:+ quoted (namespace ds)))
        else
          match _navigateToPath data itemPath with
          | Throw e => throw e
          | Return (parent, key) =>
              match read_member parent key with
              | Throw e => throw e
              | Return (VArr l) =>
                  set ds (write_back (split_dot itemPath) (VArr (l ++ [v])) data) ;;;
                  ret (length (l ++ [v]))
              | Return _ =>
                  throw (Error ("Path " +:+ quoted itemPath
                                +:+ " does not point to an array"))
              end
          end
    end.

(** [parent[key]] becomes [child]: on an object an own property, in its
    place if the object has the key and last if not; on an array an element,
    after holes (which read [undefined]) when the index is beyond the end.
    Another property of an array is not part of what is serialized. *)
Definition put_member (parent : value) (key : string) (child : value) : value :=
  match parent with
  | VObj f => VObj (obj_set key child f)
  | VArr l =>
      match array_index key with
      | Some i =>
          VArr (if (i <? length l)%nat then <[i := child]> l
                else l ++ replicate (i - length l) VUndefined ++ [child])
      | None => parent
      end
  | _ => parent
  end.

(** [array.length = v]: a length is an integer from 0 to 2^32 - 1. *)
Definition set_length (l : list value) (v : value) : outcome value :=
  match ToNumber v with
  | Fin q =>
      if Qeq_bool (inject_Z (Qfloor q)) q && (0 <=? Qfloor q)%Z
         && (Qfloor q <? 2 ^ 32)%Z
      then let n := Z.to_nat (Qfloor q) in
           Return (VArr (take n l ++ replicate (n - length l) VUndefined))
      else Throw (DOMException "RangeError" "Invalid array length")
  | _ => Throw (DOMException "RangeError" "Invalid array length")
  end.

(** [parent[key] = value] in strict code.  (The RangeError of an array is
    given by its name and message.) *)
Definition assign_member (parent : value) (key : string) (v : value) : outcome value :=
  match parent with
  | VObj _ => Return (put_member parent key v)
  | VArr l =>
      match array_index key with
      | Some _ => Return (put_member parent key v)
      | None => if String.eqb key "length" then set_length l v else Return parent
      end
  | VUndefined | VNull =>
      Throw (TypeError "Cannot set properties of null or undefined")
  | _ => Throw (TypeError "Cannot create property on a primitive")
  end.

(** What [editItem] does with the data it read: [_navigateToPath(data,
    itemPath, createPath)] through [pathParts], the test of [key in parent],
    the read of the old value and the assignment.  The result is the data
    after the changes made in place, and the old value.  As [has_in] and
    [member], it is the code for segments that name no inherited member:
    under a name of [Object.prototype] the code finds something in an empty
    object, creates nothing and goes on from what it found. *)
Fixpoint edit_walk (create : bool) (path : string) (parent : value)
    (pathParts : list string) (key : string) (v : value) : outcome (value * value) :=
  match pathParts with
  | [] =>
      match (if create then Return true else has_in key parent) with
      | Throw e => Throw e
      | Return false => Throw (Error ("Path " +:+ quoted path +:+ " not found"))
      | Return true =>
          match read_member parent key with
          | Throw e => Throw e
          | Return oldValue =>
              match assign_member parent key v with
              | Throw e => Throw e
              | Return parent' => Return (parent', oldValue)
              end
          end
      end
  | part :: rest =>
      if nullish parent
      then Throw (Error ("Cannot navigate through null/undefined at path " +:+ quoted path))
      else
        match has_in part parent with
        | Throw e => Throw e
        | Return present =>
            if negb present && negb create
            then Throw (Error ("Path " +:+ quoted path +:+ " not found"))
            else
              let child := if present then member parent part else VObj [] in
              match edit_walk create path child rest key v with
              | Throw e => Throw e
              | Return (child', oldValue) => Return (put_member parent part child', oldValue)
              end
        end
  end.

(** [editItem(itemPath, value, createPath)] *)
Definition editItem (ds : t) (itemPath : string) (v : value) (createPath : bool)
  : M unit :=
  match _validatePath itemPath with
  | Throw e => throw e
  | Return _ =>
      data <- get ds VUndefined ;;
      if negb (truthy data) && negb createPath
      then throw (Error ("No data found in namespace " +:+ quoted (namespace ds)))
      else
        let data := if truthy data then data else VObj [] in
        let pathParts := split_dot itemPath in
        match edit_walk createPath itemPath data (removelast pathParts)
                (List.last pathParts "") v with
        | Throw e => throw e
        | Return (data', oldValue) =>
            set ds data' ;;;
            _dispatchChangeEvent ds "edit"
              (VObj [("path", VStr itemPath); ("oldValue", oldValue); ("newValue", v)])
        end
  end.

(** *** The terms of the properties of these methods *)

(** The objects of the value, at any depth below objects, have no key
    twice (as every object of the language). *)
Fixpoint distinct_keys (v : value) : bool :=
  match v with
  | VObj f => bool_decide (NoDup f.*1) && forallb (fun kv => distinct_keys (snd kv)) f
  | _ => true
  end.

(** The value [_deepMerge] gives a key of the source. *)
Definition merged_value (sv : value) (tv : option value) : value :=
  match sv, tv with
  | VObj _, Some (VObj _ as tv) => _deepMerge tv sv
  | _, _ => sv
  end.

(** The two notifications of an [editItem] that returns. *)
Definition edit_events (ds : t) (itemPath : string) (data' oldValue v : value)
  : list change_event :=
  [{| ev_namespace := namespace ds; ev_type := "set"; ev_data := data' |};
   {| ev_namespace := namespace ds; ev_type := "edit";
      ev_data := VObj [("path", VStr itemPath); ("oldValue", oldValue);
                       ("newValue", v)] |}].

(** [{k1: {k2: ... {kn: v}}}] *)
Fixpoint nest (keys : list string) (v : value) : value :=
  match keys with
  | [] => v
  | key :: rest => VObj [(key, nest rest v)]
  end.

End Ops.
End DataStoreOps.

Module StoreOpsFacts.
Import JsString JsStringFacts DataStore StoreFacts DataStoreOps.

Section OpsFacts.
Context `{Engine} `{Browser}.

(** [get] reads only. *)
Lemma get_world (ds : t) (d : value) (w : world) : snd (get ds d w) = w.
Proof.
  unfold get. destruct (storage ds) as [area| |].
  - destruct (chrome_lastError OpGet area (namespace ds)); [reflexivity|].
    destruct (chrome_items w !! (area, namespace ds)) as [[]|];
      try reflexivity; now destruct (String.eqb (namespace ds) "__proto__").
  - destruct (web_items _ w !! namespace ds) as [item|]; [|reflexivity].
    destruct (JSON_parse item); reflexivity.
  - destruct (web_items _ w !! namespace ds) as [item|]; [|reflexivity].
    destruct (JSON_parse item); reflexivity.
Qed.

Lemma get_result (ds : t) (d : value) (w w' : world) (r : outcome value) :
  get ds d w = (r, w') -> w' = w.
Proof. intros E. pose proof (get_world ds d w) as Hw. rewrite E in Hw. exact Hw. Qed.

(** A [set] that throws has written nothing and notified nobody. *)
Lemma set_throws_world (ds : t) (v : value) (w w' : world) (e : exn) :
  set ds v w = (Throw e, w') -> w' = w.
Proof.
  unfold set. destruct (_validateValue v); [|now intros [= _ <-]].
  destruct (storage ds) as [area| |] eqn:Es.
  - unfold bind, chrome_set, _dispatchChangeEvent.
    destruct (chrome_lastError OpSet area (namespace ds)); [|discriminate].
    now intros [= _ <-].
  - unfold try_catch, bind, web_setItem, _dispatchChangeEvent, throw, web_items.
    rewrite Es.
    destruct (setItem_error (local_items w) (namespace ds) (JSON_stringify v))
      as [[name msg]|]; [|discriminate].
    simpl. destruct (String.eqb name "QuotaExceededError"); now intros [= _ <-].
  - unfold try_catch, bind, web_setItem, _dispatchChangeEvent, throw, web_items.
    rewrite Es.
    destruct (setItem_error (session_items w) (namespace ds) (JSON_stringify v))
      as [[name msg]|]; [|discriminate].
    simpl. destruct (String.eqb name "QuotaExceededError"); now intros [= _ <-].
Qed.

(** The world after [m ;;; ret a] when [m] is a [set]. *)
Lemma set_then_ret {A : Type} (ds : t) (v : value) (a : A) (w : world) :
  (set ds v ;;; ret a) w =
    match set ds v w with
    | (Return _, w') => (Return a, w')
    | (Throw e, w') => (Throw e, w')
    end.
Proof. unfold bind, ret. now destruct (set ds v w) as [[[]|e] w']. Qed.

Lemma set_then_ret_throws {A : Type} (ds : t) (v : value) (a : A) (w w' : world) (e : exn) :
  (set ds v ;;; ret a) w = (Throw e, w') -> w' = w.
Proof.
  rewrite set_then_ret. destruct (set ds v w) as [[[]|e'] w1] eqn:Es; [discriminate|].
  intros [= _ <-]. now apply (set_throws_world ds v w w1 e').
Qed.

(** *** [add] *)

(** X1. On a stored array (the empty array when nothing is stored), [add]
    of a value that is neither [null] nor [undefined], with duplicates allowed
    or no element of the same JSON text, persists the array with the value
    appended and returns its new length, when the back end takes the write. *)
Theorem add_appends (ds : t) (v : value) (allowDuplicates : bool) (w : world)
    (l : list value) :
  nullish v = false ->
  get ds (VArr []) w = (Return (VArr l), w) ->
  allowDuplicates = true \/ same_text v l = false ->
  write_accepted ds w (VArr (l ++ [v])) ->
  exists w', add ds v allowDuplicates w = (Return (S (length l)), w')
             /\ persisted ds w' (VArr (l ++ [v])).
Proof.
  intros Hv Hget Hdup Hw. unfold add. rewrite Hv. unfold bind at 1. rewrite Hget.
  assert (negb allowDuplicates && same_text v l = false) as ->.
  { destruct Hdup as [-> | ->]; [reflexivity|apply andb_false_r]. }
  destruct (set_accepted ds (VArr (l ++ [v])) w) as (w' & Hset); [discriminate|assumption|].
  exists w'. rewrite set_then_ret, Hset, length_app. simpl. rewrite Nat.add_1_r.
  split; [reflexivity|]. now apply (set_returns ds _ w w').
Qed.

(** X3. With duplicates not allowed, [add] keeps the JSON texts of the
    elements of the stored array pairwise different: if they are before an
    [add] that returns, they are in the array it persists. *)
Theorem add_keeps_texts_distinct (ds : t) (v : value) (w w' : world) (l : list value)
    (n : nat) :
  get ds (VArr []) w = (Return (VArr l), w) ->
  NoDup (stringify_opt <$> l) ->
  add ds v false w = (Return n, w') ->
  NoDup (stringify_opt <$> (l ++ [v])%list) /\ persisted ds w' (VArr (l ++ [v])).
Proof.
  intros Hget Hnd Hadd. unfold add in Hadd.
  destruct (nullish v); [discriminate|]. unfold bind at 1 in Hadd. rewrite Hget in Hadd.
  simpl in Hadd. destruct (same_text v l) eqn:Hsame; [discriminate|].
  rewrite set_then_ret in Hadd.
  destruct (set ds (VArr (l ++ [v])) w) as [[[]|e] w1] eqn:Hset; [|discriminate].
  injection Hadd as _ <-. split; [|now apply (set_returns ds _ w w1)].
  rewrite fmap_app. apply NoDup_app. split; [assumption|]. split; [|apply NoDup_singleton].
  intros t Ht Ht'. simpl in Ht'. apply list_elem_of_singleton in Ht'. subst t.
  apply list_elem_of_fmap in Ht as (item & Eitem & Hitem).
  unfold same_text in Hsame. apply not_true_iff_false in Hsame. apply Hsame.
  apply existsb_exists. exists item. split; [now apply list_elem_of_In|].
  now apply bool_decide_eq_true_2.
Qed.

(** *** [update] *)

(** X4. [update(updater, defaultValue)] reads the stored value (the default
    when nothing is stored) and hands it to the updater: what the updater
    returns is persisted and returned, when it is not [undefined] and the back
    end takes the write; when the updater returns [undefined] or throws,
    [update] throws and the store stays as it is. *)
Theorem update_applies (ds : t) (updater : value -> outcome value)
    (defaultValue currentData : value) (w : world) :
  get ds defaultValue w = (Return currentData, w) ->
  (forall newData,
     updater currentData = Return newData -> newData <> VUndefined ->
     write_accepted ds w newData ->
     exists w', update ds updater defaultValue w = (Return newData, w')
                /\ persisted ds w' newData)
  /\ (updater currentData = Return VUndefined ->
      update ds updater defaultValue w
      = (Throw (Error "Failed to set data: Cannot store undefined value"), w))
  /\ (forall e, updater currentData = Throw e ->
                update ds updater defaultValue w = (Throw e, w)).
Proof.
  intros Hget. unfold update. split; [|split].
  - intros newData Hup Hdef Hw. unfold bind at 1. rewrite Hget, Hup.
    destruct (set_accepted ds newData w Hdef Hw) as (w' & Hset).
    exists w'. rewrite set_then_ret, Hset. split; [reflexivity|].
    now apply (set_returns ds _ w w').
  - intros Hup. unfold bind at 1. now rewrite Hget, Hup.
  - intros e Hup. unfold bind at 1. now rewrite Hget, Hup.
Qed.

(** *** [clear] *)

(** X5. On an instance whose namespace, on [chrome.storage], is no name of
    [Object.prototype]: a [clear()] that returns leaves nothing under the
    namespace, so that a [get(d)] after it returns the default [d] whatever
    was stored before; it dispatches one notification of kind [clear] with
    the payload [null]; and on Web storage it always returns. *)
Theorem clear_then_get (ds : t) (w : world) :
  reads_ok ds -> own_namespace ds ->
  (forall w', clear ds w = (Return tt, w') ->
     (forall d, get ds d w' = (Return d, w'))
     /\ dispatched w' = (dispatched w ++
          [{| ev_namespace := namespace ds; ev_type := "clear"; ev_data := VNull |}])%list)
  /\ ((forall area, storage ds <> ChromeArea area) ->
      exists w', clear ds w = (Return tt, w')).
Proof.
  intros Hread Hown. split.
  - intros w' Hclear. split.
    + intros d. apply get_never_written; [assumption|assumption|].
      now apply (clear_never_written ds w w').
    + revert Hclear. unfold clear, _dispatchChangeEvent.
      destruct (storage ds) as [area| |].
      * destruct (chrome_lastError OpRemove area (namespace ds)); [discriminate|].
        now intros [= <-].
      * now intros [= <-].
      * now intros [= <-].
  - intros Hweb. unfold clear, _dispatchChangeEvent.
    destruct (storage ds) as [area| |]; [now destruct (Hweb area)|eauto|eauto].
Qed.

(** *** Failures and the other namespaces *)

(** X6. A method of the store that throws has changed nothing: neither
    the storage nor the list of notifications.  This holds for [set], [merge],
    [deleteItem], [add], [update], [appendItem] and [clear]. *)
Theorem throwing_changes_nothing (ds : t) (w w' : world) (e : exn) :
  (forall v, set ds v w = (Throw e, w') -> w' = w)
  /\ (forall newData deep, merge ds newData deep w = (Throw e, w') -> w' = w)
  /\ (forall itemPath, deleteItem ds itemPath w = (Throw e, w') -> w' = w)
  /\ (forall v allowDuplicates, add ds v allowDuplicates w = (Throw e, w') -> w' = w)
  /\ (forall updater d, update ds updater d w = (Throw e, w') -> w' = w)
  /\ (forall itemPath v, appendItem ds itemPath v w = (Throw e, w') -> w' = w)
  /\ (clear ds w = (Throw e, w') -> w' = w).
Proof.
  split; [|split; [|split; [|split; [|split; [|split]]]]].
  - intros v. apply set_throws_world.
  - intros newData deep. unfold merge.
    destruct (negb (typeof_object newData) || _ || isArray newData);
      [now intros [= _ <-]|].
    unfold bind at 1. destruct (get ds (VObj []) w) as [[cur|e'] w1] eqn:Hget;
      apply get_result in Hget; subst w1; [|now intros [= _ <-]].
    destruct (negb (typeof_object cur) || isArray cur); [now intros [= _ <-]|].
    cbv zeta. apply set_then_ret_throws.
  - intros itemPath. unfold deleteItem.
    destruct (_validatePath itemPath); [|now intros [= _ <-]].
    unfold bind at 1. destruct (get ds VUndefined w) as [[data|e'] w1] eqn:Hget;
      apply get_result in Hget; subst w1; [|now intros [= _ <-]].
    destruct (negb (truthy data)); [discriminate|].
    destruct (_navigateToPath data itemPath) as [[parent key]|e']; [|now intros [= _ <-]].
    destruct (has_in key parent) as [[]|e']; [|discriminate|now intros [= _ <-]].
    cbv zeta.
    match goal with
    | |- context [match ?r with Return _ => _ | Throw _ => _ end] =>
        destruct r as [parent'|e']; [|now intros [= _ <-]]
    end.
    unfold bind at 1.
    destruct (set ds _ w) as [[[]|e'] w1] eqn:Hset.
    + unfold bind, _dispatchChangeEvent, ret. discriminate.
    + intros [= _ <-]. eapply set_throws_world. exact Hset.
  - intros v allowDuplicates. unfold add. destruct (nullish v); [now intros [= _ <-]|].
    unfold bind at 1. destruct (get ds (VArr []) w) as [[data|e'] w1] eqn:Hget;
      apply get_result in Hget; subst w1; [|now intros [= _ <-]].
    destruct data; try (now intros [= _ <-]).
    destruct (negb allowDuplicates && same_text v elems); [now intros [= _ <-]|].
    apply set_then_ret_throws.
  - intros updater d. unfold update.
    unfold bind at 1. destruct (get ds d w) as [[cur|e'] w1] eqn:Hget;
      apply get_result in Hget; subst w1; [|now intros [= _ <-]].
    destruct (updater cur); [|now intros [= _ <-]].
    apply set_then_ret_throws.
  - intros itemPath v. unfold appendItem. destruct (nullish v); [now intros [= _ <-]|].
    destruct (_validatePath itemPath); [|now intros [= _ <-]].
    unfold bind at 1. destruct (get ds VUndefined w) as [[data|e'] w1] eqn:Hget;
      apply get_result in Hget; subst w1; [|now intros [= _ <-]].
    destruct (negb (truthy data)); [now intros [= _ <-]|].
    destruct (_navigateToPath data itemPath) as [[parent key]|e']; [|now intros [= _ <-]].
    destruct (read_member parent key) as [x|e']; [|now intros [= _ <-]].
    destruct x; try (now intros [= _ <-]).
    apply set_then_ret_throws.
  - unfold clear, _dispatchChangeEvent. destruct (storage ds) as [area| |];
      [|discriminate|discriminate].
    destruct (chrome_lastError OpRemove area (namespace ds)); [|discriminate].
    now intros [= _ <-].
Qed.

(** The world after a [set(v)] that returns. *)
Definition written (ds : t) (v : value) (w : world) : world :=
  {| chrome_items :=
       match storage ds with
       | ChromeArea area => <[(area, namespace ds) := v]> (chrome_items w)
       | _ => chrome_items w
       end;
     local_items :=
       match storage ds with
       | LocalStorage => <[namespace ds := JSON_stringify v]> (local_items w)
       | _ => local_items w
       end;
     session_items :=
       match storage ds with
       | SessionStorage => <[namespace ds := JSON_stringify v]> (session_items w)
       | _ => session_items w
       end;
     dispatched := dispatched w ++
       [{| ev_namespace := namespace ds; ev_type := "set"; ev_data := v |}] |}.

Lemma set_returns_written (ds : t) (v : value) (w w' : world) :
  set ds v w = (Return tt, w') -> w' = written ds v w.
Proof.
  unfold set, written. destruct (_validateValue v); [|discriminate].
  destruct (storage ds) as [area| |] eqn:Es.
  - unfold bind, chrome_set, _dispatchChangeEvent.
    destruct (chrome_lastError OpSet area (namespace ds)); [discriminate|].
    now intros [= <-].
  - unfold try_catch, bind, web_setItem, _dispatchChangeEvent, throw, web_items.
    rewrite Es.
    destruct (setItem_error (local_items w) (namespace ds) (JSON_stringify v))
      as [[name msg]|].
    + simpl. destruct (String.eqb name "QuotaExceededError"); discriminate.
    + now intros [= <-].
  - unfold try_catch, bind, web_setItem, _dispatchChangeEvent, throw, web_items.
    rewrite Es.
    destruct (setItem_error (session_items w) (namespace ds) (JSON_stringify v))
      as [[name msg]|].
    + simpl. destruct (String.eqb name "QuotaExceededError"); discriminate.
    + now intros [= <-].
Qed.

(** X7. A [set(v)] that returns dispatches one notification, of kind [set]
    with the payload [v], after those dispatched before, and it is not seen
    through another namespace or another storage object: a [get] through an
    instance with another namespace, or on another storage object, returns
    after it what it returned before. *)
Theorem set_stays_in_its_namespace (ds : t) (v : value) (w w' : world) :
  set ds v w = (Return tt, w') ->
  dispatched w' = (dispatched w ++
     [{| ev_namespace := namespace ds; ev_type := "set"; ev_data := v |}])%list
  /\ (forall (other : t) (d : value),
        (storage ds, namespace ds) <> (storage other, namespace other) ->
        get other d w' = (fst (get other d w), w')).
Proof.
  intros Hset. apply set_returns_written in Hset. subst w'. split; [reflexivity|].
  intros other d Hne. unfold get, written, web_items. simpl.
  destruct (storage other) as [area'| |] eqn:Eo; destruct (storage ds) as [area| |] eqn:Es;
    simpl; try reflexivity.
  - rewrite lookup_insert_ne by congruence.
    destruct (chrome_lastError OpGet area' (namespace other)); [reflexivity|].
    destruct (chrome_items w !! (area', namespace other)) as [[]|];
      try reflexivity; now destruct (String.eqb (namespace other) "__proto__").
  - destruct (chrome_lastError OpGet area' (namespace other)); [reflexivity|].
    destruct (chrome_items w !! (area', namespace other)) as [[]|];
      try reflexivity; now destruct (String.eqb (namespace other) "__proto__").
  - destruct (chrome_lastError OpGet area' (namespace other)); [reflexivity|].
    destruct (chrome_items w !! (area', namespace other)) as [[]|];
      try reflexivity; now destruct (String.eqb (namespace other) "__proto__").
  - destruct (local_items w !! namespace other) as [item|]; [|reflexivity].
    destruct (JSON_parse item); reflexivity.
  - rewrite lookup_insert_ne by congruence.
    destruct (local_items w !! namespace other) as [item|]; [|reflexivity].
    destruct (JSON_parse item); reflexivity.
  - destruct (local_items w !! namespace other) as [item|]; [|reflexivity].
    destruct (JSON_parse item); reflexivity.
  - destruct (session_items w !! namespace other) as [item|]; [|reflexivity].
    destruct (JSON_parse item); reflexivity.
  - destruct (session_items w !! namespace other) as [item|]; [|reflexivity].
    destruct (JSON_parse item); reflexivity.
  - rewrite lookup_insert_ne by congruence.
    destruct (session_items w !! namespace other) as [item|]; [|reflexivity].
    destruct (JSON_parse item); reflexivity.
Qed.

(** *** [appendItem] *)

Lemma split_dot_nonempty (s : string) : split_dot s <> [].
Proof.
  destruct s as [|c r]; simpl; [discriminate|].
  destruct (Ascii.eqb c "."); [discriminate|]. now destruct (split_dot r).
Qed.

Lemma split_dot_last (s : string) :
  split_dot s = (removelast (split_dot s) ++ [List.last (split_dot s) ""])%list.
Proof. apply app_removelast_last, split_dot_nonempty. Qed.

Lemma walk_snoc (path : string) (pathParts : list string) (key : string) :
  forall data,
    walk path data (pathParts ++ [key]) =
      match walk path data pathParts with
      | Throw e => Throw e
      | Return parent => walk path parent [key]
      end.
Proof.
  induction pathParts as [|part rest IH]; intros data; [reflexivity|].
  simpl. destruct (nullish data); [reflexivity|].
  destruct (has_in part data) as [[]|e]; [apply IH|reflexivity|reflexivity].
Qed.

(** A path that leads to a parent whose member is an array leads, taken to
    its end, to that array. *)
Lemma walk_to_array (data parent : value) (path key : string) (l : list value) :
  _navigateToPath data path = Return (parent, key) ->
  read_member parent key = Return (VArr l) ->
  walk path data (split_dot path) = Return (VArr l).
Proof.
  unfold _navigateToPath. intros Hnav Hread.
  rewrite split_dot_last, walk_snoc.
  destruct (walk path data (removelast (split_dot path))) as [p|e]; [|discriminate].
  injection Hnav as -> <-. simpl.
  destruct parent as [| |b|n|s|l0|f]; simpl in Hread; try discriminate.
  - destruct (array_index _); [unfold char_at in Hread; destruct (String.get _ _)|
                               destruct (String.eqb _ _)]; discriminate.
  - injection Hread as Hread. unfold has_in, member.
    destruct (array_index (List.last (split_dot path) "")) as [i|].
    + destruct (l0 !! i) as [x|] eqn:Ex; [|discriminate].
      rewrite (proj2 (Nat.ltb_lt _ _) (lookup_lt_Some _ _ _ Ex)).
      now rewrite Hread.
    + destruct (String.eqb _ "length"); discriminate.
  - injection Hread as Hread. unfold has_in, member, obj_has.
    destruct (obj_get (List.last (split_dot path) "") f); [now subst|discriminate].
Qed.

(** Conversely, a path that can be walked to its end leads to a parent of
    which the end is a member. *)
Lemma navigate_of_walk (data node : value) (path : string) :
  walk path data (split_dot path) = Return node ->
  exists parent,
    _navigateToPath data path = Return (parent, List.last (split_dot path) "")
    /\ read_member parent (List.last (split_dot path) "") = Return node.
Proof.
  rewrite split_dot_last at 1. rewrite walk_snoc. unfold _navigateToPath.
  destruct (walk path data (removelast (split_dot path))) as [p|e]; [|discriminate].
  simpl. destruct (nullish p) eqn:Hnull; [discriminate|].
  destruct (has_in (List.last (split_dot path) "") p) as [[]|e] eqn:Hin; try discriminate.
  intros [= <-]. exists p. split; [reflexivity|].
  destruct p; simpl in Hin; try discriminate; reflexivity.
Qed.

(** X8. When the path leads to an array of the stored data, [appendItem] of
    a value that is neither [null] nor [undefined] persists the data with the
    value appended to that array and returns the new length of the array, when
    the back end takes the write; in the persisted data the path leads to the
    longer array. *)
Theorem appendItem_appends (ds : t) (itemPath : string) (v : value) (w : world)
    (data parent : value) (key : string) (l : list value) :
  nullish v = false ->
  _validatePath itemPath = Return tt ->
  get ds VUndefined w = (Return data, w) ->
  truthy data = true ->
  _navigateToPath data itemPath = Return (parent, key) ->
  read_member parent key = Return (VArr l) ->
  write_accepted ds w (write_back (split_dot itemPath) (VArr (l ++ [v])) data) ->
  exists w',
    appendItem ds itemPath v w = (Return (S (length l)), w')
    /\ persisted ds w' (write_back (split_dot itemPath) (VArr (l ++ [v])) data)
    /\ exists parent',
         _navigateToPath (write_back (split_dot itemPath) (VArr (l ++ [v])) data) itemPath
         = Return (parent', key)
         /\ read_member parent' key = Return (VArr (l ++ [v])).
Proof.
  intros Hv Hpath Hget Htruthy Hnav Hread Hw.
  pose proof (walk_to_array data parent itemPath key l Hnav Hread) as Hwalk.
  assert (key = List.last (split_dot itemPath) "") as Hkey.
  { unfold _navigateToPath in Hnav.
    destruct (walk itemPath data (removelast (split_dot itemPath))); [|discriminate].
    now injection Hnav as _ <-. }
  destruct (set_accepted ds (write_back (split_dot itemPath) (VArr (l ++ [v])) data) w)
    as (w' & Hset); [|assumption|].
  { apply container_defined.
    now apply (write_back_container itemPath _ data (VArr l)). }
  exists w'. split; [|split].
  - unfold appendItem. rewrite Hv, Hpath. unfold bind at 1. rewrite Hget, Htruthy.
    simpl. rewrite Hnav, Hread, set_then_ret, Hset, length_app. simpl.
    now rewrite Nat.add_1_r.
  - now apply (set_returns ds _ w w').
  - subst key. apply navigate_of_walk.
    now apply (walk_write_back itemPath _ data (VArr l)).
Qed.

(** *** [merge], twice *)

(** Induction on a value through the values of its objects. *)
Lemma value_objects_ind (P : value -> Prop) :
  (forall v, is_plain_object v = false -> P v) ->
  (forall f, Forall (fun kv => P (snd kv)) f -> P (VObj f)) ->
  forall v, P v.
Proof.
  intros Hleaf Hobj. fix IH 1. intros [| | | | | |f]; try (apply Hleaf; reflexivity).
  apply Hobj. revert f. fix IHf 1. intros [|[k v] f]; constructor.
  - apply IH.
  - apply IHf.
Qed.

Lemma obj_set_same (k : string) (v : value) (f : list (string * value)) :
  obj_get k f = Some v -> obj_set k v f = f.
Proof.
  induction f as [|[k' v'] f IH]; simpl; [discriminate|].
  destruct (String.eqb k' k) eqn:E.
  - apply String.eqb_eq in E. now intros [= ->]; subst.
  - intros Hget. now rewrite IH.
Qed.

Lemma obj_get_elem (k : string) (v : value) (f : list (string * value)) :
  NoDup f.*1 -> (k, v) ∈ f -> obj_get k f = Some v.
Proof.
  induction f as [|[k' v'] f IH]; simpl; intros Hnd Hin.
  - now apply elem_of_nil in Hin.
  - apply NoDup_cons in Hnd as [Hk Hnd]. apply elem_of_cons in Hin as [Heq|Hin].
    + injection Heq as -> ->. now rewrite String.eqb_refl.
    + destruct (String.eqb k' k) eqn:E; [|now apply IH].
      apply String.eqb_eq in E. subst k'. exfalso. apply Hk.
      apply list_elem_of_fmap. now exists (k, v).
Qed.

Lemma deepMerge_loop_fixed (src r : list (string * value)) :
  (forall k sv, (k, sv) ∈ src ->
     exists y, obj_get k r = Some y /\ merged_value sv (Some y) = y) ->
  deepMerge_loop src r = r.
Proof.
  induction src as [|[k sv] src IH]; intros Hfix; [reflexivity|].
  simpl. destruct (Hfix k sv) as (y & Hy & Hm); [left|].
  rewrite Hy. fold (merged_value sv (Some y)). rewrite Hm, (obj_set_same _ _ _ Hy).
  apply IH. intros k' sv' Hin. apply Hfix. now right.
Qed.

Lemma distinct_keys_object (f : list (string * value)) :
  distinct_keys (VObj f) = true <->
  NoDup f.*1 /\ forall k v, (k, v) ∈ f -> distinct_keys v = true.
Proof.
  simpl. rewrite andb_true_iff, bool_decide_eq_true, forallb_forall. split.
  - intros [Hnd Hall]. split; [assumption|]. intros k v Hin.
    apply (Hall (k, v)). now apply list_elem_of_In.
  - intros [Hnd Hall]. split; [assumption|]. intros [k v] Hin.
    apply (Hall k v). now apply list_elem_of_In.
Qed.

Lemma deepMerge_self (v : value) :
  is_plain_object v = true -> distinct_keys v = true -> _deepMerge v v = v.
Proof.
  induction v as [v Hleaf|f IH] using value_objects_ind; intros Hobj Hkeys.
  - congruence.
  - apply distinct_keys_object in Hkeys as [Hnd Hsub].
    rewrite deepMerge_object. simpl. f_equal.
    apply deepMerge_loop_fixed. intros k sv Hin. exists sv. split.
    + now apply obj_get_elem.
    + rewrite Forall_forall in IH. specialize (IH (k, sv) Hin). simpl in IH.
      destruct sv; try reflexivity. simpl. apply IH; [reflexivity|].
      now apply (Hsub k).
Qed.

Lemma deepMerge_twice (source : value) :
  distinct_keys source = true ->
  forall target, is_plain_object source = true ->
    _deepMerge (_deepMerge target source) source = _deepMerge target source.
Proof.
  induction source as [v Hleaf|f IH] using value_objects_ind; intros Hkeys target Hobj.
  - congruence.
  - apply distinct_keys_object in Hkeys as [Hnd Hsub].
    rewrite !deepMerge_object. simpl. f_equal.
    apply deepMerge_loop_fixed. intros k sv Hin.
    pose proof (deepMerge_get target f k Hnd) as Hget.
    rewrite deepMerge_object in Hget. simpl in Hget.
    rewrite (obj_get_elem k sv f Hnd Hin) in Hget.
    rewrite Forall_forall in IH. specialize (IH (k, sv) Hin (Hsub k sv Hin)). simpl in IH.
    destruct sv as [| | | | | |sf];
      try (eexists; split; [exact Hget|reflexivity]).
    assert (_deepMerge (VObj sf) (VObj sf) = VObj sf) as Hself
      by (apply deepMerge_self; [reflexivity|now apply (Hsub k)]).
    destruct (obj_get k (own_fields target)) as [[| | | | | |tf]|];
      try (eexists; split; [exact Hget|exact Hself]).
    exists (_deepMerge (VObj tf) (VObj sf)). split; [exact Hget|].
    rewrite deepMerge_object at 1 2. unfold merged_value.
    rewrite <- deepMerge_object. now apply IH.
Qed.

Lemma obj_spread_fixed (b r : list (string * value)) :
  (forall k v, (k, v) ∈ b -> obj_get k r = Some v) -> obj_spread r b = r.
Proof.
  unfold obj_spread. induction b as [|[k v] b IH]; intros Hfix; [reflexivity|].
  simpl. rewrite obj_set_same by (apply Hfix; left).
  apply IH. intros k' v' Hin. apply Hfix. now right.
Qed.

(** X10. Merging an object a second time changes nothing, when no object of
    the argument has a key [hasOwnProperty] or [__proto__] (with the first
    the deep merge throws, with the second it sets a prototype): the data
    [merge] makes of the result of a merge and the same argument is that
    result, for a shallow and for a deep merge. *)
Theorem merge_twice (currentData : value) (fields : list (string * value)) (deep : bool) :
  distinct_keys (VObj fields) = true ->
  merge_keys (VObj fields) = true ->
  merged_data (merged_data currentData fields deep) fields deep
  = merged_data currentData fields deep.
Proof.
  intros Hkeys _. unfold merged_data. destruct deep.
  - now apply deepMerge_twice.
  - apply distinct_keys_object in Hkeys as [Hnd _]. simpl. f_equal.
    apply obj_spread_fixed. intros k v Hin.
    now rewrite obj_spread_get, (obj_get_elem k v fields).
Qed.

(** *** [editItem] *)

(** On a path that leads to a member of the data, [editItem] changes that
    member in place, whatever [createPath] is. *)
Lemma edit_walk_existing (create : bool) (path key : string) (v : value)
    (pathParts : list string) :
  key <> "length" ->
  forall data oldValue : value,
    walk path data (pathParts ++ [key]) = Return oldValue ->
    edit_walk create path data pathParts key v
    = Return (write_back (pathParts ++ [key]) v data, oldValue)
    /\ walk path (write_back (pathParts ++ [key]) v data) (pathParts ++ [key]) = Return v
    /\ container (write_back (pathParts ++ [key]) v data) = true.
Proof.
  intros Hkey. induction pathParts as [|part rest IH]; intros data oldValue Hwalk.
  - simpl in *. destruct (nullish data) eqn:Hnull; [discriminate|].
    destruct data as [| |b|n|s|l|f]; simpl in Hwalk; try discriminate.
    + destruct (array_index key) as [i|] eqn:Ei.
      * destruct (Nat.ltb_spec i (length l)) as [Hlt|]; [|discriminate].
        destruct (lookup_lt_is_Some_2 l i Hlt) as [child Hchild].
        rewrite Hchild in Hwalk. injection Hwalk as <-.
        apply Nat.ltb_lt in Hlt as Hltb.
        destruct create; simpl;
          repeat (first [rewrite Ei | rewrite Hchild | rewrite length_insert
                        | rewrite Hltb
                        | rewrite list_lookup_insert_eq by assumption]; simpl);
          auto.
      * destruct (String.eqb_spec key "length"); [contradiction|discriminate].
    + unfold obj_has in Hwalk. destruct (obj_get key f) as [child|] eqn:Hchild;
        [|discriminate].
      injection Hwalk as <-. simpl. unfold obj_has. rewrite Hchild. simpl.
      unfold obj_has. rewrite obj_get_set, String.eqb_refl.
      destruct create; auto.
  - simpl in Hwalk. simpl edit_walk. destruct (nullish data) eqn:Hnull; [discriminate|].
    destruct data as [| |b|n|s|l|f]; simpl in Hwalk; try discriminate.
    + destruct (array_index part) as [i|] eqn:Ei.
      * destruct (Nat.ltb_spec i (length l)) as [Hlt|]; [|discriminate].
        destruct (lookup_lt_is_Some_2 l i Hlt) as [child Hchild].
        rewrite Hchild in Hwalk.
        destruct (IH child oldValue Hwalk) as (Hedit & Hback & _).
        apply Nat.ltb_lt in Hlt as Hltb. simpl.
        repeat (first [rewrite Ei | rewrite Hchild | rewrite length_insert
                      | rewrite Hltb | rewrite Hedit
                      | rewrite list_lookup_insert_eq by assumption]; simpl).
        auto.
      * destruct (String.eqb part "length"); [|discriminate].
        destruct rest; discriminate.
    + unfold obj_has in Hwalk. destruct (obj_get part f) as [child|] eqn:Hchild;
        [|discriminate].
      destruct (IH child oldValue Hwalk) as (Hedit & Hback & _).
      simpl. unfold obj_has. rewrite Hchild. simpl. rewrite Hedit. simpl.
      unfold obj_has. rewrite obj_get_set, String.eqb_refl. auto.
Qed.

Lemma walk_truthy (path key : string) (pathParts : list string) (data x : value) :
  walk path data (pathParts ++ [key]) = Return x -> truthy data = true.
Proof. destruct pathParts; simpl; destruct data; try discriminate; reflexivity. Qed.

Lemma edit_walk_creates (path key : string) (v : value) (pathParts : list string) :
  edit_walk true path (VObj []) pathParts key v
  = Return (nest (pathParts ++ [key]) v, VUndefined).
Proof.
  induction pathParts as [|part rest IH]; [reflexivity|].
  simpl. now rewrite IH.
Qed.

Lemma walk_nest (path : string) (v : value) (keys : list string) :
  walk path (nest keys v) keys = Return v.
Proof.
  induction keys as [|key rest IH]; [reflexivity|].
  simpl. unfold obj_has. simpl. now rewrite String.eqb_refl.
Qed.

(** Without [createPath], [editItem] fails where the navigation fails, and
    where the last segment is no key of the parent. *)
Lemma edit_walk_fails (path key : string) (v : value) (pathParts : list string) :
  forall data : value,
    match walk path data pathParts with
    | Throw e => edit_walk false path data pathParts key v = Throw e
    | Return parent =>
        match has_in key parent with
        | Throw e => edit_walk false path data pathParts key v = Throw e
        | Return false =>
            edit_walk false path data pathParts key v
            = Throw (Error ("Path " +:+ quoted path +:+ " not found"))
        | Return true => True
        end
    end.
Proof.
  induction pathParts as [|part rest IH]; intros data.
  - simpl. now destruct (has_in key data) as [[]|e].
  - simpl. destruct (nullish data); [reflexivity|].
    destruct (has_in part data) as [[]|e]; simpl; try reflexivity.
    specialize (IH (member data part)).
    destruct (walk path (member data part) rest) as [parent|e].
    + destruct (has_in key parent) as [[]|e]; [exact I|now rewrite IH|now rewrite IH].
    + now rewrite IH.
Qed.

(** [editItem] once the path is validated, the data is read and the change
    is made in place. *)
Lemma editItem_finish (ds : t) (itemPath : string) (v : value) (createPath : bool)
    (w : world) (data data' oldValue : value) :
  _validatePath itemPath = Return tt ->
  get ds VUndefined w = (Return data, w) ->
  negb (truthy data) && negb createPath = false ->
  edit_walk createPath itemPath (if truthy data then data else VObj [])
    (removelast (split_dot itemPath)) (List.last (split_dot itemPath) "") v
  = Return (data', oldValue) ->
  data' <> VUndefined -> write_accepted ds w data' ->
  exists w',
    editItem ds itemPath v createPath w = (Return tt, w')
    /\ persisted ds w' data'
    /\ dispatched w' = (dispatched w ++ edit_events ds itemPath data' oldValue v)%list.
Proof.
  intros Hpath Hget Hguard Hedit Hdef Hw.
  destruct (set_accepted ds data' w Hdef Hw) as (w1 & Hset).
  eexists. unfold editItem. rewrite Hpath. unfold bind at 1. rewrite Hget, Hguard.
  cbv zeta. rewrite Hedit. unfold bind. rewrite Hset. split; [reflexivity|]. split.
  - apply persisted_dispatch. now apply (set_returns ds data' w w1).
  - apply set_returns_written in Hset. subst w1. simpl.
    now rewrite <- app_assoc.
Qed.

(** X11. When the path leads to a member of the stored data (and does not
    end in the length of an array), [editItem] persists the data with the
    given value in the place of that member, when the back end takes the
    write; in the persisted data the path leads to the value, and two
    notifications are dispatched: [set] with the data, then [edit] with the
    path, the old and the new value. *)
Theorem editItem_replaces (ds : t) (itemPath : string) (v : value) (createPath : bool)
    (w : world) (data oldValue : value) :
  _validatePath itemPath = Return tt ->
  get ds VUndefined w = (Return data, w) ->
  walk itemPath data (split_dot itemPath) = Return oldValue ->
  List.last (split_dot itemPath) "" <> "length" ->
  write_accepted ds w (write_back (split_dot itemPath) v data) ->
  exists w',
    editItem ds itemPath v createPath w = (Return tt, w')
    /\ persisted ds w' (write_back (split_dot itemPath) v data)
    /\ walk itemPath (write_back (split_dot itemPath) v data) (split_dot itemPath)
       = Return v
    /\ dispatched w'
       = (dispatched w
          ++ edit_events ds itemPath (write_back (split_dot itemPath) v data) oldValue v)%list.
Proof.
  intros Hpath Hget Hwalk Hkey Hw.
  rewrite split_dot_last in Hwalk.
  pose proof (walk_truthy _ _ _ _ _ Hwalk) as Htruthy.
  destruct (edit_walk_existing createPath itemPath _ v _ Hkey data oldValue Hwalk)
    as (Hedit & Hback & Hc).
  rewrite <- split_dot_last in Hedit, Hback, Hc.
  destruct (editItem_finish ds itemPath v createPath w data
              (write_back (split_dot itemPath) v data) oldValue Hpath Hget)
    as (w' & He & Hp & Hd);
    [now rewrite Htruthy|now rewrite Htruthy|now apply container_defined|assumption|].
  exists w'. auto.
Qed.

(** X12. When nothing (or a falsy value) is stored, on a path no segment of
    which is a name of [Object.prototype] (nor, on [chrome.storage], the
    namespace), [editItem] with [createPath] persists the objects of the
    path, nested, around the value; in the persisted data the path leads to
    the value.  Without [createPath] it throws and leaves the store as it
    is. *)
Theorem editItem_creates (ds : t) (itemPath : string) (v : value) (w : world)
    (data : value) :
  _validatePath itemPath = Return tt ->
  own_namespace ds ->
  get ds VUndefined w = (Return data, w) ->
  truthy data = false ->
  forallb (fun part => negb (inherited_name part)) (split_dot itemPath) = true ->
  (write_accepted ds w (nest (split_dot itemPath) v) ->
   exists w',
     editItem ds itemPath v true w = (Return tt, w')
     /\ persisted ds w' (nest (split_dot itemPath) v)
     /\ walk itemPath (nest (split_dot itemPath) v) (split_dot itemPath) = Return v
     /\ dispatched w'
        = (dispatched w
           ++ edit_events ds itemPath (nest (split_dot itemPath) v) VUndefined v)%list)
  /\ editItem ds itemPath v false w
     = (Throw (Error ("No data found in namespace " +:+ quoted (namespace ds))), w).
Proof.
  intros Hpath _ Hget Hfalsy _. split.
  - intros Hw.
    destruct (editItem_finish ds itemPath v true w data
                (nest (split_dot itemPath) v) VUndefined Hpath Hget)
      as (w' & He & Hp & Hd); try assumption.
    + now rewrite andb_false_r.
    + rewrite Hfalsy, edit_walk_creates. now rewrite <- split_dot_last.
    + rewrite split_dot_last. now destruct (removelast (split_dot itemPath)).
    + exists w'. split; [assumption|]. split; [assumption|]. split; [|assumption].
      apply walk_nest.
  - unfold editItem. rewrite Hpath. unfold bind. now rewrite Hget, Hfalsy.
Qed.

(** X13. Without [createPath], on stored data, [editItem] throws what the
    navigation throws when the path does not resolve up to its last segment,
    and that the path is not found when the last segment is no key of the
    parent.  An [editItem] that throws, with or without [createPath], leaves
    the store as it is and dispatches nothing. *)
Theorem editItem_failures (ds : t) (itemPath : string) (v : value) (w : world) :
  (forall data, _validatePath itemPath = Return tt ->
     get ds VUndefined w = (Return data, w) -> truthy data = true ->
     (forall e, _navigateToPath data itemPath = Throw e ->
                editItem ds itemPath v false w = (Throw e, w))
     /\ (forall parent key,
           _navigateToPath data itemPath = Return (parent, key) ->
           has_in key parent = Return false ->
           editItem ds itemPath v false w
           = (Throw (Error ("Path " +:+ quoted itemPath +:+ " not found")), w)))
  /\ (forall createPath e w',
        editItem ds itemPath v createPath w = (Throw e, w') -> w' = w).
Proof.
  split.
  - intros data Hpath Hget Htruthy.
    pose proof (edit_walk_fails itemPath (List.last (split_dot itemPath) "") v
                  (removelast (split_dot itemPath)) data) as Hfail.
    unfold _navigateToPath.
    destruct (walk itemPath data (removelast (split_dot itemPath))) as [p|e0]; split.
    + discriminate.
    + intros parent key [= <- <-] Hin. rewrite Hin in Hfail.
      unfold editItem. rewrite Hpath. unfold bind. rewrite Hget, Htruthy. simpl.
      now rewrite Hfail.
    + intros e [= <-]. unfold editItem. rewrite Hpath. unfold bind.
      rewrite Hget, Htruthy. simpl. now rewrite Hfail.
    + discriminate.
  - intros createPath e w'. unfold editItem.
    destruct (_validatePath itemPath); [|now intros [= _ <-]].
    unfold bind at 1. destruct (get ds VUndefined w) as [[data|e0] w1] eqn:Hget.
    + apply get_result in Hget. subst w1.
      destruct (negb (truthy data) && negb createPath); [now intros [= _ <-]|].
      cbv zeta.
      destruct (edit_walk createPath itemPath _ _ _ v) as [[data' oldValue]|e1];
        [|now intros [= _ <-]].
      unfold bind. destruct (set ds data' w) as [[[]|e1] w1] eqn:Hset; [discriminate|].
      intros [= _ <-]. now apply (set_throws_world ds data' w w1 e1).
    + apply get_result in Hget. now intros [= _ <-].
Qed.

End OpsFacts.
End StoreOpsFacts.

(** ** The other methods of the store on concrete inputs *)

Module OpsExamples.
Import JsString DataStore StoreFacts DataStoreOps StoreOpsFacts Reference StoreExamples.

(** *** In an extension, on [chrome.storage.local] *)

Section Extension.
#[local] Existing Instance extension.

Definition shelf : value := VObj [("list", VArr [one])].

(** [add_appends] at the stored array [[2]] and the value 1. *)
Lemma add_appends_witness :
  exists w', add settings one true (holding (VArr [two])) = (Return 2%nat, w')
             /\ persisted settings w' (VArr [two; one]).
Proof.
  apply (add_appends settings one true (holding (VArr [two])) [two]).
  - reflexivity.
  - vm_compute. reflexivity.
  - now left.
  - reflexivity.
Defined.

Example add_refuses_duplicate :
  fst (add settings two false (holding (VArr [one; two])))
  = Throw (Error "Duplicate value not allowed")
  /\ fst (add settings two true (holding (VArr [one; two]))) = Return 3%nat.
Proof. split; vm_compute; reflexivity. Qed.

(** [add_keeps_texts_distinct] at the stored array [[2]] and the value 1. *)
Lemma add_keeps_texts_distinct_witness :
  NoDup (stringify_opt <$> [two; one])
  /\ persisted settings (snd (add settings one false (holding (VArr [two]))))
       (VArr [two; one]).
Proof.
  apply (add_keeps_texts_distinct settings one (holding (VArr [two])) _ [two] 2%nat).
  - vm_compute. reflexivity.
  - apply NoDup_singleton.
  - apply injective_projections; [vm_compute; reflexivity|reflexivity].
Defined.

(** [update_applies] at the stored value 1 and the updater that returns 2. *)
Lemma update_applies_witness :
  exists w', update settings (fun _ => Return two) VUndefined (holding one)
             = (Return two, w')
             /\ persisted settings w' two.
Proof.
  assert (get settings VUndefined (holding one) = (Return one, holding one)) as Hget
    by (vm_compute; reflexivity).
  destruct (update_applies settings (fun _ => Return two) VUndefined one (holding one) Hget)
    as [Hreturns _].
  apply (Hreturns two eq_refl); [discriminate|reflexivity].
Defined.

(** [set_stays_in_its_namespace] at a [set] of 1 over a stored 2. *)
Lemma set_stays_in_its_namespace_witness :
  dispatched (snd (set settings one (holding two)))
  = [{| ev_namespace := "settings"; ev_type := "set"; ev_data := one |}]
  /\ (forall (other : t) (d : value),
        (storage settings, namespace settings) <> (storage other, namespace other) ->
        get other d (snd (set settings one (holding two)))
        = (fst (get other d (holding two)), snd (set settings one (holding two)))).
Proof.
  apply (set_stays_in_its_namespace settings one (holding two)).
  apply injective_projections; [vm_compute; reflexivity|reflexivity].
Defined.

(** [appendItem_appends] at the path [list] of [{list: [1]}] and the value 2. *)
Lemma appendItem_appends_witness :
  exists w',
    appendItem settings "list" two (holding shelf) = (Return 2%nat, w')
    /\ persisted settings w' (VObj [("list", VArr [one; two])])
    /\ exists parent',
         _navigateToPath (VObj [("list", VArr [one; two])]) "list"
         = Return (parent', "list")
         /\ read_member parent' "list" = Return (VArr [one; two]).
Proof.
  apply (appendItem_appends settings "list" two (holding shelf) shelf shelf "list" [one]).
  - reflexivity.
  - reflexivity.
  - vm_compute. reflexivity.
  - reflexivity.
  - reflexivity.
  - reflexivity.
  - reflexivity.
Defined.

Example appendItem_not_an_array :
  fst (appendItem settings "a.b" two (holding nested))
  = Throw (Error ("Path " +:+ quoted "a.b" +:+ " does not point to an array")).
Proof. vm_compute. reflexivity. Qed.

(** [merge_twice] at a deep merge of [{a: 2, b: {c: 1}}]. *)
Lemma merge_twice_witness :
  merged_data
    (merged_data (VObj [("b", VObj [("d", two)])])
       [("a", two); ("b", VObj [("c", one)])] true)
    [("a", two); ("b", VObj [("c", one)])] true
  = merged_data (VObj [("b", VObj [("d", two)])])
      [("a", two); ("b", VObj [("c", one)])] true.
Proof.
  apply merge_twice; vm_compute; reflexivity.
Defined.

(** [editItem_replaces] at the path [a.b] of [{a: {b: 1, c: 2}}]. *)
Lemma editItem_replaces_witness :
  exists w',
    editItem settings "a.b" two false (holding nested) = (Return tt, w')
    /\ persisted settings w' (VObj [("a", VObj [("b", two); ("c", two)])])
    /\ walk "a.b" (VObj [("a", VObj [("b", two); ("c", two)])]) ["a"; "b"] = Return two
    /\ dispatched w'
       = [{| ev_namespace := "settings"; ev_type := "set";
             ev_data := VObj [("a", VObj [("b", two); ("c", two)])] |};
          {| ev_namespace := "settings"; ev_type := "edit";
             ev_data := VObj [("path", VStr "a.b"); ("oldValue", one);
                              ("newValue", two)] |}].
Proof.
  apply (editItem_replaces settings "a.b" two false (holding nested) nested one).
  - reflexivity.
  - vm_compute. reflexivity.
  - reflexivity.
  - discriminate.
  - reflexivity.
Defined.

(** [editItem_creates] at the path [a.b] on a store that holds nothing. *)
Lemma editItem_creates_witness :
  (exists w',
     editItem settings "a.b" one true empty_world = (Return tt, w')
     /\ persisted settings w' (VObj [("a", VObj [("b", one)])])
     /\ walk "a.b" (VObj [("a", VObj [("b", one)])]) ["a"; "b"] = Return one
     /\ dispatched w'
        = [{| ev_namespace := "settings"; ev_type := "set";
              ev_data := VObj [("a", VObj [("b", one)])] |};
           {| ev_namespace := "settings"; ev_type := "edit";
              ev_data := VObj [("path", VStr "a.b"); ("oldValue", VUndefined);
                               ("newValue", one)] |}])
  /\ editItem settings "a.b" one false empty_world
     = (Throw (Error ("No data found in namespace " +:+ quoted "settings")), empty_world).
Proof.
  assert (get settings VUndefined empty_world = (Return VUndefined, empty_world)) as Hget
    by (vm_compute; reflexivity).
  assert (own_namespace settings) as Hown by reflexivity.
  destruct (editItem_creates settings "a.b" one empty_world VUndefined
              eq_refl Hown Hget eq_refl eq_refl)
    as [Hcreates Hthrows].
  split; [|exact Hthrows]. apply Hcreates. reflexivity.
Defined.

Example editItem_creates_in_array :
  edit_walk true "l.2.x" (VObj [("l", VArr [one])]) ["l"; "2"] "x" two
  = Return (VObj [("l", VArr [one; VUndefined; VObj [("x", two)]])], VUndefined).
Proof. vm_compute. reflexivity. Qed.

Example editItem_missing :
  fst (editItem settings "a.x" two false (holding nested))
  = Throw (Error ("Path " +:+ quoted "a.x" +:+ " not found"))
  /\ fst (editItem settings "a.b.c" two false (holding nested))
     = Throw (TypeError "Cannot use 'in' operator to search for a key in a primitive").
Proof. split; vm_compute; reflexivity. Qed.

(** [clear_then_get] at the namespace [settings], which holds 1. *)
Lemma clear_then_get_witness :
  exists w', clear settings (holding one) = (Return tt, w')
             /\ forall d, get settings d w' = (Return d, w').
Proof.
  assert (reads_ok settings) as Hread by reflexivity.
  assert (own_namespace settings) as Hown by reflexivity.
  destruct (clear_then_get settings (holding one) Hread Hown) as [Hget _].
  assert (clear settings (holding one)
          = (Return tt, snd (clear settings (holding one)))) as Hclear
    by (apply injective_projections; [vm_compute; reflexivity|reflexivity]).
  exists (snd (clear settings (holding one))).
  split; [exact Hclear|]. apply (Hget _ Hclear).
Defined.

End Extension.

(** *** On a page, on [localStorage] *)

Section Page.
#[local] Existing Instance page.

Example clear_on_a_page :
  exists w', clear items empty_world = (Return tt, w')
             /\ get items VNull w' = (Return VNull, w').
Proof. eexists. split; vm_compute; reflexivity. Qed.

End Page.
End OpsExamples.


(** * The catalog: export, forms, loading *)

(** ** main.js: [exportItems], [handleCreateItem], [handleEditItem],
    [loadData], [loadShopping], [loadShoppingStatus] *)

Module GroceryOps.
Import JsString GroceryApp.

(** [({ id, store, item, price }) => ({ id, store, item, price })] *)
Definition export_record (it : Item) : value :=
  VObj [("id", VStr (id it)); ("store", VStr (store it)); ("item", VStr (item it));
        ("price", VNum (price it))].

(** The data [exportItems] serializes to the file. *)
Definition export_data (app : t) : value :=
  VArr (export_record <$> groceryItems app).

(** The item an exported item is read back as: the store and the name
    trimmed, a price that is no finite number replaced by 0. *)
Definition read_back (it : Item) : Item :=
  {| id := id it; store := trim (store it); item := trim (item it);
     price := if isFinite (price it) then price it else Fin 0 |}.

(** Every selected id is the id of an item of the catalog. *)
Definition selection_within_catalog (app : t) : Prop :=
  forall i, i ∈ shoppingSet app -> i ∈ id <$> groceryItems app.

End GroceryOps.

Module GroceryForms.
Import JsString GroceryApp GroceryOps.

(** [array.findIndex(p)]; [None] is -1. *)
Fixpoint findIndex {A : Type} (p : A -> bool) (l : list A) : option nat :=
  match l with
  | [] => None
  | x :: rest =>
      if p x then Some 0
      else match findIndex p rest with Some i => Some (S i) | None => None end
  end.

Section Forms.
Context `{Engine} `{Browser}.

(** [parseFloat] of the engine, on the text of a form field. *)
Variable parseFloat : string -> number.

(** [parseFloat(formData.get('price')) || 0] *)
Definition form_price (text : string) : number :=
  if truthy (VNum (parseFloat text)) then parseFloat text else Fin 0.

(** [handleCreateItem(e)], with the clock at [now] and the texts of the
    fields [store], [item] and [price] of the form. *)
Definition handleCreateItem (now : N) (store item price : string) (app : t) : t :=
  {| groceryItems :=
       groceryItems app ++
       [{| id := "item-" +:+ decimal now; store := store; item := item;
           price := form_price price |}];
     shoppingSet := shoppingSet app;
     uncheckedSet := uncheckedSet app |}.

(** [handleEditItem(e)], with the texts of the fields [id], [store], [item]
    and [price] of the form. *)
Definition handleEditItem (itemId store item price : string) (app : t) : t :=
  match findIndex (fun it => String.eqb (id it) itemId) (groceryItems app) with
  | Some itemIndex =>
      {| groceryItems :=
           <[itemIndex := {| id := itemId; store := store; item := item;
                             price := form_price price |}]> (groceryItems app);
         shoppingSet := shoppingSet app;
         uncheckedSet := uncheckedSet app |}
  | None => app
  end.

(** [loadShopping()] on the store of the selection. *)
Definition loadShopping (shoppingStore : DataStore.t) (app : t) : M t :=
  try_catch
    (shopping <- DataStore.get shoppingStore (VArr []) ;;
     match shopping with
     | VArr l =>
         ret {| groceryItems := groceryItems app;
                shoppingSet := list_to_set (ToString <$> l);
                uncheckedSet := uncheckedSet app |}
     | _ => ret app
     end)
    (fun _ => ret app).

(** [loadShoppingStatus()] on the store of the status set. *)
Definition loadShoppingStatus (shoppingStatusStore : DataStore.t) (app : t) : M t :=
  try_catch
    (unchecked <- DataStore.get shoppingStatusStore (VArr []) ;;
     match unchecked with
     | VArr l =>
         ret {| groceryItems := groceryItems app;
                shoppingSet := shoppingSet app;
                uncheckedSet := list_to_set (ToString <$> l) |}
     | _ => ret app
     end)
    (fun _ => ret app).

(** [loadData()] on the store of the catalog.  The items are taken as the
    store holds them, as values; the result is [this.groceryItems]. *)
Definition loadData (itemsStore : DataStore.t) (groceryItems : list value)
  : M (list value) :=
  stored <- DataStore.get itemsStore VNull ;;
  match stored with
  | VArr (first :: rest) => ret (first :: rest)
  | _ => ret groceryItems
  end.

End Forms.
End GroceryForms.


(** ** The import merger, as a whole *)

Module ImportAccounts.
Import JsString JsStringFacts GroceryApp ImportFacts ImportClaims GroceryOps.

Section Accounts.
Context `{Engine} `{Browser}.

(** The records a state accounts for. *)
Definition accounted (st : import_state) : nat :=
  length (toAdd st) + skippedDuplicates st + skippedInvalid st.

Lemma import_record_accounts (st st' : import_state) (raw : value) :
  import_record st raw = Some st' -> accounted st' = S (accounted st).
Proof.
  unfold accounted.
  destruct (import_record_outcome st raw) as [[_ E]|[_ [E|(i & c & E)]]];
    rewrite E; intros [= <-]; simpl; rewrite ?length_app; simpl; lia.
Qed.

Lemma import_loop_accounts (data : list value) :
  forall st st', import_loop st data = Some st' ->
                 accounted st' = length data + accounted st.
Proof.
  induction data as [|raw rest IH]; intros st st'; simpl.
  - now intros [= <-].
  - destruct (import_record st raw) as [st1|] eqn:E; [|discriminate].
    intros Hloop. rewrite (IH _ _ Hloop), (import_record_accounts _ _ _ E). lia.
Qed.

(** The members of a record are no objects or arrays: every field the loop
    reads has a text and a number that the conversions [String] and [Number]
    compute without calling a method of the field. *)
Definition scalar_fields (raw : value) : bool :=
  match raw with
  | VObj f => forallb (fun kv => negb (DataStore.container (snd kv))) f
  | _ => true
  end.

(** X14. The loop of an import, over records whose members are no objects
    or arrays, always completes and accounts for every record: the items
    of the batch, the duplicates and the invalid records it has counted at the
    end add up to the length of the array. *)
Theorem import_accounts_for_every_record (existing : list Item) (data : list value) :
  forallb scalar_fields data = true ->
  exists st,
    import_loop (initial_state existing) data = Some st
    /\ length (toAdd st) + skippedDuplicates st + skippedInvalid st = length data.
Proof.
  intros _. destruct (import_loop_returns existing data) as (st & Hloop & _).
  exists st. split; [exact Hloop|].
  pose proof (import_loop_accounts data _ _ Hloop) as Hacc.
  unfold accounted in Hacc. simpl in Hacc. lia.
Qed.

(** *** Importing what the catalog already has *)

(** A batch of records that are invalid or have a key of the key set is
    skipped record by record. *)
Lemma import_loop_all_skipped (data : list value) :
  forall st,
    (forall raw, raw ∈ data -> record_valid raw = true ->
                 record_key raw ∈ existingKeySet st) ->
    exists st', import_loop st data = Some st'
      /\ toAdd st' = toAdd st /\ existingKeySet st' = existingKeySet st.
Proof.
  induction data as [|raw rest IH]; intros st Hkeys; [now exists st|].
  simpl. destruct (record_valid raw) eqn:Hvalid.
  - rewrite import_record_duplicate; [|assumption|left; apply Hkeys; [left|assumption]].
    destruct (IH (skip_duplicate st)) as (st' & Hloop & Hadd & Hk).
    { intros raw' Hin. apply Hkeys. now right. }
    now exists st'.
  - rewrite import_record_invalid by assumption.
    destruct (IH (skip_invalid st)) as (st' & Hloop & Hadd & Hk).
    { intros raw' Hin. apply Hkeys. now right. }
    now exists st'.
Qed.




(** *** Importing an exported catalog *)

Lemma export_record_valid (it : Item) :
  record_valid (export_record it) = negb (is_empty (store it)) && negb (is_empty (item it)).
Proof. reflexivity. Qed.

Lemma export_record_key (it : Item) : record_key (export_record it) = item_key it.
Proof. reflexivity. Qed.

Lemma export_record_id (it : Item) : raw_id (export_record it) = id it.
Proof. reflexivity. Qed.

Lemma export_record_accepted (it : Item) :
  accepted_item (export_record it) (id it) = read_back it.
Proof. reflexivity. Qed.

Lemma read_back_key (it : Item) : batch_key (read_back it) = item_key it.
Proof. reflexivity. Qed.

(** X16. Importing the exported catalog into the catalog it was exported
    from imports nothing: every record is counted as a duplicate or as
    invalid, and the application is left as it is. *)
Theorem import_own_export (app : t) :
  exists skippedInvalid skippedDuplicates,
    handleImportFile (export_data app) app
    = Some (NothingImported skippedInvalid skippedDuplicates, app)
    /\ skippedInvalid + skippedDuplicates = length (groceryItems app).
Proof.
  destruct (import_loop_all_skipped (export_record <$> groceryItems app)
              (initial_state (groceryItems app))) as (st & Hloop & Hadd & _).
  { intros raw Hin _. apply list_elem_of_fmap in Hin as (it & -> & Hin).
    rewrite export_record_key. simpl. apply elem_of_list_to_set.
    apply list_elem_of_fmap. now exists it. }
  pose proof (import_loop_accounts _ _ _ Hloop) as Hacc.
  unfold accounted in Hacc. rewrite Hadd, length_fmap in Hacc. simpl in Hacc.
  exists (skippedInvalid st), (skippedDuplicates st). split; [|lia].
  unfold export_data, handleImportFile. now rewrite Hloop, Hadd.
Qed.

(** The state of the loop after the exported items [done] were read into
    an empty catalog. *)
Record restored (done : list Item) (st : import_state) : Prop := {
  restored_items : toAdd st = read_back <$> done;
  restored_invalid : skippedInvalid st = 0;
  restored_duplicates : skippedDuplicates st = 0;
  restored_keys : forall k, k ∈ existingKeySet st <-> k ∈ item_key <$> done;
  restored_ids : forall i, i ∈ existingIdSet st <-> i ∈ id <$> done
}.

Lemma import_loop_restores (rest : list Item) :
  forall (done : list Item) (st : import_state),
    restored done st ->
    NoDup (id <$> (done ++ rest)%list) -> NoDup (item_key <$> (done ++ rest)%list) ->
    (forall it, it ∈ rest -> id it <> "" /\ store it <> "" /\ item it <> "") ->
    exists st', import_loop st (export_record <$> rest) = Some st'
                /\ restored (done ++ rest) st'.
Proof.
  induction rest as [|it rest IH]; intros done st Hst Hids Hkeys Hfields.
  - exists st. now rewrite app_nil_r.
  - destruct (Hfields it) as (Hid & Hstore & Hitem); [left|].
    pose proof Hids as Hid_new. pose proof Hkeys as Hkey_new.
    rewrite fmap_app, fmap_cons in Hid_new, Hkey_new.
    apply NoDup_app in Hid_new as (_ & Hid_new & _).
    apply NoDup_app in Hkey_new as (_ & Hkey_new & _).
    assert (import_record st (export_record it)
            = Some (accept st (export_record it) (id it) (counter st))) as Hstep.
    { rewrite <- export_record_id. apply import_record_keeps_id.
      - rewrite export_record_valid.
        apply is_empty_false in Hstore, Hitem. now rewrite Hstore, Hitem.
      - rewrite export_record_key, (restored_keys _ _ Hst). intros Hin.
        apply (Hkey_new _ Hin). left.
      - rewrite export_record_key. apply not_true_is_false. intros Hin.
        apply existsb_exists in Hin as (x & Hx & Heq). apply String.eqb_eq in Heq.
        rewrite (restored_items _ _ Hst) in Hx.
        apply list_elem_of_In, list_elem_of_fmap in Hx as (p & -> & Hp).
        rewrite read_back_key in Heq.
        apply (Hkey_new (item_key p)); [|rewrite Heq; left].
        apply list_elem_of_fmap. now exists p.
      - now rewrite export_record_id.
      - rewrite export_record_id, (restored_ids _ _ Hst). intros Hin.
        apply (Hid_new _ Hin). left. }
    destruct (IH (done ++ [it])%list
                (accept st (export_record it) (id it) (counter st)))
      as (st' & Hloop & Hst').
    + constructor; simpl.
      * now rewrite (restored_items _ _ Hst), export_record_accepted, fmap_app.
      * apply (restored_invalid _ _ Hst).
      * apply (restored_duplicates _ _ Hst).
      * intros k. rewrite elem_of_union, elem_of_singleton, fmap_app, elem_of_app.
        rewrite (restored_keys _ _ Hst), export_record_key. simpl.
        rewrite list_elem_of_singleton. tauto.
      * intros i. rewrite elem_of_union, elem_of_singleton, fmap_app, elem_of_app.
        rewrite (restored_ids _ _ Hst). simpl. rewrite list_elem_of_singleton. tauto.
    + now rewrite <- app_assoc.
    + now rewrite <- app_assoc.
    + intros it' Hin. apply Hfields. now right.
    + exists st'. simpl. rewrite Hstep. split; [assumption|].
      now rewrite <- app_assoc in Hst'.
Qed.

Lemma read_back_all (items : list Item) :
  (forall it, it ∈ items -> read_back it = it) -> read_back <$> items = items.
Proof.
  induction items as [|it items IH]; intros Hnormal; [reflexivity|].
  simpl. rewrite (Hnormal it) by left. f_equal. apply IH.
  intros it' Hin. apply Hnormal. now right.
Qed.

(** X17. Importing an exported catalog into an empty catalog restores it:
    when the ids of the items are not empty and pairwise different, their
    stores and names are not empty, and their keys are pairwise different,
    every item is imported, none is skipped, under its id and in its place,
    with its store and name trimmed and a price that is no finite number
    replaced by 0; so the catalog is restored as it was when its items have
    trimmed stores and names and finite prices. *)
Theorem import_export_restores (app fresh : t) :
  groceryItems fresh = [] ->
  NoDup (id <$> groceryItems app) ->
  NoDup (item_key <$> groceryItems app) ->
  (forall it, it ∈ groceryItems app -> id it <> "" /\ store it <> "" /\ item it <> "") ->
  exists r,
    handleImportFile (export_data app) fresh
    = Some (r, {| groceryItems := read_back <$> groceryItems app;
                  shoppingSet := shoppingSet fresh;
                  uncheckedSet := uncheckedSet fresh |})
    /\ (r = NothingImported 0 0 \/ r = Imported (length (groceryItems app)) 0 0)
    /\ ((forall it, it ∈ groceryItems app -> read_back it = it) ->
        read_back <$> groceryItems app = groceryItems app).
Proof.
  intros Hfresh Hids Hkeys Hfields.
  destruct (import_loop_restores (groceryItems app) [] (initial_state []))
    as (st & Hloop & Hst); try assumption.
  { constructor; try reflexivity; intros x; simpl; split; intros Hin;
      [now apply elem_of_empty in Hin|now apply elem_of_nil in Hin
      |now apply elem_of_empty in Hin|now apply elem_of_nil in Hin]. }
  simpl in Hst. destruct Hst as [Hadd Hinvalid Hdup _ _].
  unfold export_data, handleImportFile. rewrite Hfresh, Hloop, Hadd, Hinvalid, Hdup.
  rewrite length_fmap.
  pose proof (read_back_all (groceryItems app)) as Hsame.
  destruct (groceryItems app) as [|it items] eqn:Hitems.
  - exists (NothingImported 0 0). split; [|split; [now left|assumption]].
    simpl. destruct fresh as [items' sel status]. simpl in *. now subst.
  - exists (Imported (length (it :: items)) 0 0).
    split; [reflexivity|]. split; [now right|assumption].
Qed.

(** *** The form of the imported items *)






End Accounts.
End ImportAccounts.

(** ** The catalog and the selection *)

Module AppFacts.
Import JsString JsStringFacts GroceryApp ImportFacts ImportClaims GroceryOps GroceryForms.

Section Forms.
Context `{Engine} `{Browser}.
Variable parseFloat : string -> number.

Lemma findIndex_Some {A : Type} (p : A -> bool) (l : list A) (i : nat) :
  findIndex p l = Some i ->
  exists x, l !! i = Some x /\ p x = true
            /\ forall j y, j < i -> l !! j = Some y -> p y = false.
Proof.
  revert i. induction l as [|x rest IH]; intros i; simpl; [discriminate|].
  destruct (p x) eqn:Hp.
  - intros [= <-]. exists x. split; [reflexivity|]. split; [assumption|]. lia.
  - destruct (findIndex p rest) as [i'|]; [|discriminate]. intros [= <-].
    destruct (IH i' eq_refl) as (y & Hy & Hpy & Hbefore). exists y.
    split; [assumption|]. split; [assumption|].
    intros [|j] z Hj; simpl; [now intros [= <-]|]. apply Hbefore. lia.
Qed.

Lemma findIndex_None {A : Type} (p : A -> bool) (l : list A) :
  findIndex p l = None <-> forall x, x ∈ l -> p x = false.
Proof.
  induction l as [|x rest IH]; simpl.
  - split; [|reflexivity]. intros _ x Hin. now apply elem_of_nil in Hin.
  - destruct (p x) eqn:Hp.
    + split; [discriminate|]. intros Hall. rewrite (Hall x) in Hp by left. discriminate.
    + destruct (findIndex p rest) as [i|].
      * split; [discriminate|]. intros Hall.
        assert (Some i = None) as Hn; [|discriminate].
        apply IH. intros y Hy. apply Hall. now right.
      * split; [|reflexivity]. intros _ y Hy. apply elem_of_cons in Hy as [->|Hy]; [assumption|].
        now apply (proj1 IH).
Qed.

(** [handleEditItem] keeps the ids of the catalog and the two sets. *)
Lemma handleEditItem_ids (itemId store item price : string) (app : t) :
  id <$> groceryItems (handleEditItem parseFloat itemId store item price app)
  = id <$> groceryItems app
  /\ shoppingSet (handleEditItem parseFloat itemId store item price app)
     = shoppingSet app
  /\ uncheckedSet (handleEditItem parseFloat itemId store item price app)
     = uncheckedSet app.
Proof.
  unfold handleEditItem.
  destruct (findIndex _ (groceryItems app)) as [i|] eqn:Hfind; simpl; [|auto].
  apply findIndex_Some in Hfind as (x & Hx & Hid & _).
  apply String.eqb_eq in Hid. split; [|auto].
  rewrite list_fmap_insert. simpl. rewrite <- Hid.
  apply list_insert_id. now rewrite list_lookup_fmap, Hx.
Qed.

(** X19. [handleEditItem] changes nothing but the first item of the id of
    the form, which gets the fields of the form and keeps its id and its
    place: the ids of the catalog stay as they are, in their order, and so do
    the items at the other places and the two sets; when no item has the id,
    the application is left as it is. *)
Theorem handleEditItem_keeps_ids (itemId store item price : string) (app : t) :
  id <$> groceryItems (handleEditItem parseFloat itemId store item price app)
  = id <$> groceryItems app
  /\ shoppingSet (handleEditItem parseFloat itemId store item price app)
     = shoppingSet app
  /\ uncheckedSet (handleEditItem parseFloat itemId store item price app)
     = uncheckedSet app
  /\ (itemId ∉ id <$> groceryItems app ->
      handleEditItem parseFloat itemId store item price app = app)
  /\ (itemId ∈ id <$> groceryItems app ->
      exists itemIndex,
        groceryItems (handleEditItem parseFloat itemId store item price app) !! itemIndex
        = Some {| id := itemId; store := store; item := item;
                  price := form_price parseFloat price |}
        /\ (forall j it, j < itemIndex -> groceryItems app !! j = Some it ->
                         GroceryApp.id it <> itemId)
        /\ (forall j, j <> itemIndex ->
                      groceryItems (handleEditItem parseFloat itemId store item price app) !! j
                      = groceryItems app !! j)).
Proof.
  unfold handleEditItem.
  destruct (findIndex _ (groceryItems app)) as [i|] eqn:Hfind; simpl.
  - apply findIndex_Some in Hfind as (x & Hx & Hid & Hbefore).
    apply String.eqb_eq in Hid.
    split; [|split; [reflexivity|split; [reflexivity|split]]].
    + rewrite list_fmap_insert. simpl. rewrite <- Hid.
      apply list_insert_id. now rewrite list_lookup_fmap, Hx.
    + intros Hnot. exfalso. apply Hnot. apply list_elem_of_fmap. exists x.
      split; [now rewrite Hid|]. now apply list_elem_of_lookup_2 with i.
    + intros _. exists i. split; [|split].
      * apply list_lookup_insert_eq. now apply lookup_lt_Some with x.
      * intros j it Hj Hit Heq. apply (Hbefore j it Hj) in Hit.
        apply String.eqb_neq in Hit. contradiction.
      * intros j Hj. now apply list_lookup_insert_ne.
  - split; [reflexivity|]. split; [reflexivity|]. split; [reflexivity|].
    split; [reflexivity|]. intros Hin. exfalso.
    apply list_elem_of_fmap in Hin as (it & -> & Hin).
    rewrite findIndex_None in Hfind. specialize (Hfind it Hin).
    now rewrite String.eqb_refl in Hfind.
Qed.

(** X20. [handleCreateItem] puts one item after those of the catalog, with
    the store and the name of the form, a price that is never [NaN] (0 for a
    text that is no number), and the id made of the clock; it leaves the other
    items and the two sets as they are.  It does not look at the ids of the
    catalog: the ids stay pairwise different exactly when no item has the id
    of that instant. *)
Theorem handleCreateItem_appends (now : N) (store item price : string) (app : t) :
  groceryItems (handleCreateItem parseFloat now store item price app)
  = (groceryItems app
     ++ [{| id := "item-" +:+ decimal now; store := store; item := item;
            price := form_price parseFloat price |}])%list
  /\ shoppingSet (handleCreateItem parseFloat now store item price app) = shoppingSet app
  /\ uncheckedSet (handleCreateItem parseFloat now store item price app) = uncheckedSet app
  /\ isNaN (form_price parseFloat price) = false
  /\ (parseFloat price = NaN -> form_price parseFloat price = Fin 0)
  /\ (NoDup (id <$> groceryItems app) ->
      (NoDup (id <$> groceryItems (handleCreateItem parseFloat now store item price app))
       <-> "item-" +:+ decimal now ∉ id <$> groceryItems app)).
Proof.
  split; [reflexivity|]. split; [reflexivity|]. split; [reflexivity|].
  split; [|split].
  - unfold form_price. destruct (parseFloat price) as [| | |q] eqn:E; try reflexivity.
    simpl. now destruct (negb (Qeq_bool q 0)).
  - unfold form_price. now intros ->.
  - intros Hnd. simpl. rewrite fmap_app. simpl. rewrite NoDup_app. split.
    + intros (_ & Hnew & _) Hin. apply (Hnew _ Hin). left.
    + intros Hnew. split; [assumption|]. split; [|apply NoDup_singleton].
      intros i Hi Hin. apply list_elem_of_singleton in Hin. now subst.
Qed.

(** X21. From a state in which every selected id is the id of an item of
    the catalog, each of these leads to such a state: selecting the id of an
    item of the catalog, removing an id from the selection, toggling a status,
    deleting an item, clearing the shopping list, creating an item, editing
    one, and an import. *)
Theorem selection_within_catalog_preserved (app : t) :
  selection_within_catalog app ->
  (forall itemId, itemId ∈ id <$> groceryItems app ->
                  selection_within_catalog (addToShopping itemId app))
  /\ (forall itemId, selection_within_catalog (removeFromShopping itemId app))
  /\ (forall itemId isChecked, selection_within_catalog (toggleItem itemId isChecked app))
  /\ (forall itemId, selection_within_catalog (removeItem itemId app))
  /\ selection_within_catalog (clearShoppingList app)
  /\ (forall now store item price,
        selection_within_catalog (handleCreateItem parseFloat now store item price app))
  /\ (forall itemId store item price,
        selection_within_catalog (handleEditItem parseFloat itemId store item price app))
  /\ (forall data r app',
        handleImportFile data app = Some (r, app') -> selection_within_catalog app').
Proof.
  unfold selection_within_catalog. intros Hinv.
  split; [|split; [|split; [|split; [|split; [|split; [|split]]]]]].
  - intros itemId Hitem i. unfold addToShopping.
    destruct (bool_decide (itemId ∈ shoppingSet app)); simpl; [apply Hinv|].
    intros Hin. apply elem_of_union in Hin as [Hin|Hin]; [now apply Hinv|].
    apply elem_of_singleton in Hin. now subst.
  - intros itemId i. unfold removeFromShopping.
    destruct (negb (bool_decide (itemId ∈ shoppingSet app))); simpl; [apply Hinv|].
    intros Hin. apply elem_of_difference in Hin as [Hin _]. now apply Hinv.
  - intros itemId isChecked i. simpl. apply Hinv.
  - intros itemId i. simpl. intros Hin. apply elem_of_difference in Hin as [Hin Hne].
    rewrite elem_of_singleton in Hne.
    apply Hinv, list_elem_of_fmap in Hin as (it & -> & Hin).
    apply list_elem_of_fmap. exists it. split; [reflexivity|].
    apply list_elem_of_In, filter_In. split; [now apply list_elem_of_In|].
    apply negb_true_iff, String.eqb_neq. exact Hne.
  - intros i. unfold clearShoppingList.
    destruct (size (shoppingSet app) =? 0)%nat; simpl; [apply Hinv|].
    intros Hin. now apply elem_of_empty in Hin.
  - intros now store item price i. simpl. intros Hin.
    rewrite fmap_app. apply elem_of_app. left. now apply Hinv.
  - intros itemId store item price i.
    destruct (handleEditItem_ids itemId store item price app) as (-> & -> & _).
    apply Hinv.
  - intros data r app'. unfold handleImportFile.
    destruct data as [| | | | |records|]; try (intros [= _ <-]; exact Hinv).
    destruct (import_loop _ records) as [st|]; [|discriminate].
    destruct (length (toAdd st) =? 0)%nat; intros [= _ <-]; [exact Hinv|].
    simpl. intros i Hin. rewrite fmap_app. apply elem_of_app. left. now apply Hinv.
Qed.

(** *** The sets, persisted and loaded *)

Lemma ToString_strings (ids : list string) : ToString <$> (VStr <$> ids) = ids.
Proof. induction ids as [|i ids IH]; [reflexivity|]. simpl. f_equal. exact IH. Qed.

Lemma json_value_strings (ids : list string) :
  json_value (VArr (VStr <$> ids)) = true.
Proof. induction ids as [|i ids IH]; [reflexivity|exact IH]. Qed.

Context `{!EngineLaws}.

(** X22. [loadShopping] and [loadShoppingStatus] never throw and write
    nothing, and each changes its own set only; and, with an engine whose
    [JSON.parse] reads a JSON value back from its text, they restore what was
    persisted: after a [set] of an array of ids (strings) that returns, on a
    store that answers reads and whose namespace, on [chrome.storage], is
    no name of [Object.prototype], the set loaded is the set of these ids. *)
Theorem loads_restore (store : DataStore.t) (app : t) :
  (forall w, exists app',
     loadShopping store app w = (Return app', w)
     /\ groceryItems app' = groceryItems app
     /\ uncheckedSet app' = uncheckedSet app)
  /\ (forall w, exists app',
        loadShoppingStatus store app w = (Return app', w)
        /\ groceryItems app' = groceryItems app
        /\ shoppingSet app' = shoppingSet app)
  /\ (forall (ids : list string) (w w' : world),
        DataStore.reads_ok store -> DataStore.own_namespace store ->
        DataStore.set store (VArr (VStr <$> ids)) w = (Return tt, w') ->
        loadShopping store app w'
        = (Return {| groceryItems := groceryItems app;
                     shoppingSet := list_to_set ids;
                     uncheckedSet := uncheckedSet app |}, w')
        /\ loadShoppingStatus store app w'
           = (Return {| groceryItems := groceryItems app;
                        shoppingSet := shoppingSet app;
                        uncheckedSet := list_to_set ids |}, w')).
Proof.
  split; [|split].
  - intros w. unfold loadShopping, try_catch, bind.
    destruct (DataStore.get store (VArr []) w) as [[shopping|e] w1] eqn:Hget;
      apply StoreOpsFacts.get_result in Hget; subst w1.
    + destruct shopping; simpl; eauto.
    + simpl. eauto.
  - intros w. unfold loadShoppingStatus, try_catch, bind.
    destruct (DataStore.get store (VArr []) w) as [[unchecked|e] w1] eqn:Hget;
      apply StoreOpsFacts.get_result in Hget; subst w1.
    + destruct unchecked; simpl; eauto.
    + simpl. eauto.
  - intros ids w w' Hreads _ Hset.
    pose proof (JSON_round_trip _ (json_value_strings ids)) as Hjson.
    apply StoreFacts.set_returns in Hset as [Hdef Hpersisted].
    unfold loadShopping, loadShoppingStatus, try_catch, bind.
    rewrite (StoreFacts.get_persisted store w' _ (VArr []) Hreads Hpersisted Hdef Hjson).
    cbv beta iota. unfold ret. now rewrite ToString_strings.
Qed.

(** X23. With an engine whose [JSON.parse] reads a JSON value back from its
    text, [loadData] restores a catalog that was persisted: after a [set] of
    an array of JSON values that returns, on a store that answers reads and
    whose namespace, on [chrome.storage], is no name of [Object.prototype],
    it loads that array when it is not empty, and keeps the catalog it has
    when the array is empty.  It writes nothing; and a read that fails makes
    it fail (it does not catch the error, as the loading of the two sets
    does). *)
Theorem loadData_restores (itemsStore : DataStore.t) (groceryItems : list value) :
  (forall (items : list value) (w w' : world),
     DataStore.reads_ok itemsStore -> DataStore.own_namespace itemsStore ->
     json_value (VArr items) = true ->
     DataStore.set itemsStore (VArr items) w = (Return tt, w') ->
     loadData itemsStore groceryItems w'
     = (Return (match items with [] => groceryItems | _ => items end), w'))
  /\ (forall w r w', loadData itemsStore groceryItems w = (r, w') -> w' = w)
  /\ (forall w e, DataStore.get itemsStore VNull w = (Throw e, w) ->
                  loadData itemsStore groceryItems w = (Throw e, w)).
Proof.
  split; [|split].
  - intros items w w' Hreads _ Hjson Hset. apply JSON_round_trip in Hjson.
    apply StoreFacts.set_returns in Hset as [Hdef Hpersisted].
    unfold loadData, bind.
    rewrite (StoreFacts.get_persisted itemsStore w' _ VNull Hreads Hpersisted Hdef Hjson).
    now destruct items.
  - intros w r w'. unfold loadData, bind.
    destruct (DataStore.get itemsStore VNull w) as [[stored|e] w1] eqn:Hget;
      apply StoreOpsFacts.get_result in Hget; subst w1.
    + destruct stored as [| | | | |[|first rest]|]; now intros [= _ <-].
    + now intros [= _ <-].
  - intros w e Hget. unfold loadData, bind. now rewrite Hget.
Qed.

End Forms.
End AppFacts.

(** ** The catalog on concrete inputs *)

Module CatalogExamples.
Import JsString GroceryApp GroceryOps GroceryForms ImportAccounts AppFacts Reference
  ReferenceFacts ImportExamples AppClaims.

#[local] Existing Instance page.

Definition backup : t :=
  {| groceryItems := [milk_item]; shoppingSet := {["item-1700000000000-0"]};
     uncheckedSet := ∅ |}.

Example export_of_backup : export_data backup
  = VArr [VObj [("id", VStr "item-1700000000000-0"); ("store", VStr "Auchan");
                ("item", VStr "Milk"); ("price", VNum (Fin 2.5))]].
Proof. reflexivity. Qed.

(** [import_export_restores] at a catalog of one item. *)
Lemma import_export_restores_witness :
  exists r,
    handleImportFile (export_data backup) empty_app
    = Some (r, {| groceryItems := [milk_item]; shoppingSet := ∅; uncheckedSet := ∅ |})
    /\ (r = NothingImported 0 0 \/ r = Imported 1 0 0)
    /\ ((forall it, it ∈ [milk_item] -> read_back it = it) ->
        read_back <$> [milk_item] = [milk_item]).
Proof.
  apply (import_export_restores backup empty_app).
  - reflexivity.
  - apply NoDup_singleton.
  - apply NoDup_singleton.
  - intros it Hin. apply list_elem_of_singleton in Hin. subst it.
    repeat split; discriminate.
Defined.

(** [import_accounts_for_every_record] at a batch of three records: the
    record of the specification twice, and a record without a name. *)
Lemma import_accounts_witness :
  exists st,
    import_loop (initial_state [])
      [milk; milk; VObj [("store", VStr "Auchan"); ("price", VNum (Fin 1))]] = Some st
    /\ length (toAdd st) + skippedDuplicates st + skippedInvalid st = 3.
Proof.
  apply (import_accounts_for_every_record []
           [milk; milk; VObj [("store", VStr "Auchan"); ("price", VNum (Fin 1))]]).
  reflexivity.
Defined.

Definition shopping : DataStore.t :=
  {| DataStore.namespace := "groceries.shopping"; DataStore.type := "local";
     DataStore.storage := DataStore.LocalStorage |}.

(** The world after the ids [a] and [b] were stored under the namespace of
    the selection. *)
Definition selected : world :=
  snd (DataStore.set shopping (VArr (VStr <$> ["a"; "b"])) empty_world).

(** [loads_restore] at the ids [a] and [b], on [localStorage]. *)
Lemma loads_restore_witness :
  local_items selected !! "groceries.shopping"
  = Some (JSON_stringify (VArr [VStr "a"; VStr "b"]))
  /\ loadShopping shopping empty_app selected
      = (Return {| groceryItems := []; shoppingSet := list_to_set ["a"; "b"];
                   uncheckedSet := ∅ |}, selected)
  /\ loadShoppingStatus shopping empty_app selected
      = (Return {| groceryItems := []; shoppingSet := ∅;
                   uncheckedSet := list_to_set ["a"; "b"] |}, selected).
Proof.
  split; [reflexivity|].
  destruct (loads_restore shopping empty_app) as (_ & _ & Hrestore).
  apply (Hrestore ["a"; "b"] empty_world selected I I).
  apply injective_projections; [vm_compute; reflexivity|reflexivity].
Defined.

(** A catalog of two items, as the store holds it. *)
Definition stock : list value :=
  [VObj [("id", VStr "item-1700000000000-0"); ("store", VStr "Auchan");
         ("item", VStr "Milk"); ("price", VNum (Fin (5 # 2)))];
   VObj [("id", VStr "x"); ("store", VStr "Inter"); ("item", VStr "Eggs");
         ("price", VNum (Fin 0))]].

(** The world after [stock] was stored under the namespace of the catalog. *)
Definition saved : world :=
  snd (DataStore.set StoreExamples.items (VArr stock) empty_world).

(** [loadData_restores] at the catalog [stock], on [localStorage]. *)
Lemma loadData_restores_witness :
  local_items saved !! "groceries.items" = Some (JSON_stringify (VArr stock))
  /\ loadData StoreExamples.items [] saved = (Return stock, saved).
Proof.
  split; [reflexivity|].
  destruct (loadData_restores StoreExamples.items []) as (Hrestore & _ & _).
  apply (Hrestore stock empty_world saved I I).
  - reflexivity.
  - apply injective_projections; [vm_compute; reflexivity|reflexivity].
Defined.

Example import_export_trims :
  read_back {| id := "1"; store := " Auchan "; item := "Milk "; price := NaN |}
  = {| id := "1"; store := "Auchan"; item := "Milk"; price := Fin 0 |}.
Proof. reflexivity. Qed.

Example handleEditItem_first_of_two :
  groceryItems (handleEditItem to_number "a" "Inter" "Eggs" "3"
                  {| groceryItems :=
                       [{| id := "a"; store := "Auchan"; item := "Milk"; price := Fin 1 |};
                        {| id := "a"; store := "Auchan"; item := "Bread"; price := Fin 2 |}];
                     shoppingSet := ∅; uncheckedSet := ∅ |})
  = [{| id := "a"; store := "Inter"; item := "Eggs"; price := Fin (inject_Z 3) |};
     {| id := "a"; store := "Auchan"; item := "Bread"; price := Fin 2 |}].
Proof. reflexivity. Qed.

(** [selection_within_catalog_preserved] at a catalog of two items, both
    selected. *)
Lemma selection_within_catalog_witness :
  (forall itemId, itemId ∈ id <$> groceryItems shopping_for_milk ->
                  selection_within_catalog (addToShopping itemId shopping_for_milk))
  /\ (forall itemId, selection_within_catalog (removeFromShopping itemId shopping_for_milk))
  /\ (forall itemId isChecked,
        selection_within_catalog (toggleItem itemId isChecked shopping_for_milk))
  /\ (forall itemId, selection_within_catalog (removeItem itemId shopping_for_milk))
  /\ selection_within_catalog (clearShoppingList shopping_for_milk)
  /\ (forall now store item price,
        selection_within_catalog
          (handleCreateItem to_number now store item price shopping_for_milk))
  /\ (forall itemId store item price,
        selection_within_catalog
          (handleEditItem to_number itemId store item price shopping_for_milk))
  /\ (forall data r app',
        handleImportFile data shopping_for_milk = Some (r, app') ->
        selection_within_catalog app').
Proof.
  apply (selection_within_catalog_preserved to_number shopping_for_milk).
  intros i Hin. apply elem_of_union in Hin as [Hin|Hin];
    apply elem_of_singleton in Hin; subst i; simpl.
  - left.
  - right. left.
Defined.

End CatalogExamples.

(** * The listeners of a store *)

(** ** dataStore.js: [addEventListener], [removeEventListener] *)

Module Listeners.

(** The argument [callback]: a function, known by its identity, or another
    value. *)
Inductive callback :=
| Function (f : nat)
| NotFunction (v : value).

(** [this._eventListeners] is a map from a kind of event to the functions
    registered for it, in the order of their registration;
    [this._eventListeners.get(type) || []] is what [_dispatchChangeEvent]
    reads of it. *)
Definition listeners (reg : gmap string (list nat)) (type : string) : list nat :=
  default [] (reg !! type).

(** [listeners.indexOf(callback)]; [None] is -1. *)
Fixpoint indexOf (f : nat) (l : list nat) : option nat :=
  match l with
  | [] => None
  | g :: rest =>
      if (g =? f)%nat then Some 0%nat
      else match indexOf f rest with Some i => Some (S i) | None => None end
  end.

(** [addEventListener(type, callback)] *)
Definition addEventListener (type : string) (callback : callback) (reg : gmap string (list nat))
  : outcome (gmap string (list nat)) :=
  match callback with
  | NotFunction _ => Throw (TypeError "Callback must be a function")
  | Function f =>
      let reg1 := match reg !! type with
                  | Some _ => reg
                  | None => <[type := []]> reg
                  end in
      Return (<[type := (listeners reg1 type ++ [f])%list]> reg1)
  end.

(** [removeEventListener(type, callback)] *)
Definition removeEventListener (type : string) (callback : callback) (reg : gmap string (list nat))
  : gmap string (list nat) :=
  match reg !! type with
  | Some l =>
      match callback with
      | Function f =>
          match indexOf f l with
          | Some index => <[type := delete index l]> reg
          | None => reg
          end
      | NotFunction _ => reg
      end
  | None => reg
  end.

End Listeners.

Module ListenersFacts.
Import Listeners.








Example listener_registered_twice :
  forall reg1 reg2,
    addEventListener "set" (Function 7) ∅ = Return reg1 ->
    addEventListener "set" (Function 7) reg1 = Return reg2 ->
    listeners reg2 "set" = [7; 7]%nat
    /\ listeners (removeEventListener "set" (Function 7) reg2) "set" = [7]%nat.
Proof.
  intros reg1 reg2 [= <-] [= <-]. split; vm_compute; reflexivity.
Qed.

End ListenersFacts.
